(** * m365-entra-ip-block-lists: the three list utilities, embedded and verified

    A shallow embedding of [scripts/validate.py], [scripts/chunk.py] and
    [scripts/fetch.py].

    Conventions of the embedding.
    - A Python [str] is a Rocq [string]; one [ascii] stands for one code point
      below 256, and [<] on strings is the code-point order of Python.
    - A Python [set] of strings is a [gset string]; [sorted(s)] is a merge
      sort of its elements by the string order.
    - A path is given and returned by its text, and parsed the way
      [pathlib.Path] does: a root ("", "/" or "//") and the parts after it,
      empty parts and "." dropped, ".." kept; [dir / name] replaces [dir]
      when [name] has a root.
    - The file system holds regular files and directories by location (the
      names from the root), with a working directory; there are no symbolic
      links.  A path is resolved part by part as the kernel does, every part
      on the way having to be a directory.  Reading raises on a missing file
      and on a directory, and otherwise returns the text (permissions and
      decoding errors on reading are outside the model).
      [mkdir(parents=True, exist_ok=True)] and [open(path, 'w')] with the
      writes that follow are modelled with their failures: a part of the
      path that is a regular file, a directory in the place of the file,
      and whatever else the operating system refuses (permissions, a full
      disk, a text that cannot be encoded), which the file system carries as
      two oracles; a write that fails after the file was opened leaves the
      file with what was written until then.
    - The values of a JSON document are a type [json]; sorting, hashing and
      formatting values that are not strings stay parameters.
    - Exceptions are values: a fallible call returns [exn + A], and the
      fetcher runs in a small state-and-exception monad over the world
      (file system and the HTTP requests made so far).
    - Console output ([print]) is not modelled; [sys.exit(n)] is the
      returned exit code.
    - Library calls whose code is not part of the repository are parameters:
      [ipaddress.ip_network] (with a concrete model of its IPv4 side, used
      for the worked examples), [json.loads], [re.findall], and the HTTP
      transport.  Exceptions outside [Exception] ([KeyboardInterrupt]) are
      not modelled. *)

From Stdlib Require Import ZArith Ascii String.
From stdpp Require Import gmap strings list sorting pretty.

Local Open Scope string_scope.
Local Open Scope Z_scope.

(** ** Python string primitives *)

Module Py.

(** [str.isspace] for one code point below 256. *)
Definition isspace (c : ascii) : bool :=
  let n := N_of_ascii c in
  ((9 <=? n) && (n <=? 13) || (28 <=? n) && (n <=? 32)
   || (n =? 133) || (n =? 160))%N.

(** [s == t] on strings. *)
Definition eqs (s t : string) : bool := bool_decide (s = t).

Fixpoint lstrip (s : string) : string :=
  match s with
  | String c r => if isspace c then lstrip r else s
  | EmptyString => EmptyString
  end.

Fixpoint rstrip (s : string) : string :=
  match s with
  | String c r =>
      let r' := rstrip r in
      if isspace c && eqs r' "" then "" else String c r'
  | EmptyString => EmptyString
  end.

(** [s.strip()] *)
Definition strip (s : string) : string := rstrip (lstrip s).

(** [s.startswith(p)] *)
Definition startswith (p s : string) : bool := String.prefix p s.

(** [all(p(c) for c in s)] *)
Fixpoint all_chars (p : ascii → bool) (s : string) : bool :=
  match s with
  | String c r => p c && all_chars p r
  | EmptyString => true
  end.

(** [c in s] for a one-character [c]. *)
Fixpoint contains (c : ascii) (s : string) : bool :=
  match s with
  | String d r => Ascii.eqb d c || contains c r
  | EmptyString => false
  end.

(** [s.split(sep)] for a one-character separator: never empty. *)
Fixpoint split (sep : ascii) (s : string) : list string :=
  match s with
  | EmptyString => [""]
  | String c r =>
      if Ascii.eqb c sep then "" :: split sep r
      else match split sep r with
           | w :: ws => String c w :: ws
           | [] => [String c ""]
           end
  end.

(** [s.split()]: maximal runs of non-whitespace. *)
Fixpoint split_ws (s : string) : list string :=
  match s with
  | EmptyString => []
  | String c r =>
      if isspace c then split_ws r
      else match r with
           | String c' _ =>
               if isspace c' then String c "" :: split_ws r
               else match split_ws r with
                    | w :: ws => String c w :: ws
                    | [] => [String c ""]
                    end
           | EmptyString => [String c ""]
           end
  end.

Definition LF : ascii := "010"%char.
Definition CR : ascii := "013"%char.
(** The one-character string "\n". *)
Definition nl : string := String LF "".

(** Iterating a text file opened with [open(path, 'r')]: the lines, each
    with its terminator; universal newlines turn "\r" and "\r\n" into
    "\n". *)
Fixpoint readlines (s : string) : list string :=
  match s with
  | EmptyString => []
  | String c r =>
      if Ascii.eqb c LF then nl :: readlines r
      else if Ascii.eqb c CR then
        match r with
        | String "010" r' => nl :: readlines r'
        | _ => nl :: readlines r
        end
      else match readlines r with
           | l :: ls =>
               (* [c] is no terminator: it continues the line the rest
                  starts with *)
               String c l :: ls
           | [] => [String c ""]
           end
  end.

(** ['sep'.join(l)] *)
Fixpoint join (sep : string) (l : list string) : string :=
  match l with
  | [] => ""
  | [x] => x
  | x :: r => x ++ sep ++ join sep r
  end.

(** [sorted(set(l))] on strings. *)
Definition sorted_set (s : gset string) : list string :=
  merge_sort String.le (elements s).

(** [s.endswith(suffix)] *)
Fixpoint endswith (suffix s : string) : bool :=
  eqs s suffix
  || match s with
     | String _ r => endswith suffix r
     | EmptyString => false
     end.

(** [sub in s] on strings. *)
Fixpoint in_str (sub s : string) : bool :=
  startswith sub s
  || match s with
     | String _ r => in_str sub r
     | EmptyString => false
     end.

End Py.

(** ** The [ipaddress] library *)

Module ipaddress.

(** What the repository reads of a network object: [network.version] and
    [str(network)] (the canonical text, host bits cleared). *)
Record network := { version : Z; str : string }.

(** [ipaddress.ip_network(address, strict=False)]: a network, or the
    message of the [ValueError] it raises. *)
Definition ip_network_t : Type := string → string + network.

(** *** A model of the IPv4 side (CPython 3.9.5 and later) *)

Definition MAX_PREFIXLEN : Z := 32.
Definition ALL_ONES : Z := 2 ^ 32 - 1.

Definition is_ascii_digit (c : ascii) : bool :=
  let n := N_of_ascii c in ((48 <=? n) && (n <=? 57))%N.

(** [s.isascii() and s.isdigit()]; the empty string has no digit. *)
Definition isdigit (s : string) : bool :=
  negb (Py.eqs s "") && Py.all_chars is_ascii_digit s.

Fixpoint int_go (acc : Z) (s : string) : Z :=
  match s with
  | String c r => int_go (10 * acc + (Z.of_N (N_of_ascii c) - 48)) r
  | EmptyString => acc
  end.

(** [int(s, 10)] for a string of ASCII digits. *)
Definition int (s : string) : Z := int_go 0 s.

(** [_parse_octet] *)
Definition parse_octet (octet_str : string) : option Z :=
  if Py.eqs octet_str "" then None
  else if negb (isdigit octet_str) then None
  else if (3 <? String.length octet_str)%nat then None
  else if negb (Py.eqs octet_str "0") && Py.startswith "0" octet_str then None
  else
    let octet_int := int octet_str in
    if 255 <? octet_int then None else Some octet_int.

(** [int.from_bytes(octets, 'big')] *)
Definition from_bytes (octets : list Z) : Z :=
  foldl (λ acc b, acc * 256 + b) 0 octets.

(** [IPv4Address._ip_int_from_string] *)
Definition ip_int_from_string (ip_str : string) : option Z :=
  if Py.eqs ip_str "" then None
  else
    let octets := Py.split "." ip_str in
    if negb (length octets =? 4)%nat then None
    else from_bytes <$> mapM parse_octet octets.

(** [_prefix_from_prefix_string] *)
Definition prefix_from_prefix_string (prefixlen_str : string) : option Z :=
  if negb (isdigit prefixlen_str) then None
  else
    let prefixlen := int prefixlen_str in
    if (0 <=? prefixlen) && (prefixlen <=? MAX_PREFIXLEN) then Some prefixlen
    else None.

(** [int.bit_length] of a non-negative integer. *)
Definition bit_length (n : Z) : Z := if n =? 0 then 0 else Z.log2 n + 1.

(** [_count_righthand_zero_bits] *)
Definition count_righthand_zero_bits (number bits : Z) : Z :=
  if number =? 0 then bits
  else Z.min bits (bit_length (Z.land (Z.lnot number) (number - 1))).

(** [_prefix_from_ip_int] *)
Definition prefix_from_ip_int (ip_int : Z) : option Z :=
  let trailing_zeroes := count_righthand_zero_bits ip_int MAX_PREFIXLEN in
  let prefixlen := MAX_PREFIXLEN - trailing_zeroes in
  let leading_ones := Z.shiftr ip_int trailing_zeroes in
  let all_ones := Z.shiftl 1 prefixlen - 1 in
  if negb (leading_ones =? all_ones) then None else Some prefixlen.

(** [_prefix_from_ip_string]: a netmask, else a hostmask. *)
Definition prefix_from_ip_string (ip_str : string) : option Z :=
  match ip_int_from_string ip_str with
  | None => None
  | Some ip_int =>
      match prefix_from_ip_int ip_int with
      | Some p => Some p
      | None => prefix_from_ip_int (Z.lxor ip_int ALL_ONES)
      end
  end.

(** [_ip_int_from_prefix] *)
Definition ip_int_from_prefix (prefixlen : Z) : Z :=
  Z.lxor ALL_ONES (Z.shiftr ALL_ONES prefixlen).

(** [IPv4Network._make_netmask] on a string: the prefix length. *)
Definition make_netmask (arg : string) : option Z :=
  match prefix_from_prefix_string arg with
  | Some p => Some p
  | None => prefix_from_ip_string arg
  end.

(** [str(IPv4Address(n))] *)
Definition str_of_ip_int (ip_int : Z) : string :=
  Py.join "." (pretty <$> [Z.land (Z.shiftr ip_int 24) 255;
                            Z.land (Z.shiftr ip_int 16) 255;
                            Z.land (Z.shiftr ip_int 8) 255;
                            Z.land ip_int 255]).

(** [IPv4Network(address, strict=False)]; [None] stands for
    [AddressValueError] and [NetmaskValueError]. *)
Definition IPv4Network (address : string) : option network :=
  match Py.split "/" address with
  | [addr] =>
      ip ← ip_int_from_string addr;
      Some {| version := 4;
              str := str_of_ip_int ip ++ "/" ++ pretty MAX_PREFIXLEN |}
  | [addr; mask] =>
      ip ← ip_int_from_string addr;
      prefixlen ← make_netmask mask;
      let network_address := Z.land ip (ip_int_from_prefix prefixlen) in
      Some {| version := 4;
              str := str_of_ip_int network_address ++ "/" ++ pretty prefixlen |}
  | _ => None
  end.

Section ip_network.
(** The IPv6 side and [repr] stay parameters. *)
Variable IPv6Network : string → option network.
Variable repr : string → string.

(** [ipaddress.ip_network(address, strict=False)] *)
Definition ip_network : ip_network_t := λ address,
  match IPv4Network address with
  | Some n => inr n
  | None =>
      match IPv6Network address with
      | Some n => inr n
      | None =>
          inl (repr address ++ " does not appear to be an IPv4 or IPv6 network")
      end
  end.
End ip_network.

(** Stand-ins for the two parameters in worked examples: an IPv6 side that
    knows the documentation prefix only, and [repr] of a string free of
    quotes and escapes. *)
Definition example_IPv6Network (address : string) : option network :=
  if Py.eqs address "2001:db8::/32"
  then Some {| version := 6; str := "2001:db8::/32" |}
  else None.
Definition example_repr (s : string) : string := "'" ++ s ++ "'".
Definition example_ip_network : ip_network_t :=
  ip_network example_IPv6Network example_repr.

End ipaddress.

(** ** Exceptions *)

(** The exception classes the programs and the library tell apart: the
    two that [fetch_provider] names, the [OSError] subclasses that
    [pathlib] and [open] raise on a path, and [OtherException] for any
    other subclass of [Exception] ([KeyError], [TypeError],
    [ZeroDivisionError], [PermissionError], [UnicodeEncodeError], ...). *)
Inductive exn :=
  | URLError (msg : string)
  | JSONDecodeError (msg : string)
  | FileNotFoundError
  | FileExistsError
  | NotADirectoryError
  | IsADirectoryError
  | OtherException (msg : string).

(** ** [pathlib.PurePosixPath] *)

Module pathlib.

(** A path as [pathlib] keeps it: the root ("", "/" or "//") and the
    parts after it, none of them empty or ".". *)
Record PurePath := { root : string; parts : list string }.

(** [part.lstrip('/')] *)
Fixpoint lstrip_sep (part : string) : string :=
  match part with
  | String "/" r => lstrip_sep r
  | _ => part
  end.

(** [_PosixFlavour.splitroot]: exactly two leading slashes make the root
    "//", any other number the root "/". *)
Definition splitroot (part : string) : string * string :=
  match part with
  | String "/" _ =>
      let stripped_part := lstrip_sep part in
      if (String.length part - String.length stripped_part =? 2)%nat
      then ("//", stripped_part)
      else ("/", stripped_part)
  | _ => ("", part)
  end.

(** [Path(s)]: [parse_parts] on one argument. *)
Definition Path (s : string) : PurePath :=
  let '(root, rel) := splitroot s in
  {| root := root;
     parts := filter (λ x, x ≠ "" ∧ x ≠ ".") (Py.split "/" rel) |}.

(** [str(path)] *)
Definition str (path : PurePath) : string :=
  if Py.eqs (root path) "" && bool_decide (parts path = []) then "."
  else root path ++ Py.join "/" (parts path).

(** [path / key]: a [key] with a root replaces [path]. *)
Definition truediv (path : PurePath) (key : string) : PurePath :=
  let other := Path key in
  if Py.eqs (root other) ""
  then {| root := root path; parts := parts path ++ parts other |}
  else other.

(** [path.parent]: a path without parts is its own parent. *)
Definition parent (path : PurePath) : PurePath :=
  {| root := root path; parts := removelast (parts path) |}.

(** [path._make_child_relpath(name)], for a name read from a directory. *)
Definition child (path : PurePath) (name : string) : PurePath :=
  {| root := root path; parts := parts path ++ [name] |}.

(** [dir / name] for paths given by their text. *)
Definition joinpath (dir name : string) : string :=
  str (truediv (Path dir) name).

(** [path.name]: the last component. *)
Definition name (path : string) : string :=
  default "" (last (filter (λ c, c ≠ "" ∧ c ≠ ".") (Py.split "/" path))).

(** [path.stem]: the name without its last suffix; a leading or a
    trailing dot starts no suffix. *)
Definition stem (path : string) : string :=
  let n := name path in
  let parts := Py.split "." n in
  let base := Py.join "." (removelast parts) in
  if (1 <? length parts)%nat && negb (Py.eqs base "")
     && negb (Py.eqs (default "" (last parts)) "")
  then base else n.

End pathlib.

(** ** The file system *)

(** What a location holds: a regular file with its text, or a
    directory. *)
Inductive node := File (text : string) | Dir.

(** The file system: the nodes by location (the names from the root,
    innermost first; the root [[]] is a directory), the working
    directory, and what the operating system refuses for reasons the model
    does not look into (permissions, a full disk, a text that cannot be
    encoded): [fs_mkdir_error] for the creation of a directory,
    [fs_write_error] for writing a text to a file, either on opening it
    ([None]: the file is not touched) or after it was truncated
    ([Some rest]: the file is left holding [rest]). *)
Record filesystem := {
  fs_nodes : gmap (list string) node;
  fs_cwd : list string;
  fs_mkdir_error : list string → option exn;
  fs_write_error : list string → string → option (exn * option string);
}.

Definition node_at (fs : filesystem) (loc : list string) : option node :=
  match loc with
  | [] => Some Dir
  | _ => fs_nodes fs !! loc
  end.

Definition set_node (loc : list string) (n : node) (fs : filesystem)
  : filesystem :=
  {| fs_nodes := <[loc := n]> (fs_nodes fs);
     fs_cwd := fs_cwd fs;
     fs_mkdir_error := fs_mkdir_error fs;
     fs_write_error := fs_write_error fs |}.

(** One step of path resolution: from the directory at [loc] to its entry
    [c], or to its parent. *)
Definition step (fs : filesystem) (loc : list string) (c : string)
  : exn + list string :=
  match node_at fs loc with
  | Some Dir => inr (if Py.eqs c ".." then tail loc else c :: loc)
  | Some (File _) => inl NotADirectoryError
  | None => inl FileNotFoundError
  end.

Fixpoint walk (fs : filesystem) (loc : list string) (parts : list string)
  : exn + list string :=
  match parts with
  | [] => inr loc
  | c :: rest =>
      match step fs loc c with
      | inr loc' => walk fs loc' rest
      | inl e => inl e
      end
  end.

(** The location a path leads to, when every directory on the way
    exists; the location itself may hold nothing. *)
Definition resolve (fs : filesystem) (path : pathlib.PurePath)
  : exn + list string :=
  walk fs (if Py.eqs (pathlib.root path) "" then fs_cwd fs else [])
    (pathlib.parts path).

(** [os.stat], with the errors that [pathlib] turns into [False]. *)
Definition stat (fs : filesystem) (path : string) : option node :=
  match resolve fs (pathlib.Path path) with
  | inr loc => node_at fs loc
  | inl _ => None
  end.

(** [path.is_file()] *)
Definition is_file (fs : filesystem) (path : string) : bool :=
  match stat fs path with Some (File _) => true | _ => false end.
(** [path.is_dir()] *)
Definition is_dir (fs : filesystem) (path : string) : bool :=
  match stat fs path with Some Dir => true | _ => false end.
(** [path.exists()] *)
Definition path_exists (fs : filesystem) (path : string) : bool :=
  is_file fs path || is_dir fs path.

(** The names in the directory at [loc], in the order the operating
    system lists them. *)
Definition listdir (fs : filesystem) (loc : list string) : list string :=
  omap (λ k, match k with
             | name :: dir => if bool_decide (dir = loc) then Some name else None
             | [] => None
             end) (elements (dom (fs_nodes fs))).

(** [path.glob('*.txt')]: nothing unless [path] is a directory. *)
Definition glob_txt (fs : filesystem) (path : string) : list string :=
  match resolve fs (pathlib.Path path) with
  | inr loc =>
      match node_at fs loc with
      | Some Dir =>
          (λ name, pathlib.str (pathlib.child (pathlib.Path path) name))
            <$> filter (λ name, Py.endswith ".txt" name = true) (listdir fs loc)
      | _ => []
      end
  | inl _ => []
  end.

(** The text of a file opened with [open(path, 'r')]. *)
Definition read_text (fs : filesystem) (path : string) : exn + string :=
  match resolve fs (pathlib.Path path) with
  | inr loc =>
      match node_at fs loc with
      | Some (File text) => inr text
      | Some Dir => inl IsADirectoryError
      | None => inl FileNotFoundError
      end
  | inl e => inl e
  end.

(** [open(path, 'r')] and iteration over the lines. *)
Definition open_r (fs : filesystem) (path : string) : exn + list string :=
  match read_text fs path with
  | inr text => inr (Py.readlines text)
  | inl e => inl e
  end.

(** [os.mkdir(path)] *)
Definition os_mkdir (path : pathlib.PurePath) (fs : filesystem)
  : exn + filesystem :=
  match pathlib.parts path with
  | [] => inl FileExistsError
  | _ =>
      match resolve fs path with
      | inr loc =>
          match node_at fs loc with
          | Some _ => inl FileExistsError
          | None =>
              match fs_mkdir_error fs loc with
              | Some e => inl e
              | None => inr (set_node loc Dir fs)
              end
          end
      | inl e => inl e
      end
  end.

(** [path.mkdir(parents=False, exist_ok=True)] *)
Definition mkdir_exist_ok (path : pathlib.PurePath) (fs : filesystem)
  : (exn + unit) * filesystem :=
  match os_mkdir path fs with
  | inr fs' => (inr (), fs')
  | inl FileNotFoundError => (inl FileNotFoundError, fs)
  | inl e =>
      if is_dir fs (pathlib.str path) then (inr (), fs) else (inl e, fs)
  end.

(** [path.mkdir(parents=True, exist_ok=True)], by recursion on the parts
    of [path], last part first. *)
Fixpoint mkdir_parents_from (root : string) (rev_parts : list string)
    (fs : filesystem) : (exn + unit) * filesystem :=
  let path := {| pathlib.root := root; pathlib.parts := rev rev_parts |} in
  match os_mkdir path fs with
  | inr fs' => (inr (), fs')
  | inl FileNotFoundError =>
      match rev_parts with
      | [] => (inl FileNotFoundError, fs)
      | _ :: rev_parent =>
          match mkdir_parents_from root rev_parent fs with
          | (inr _, fs') => mkdir_exist_ok path fs'
          | (inl e, fs') => (inl e, fs')
          end
      end
  | inl e =>
      if is_dir fs (pathlib.str path) then (inr (), fs) else (inl e, fs)
  end.

Definition mkdir_parents (path : pathlib.PurePath) (fs : filesystem)
  : (exn + unit) * filesystem :=
  mkdir_parents_from (pathlib.root path) (rev (pathlib.parts path)) fs.

(** [with open(path, 'w') as f:] followed by the writes making up
    [text]. *)
Definition write_text (path text : string) (fs : filesystem)
  : (exn + unit) * filesystem :=
  match pathlib.parts (pathlib.Path path) with
  | [] => (inl IsADirectoryError, fs)
  | _ =>
      match resolve fs (pathlib.Path path) with
      | inr loc =>
          match node_at fs loc with
          | Some Dir => (inl IsADirectoryError, fs)
          | _ =>
              match fs_write_error fs loc text with
              | None => (inr (), set_node loc (File text) fs)
              | Some (e, None) => (inl e, fs)
              | Some (e, Some rest) => (inl e, set_node loc (File rest) fs)
              end
          end
      | inl e => (inl e, fs)
      end
  end.

(** [output_path.parent.mkdir(parents=True, exist_ok=True)] followed by
    [with open(output_path, 'w') as f:] and the writes making up
    [text]. *)
Definition write_lines (output_path text : string) (fs : filesystem)
  : (exn + unit) * filesystem :=
  match mkdir_parents (pathlib.parent (pathlib.Path output_path)) fs with
  | (inr _, fs') => write_text output_path text fs'
  | (inl e, fs') => (inl e, fs')
  end.

(** A line is skipped when it is blank or a comment:
    [not stripped or stripped.startswith('#')]. *)
Definition blank_or_comment (stripped : string) : bool :=
  Py.eqs stripped "" || Py.startswith "#" stripped.

(** The text written by [for cidr in cidrs: f.write(f"{cidr}\n")]. *)
Definition render (cidrs : list string) : string :=
  foldr (λ cidr text, cidr ++ Py.nl ++ text) "" cidrs.

(** A file system in which nothing is refused, with the files [files]
    (given by the names from the working directory, innermost first) and
    the directories that hold them; the working directory is the root. *)
Fixpoint parents_of (loc : list string) : list (list string) :=
  match loc with
  | [] => []
  | _ :: dir => dir :: parents_of dir
  end.

Definition filesystem_of (files : list (list string * string))
    (dirs : list (list string)) : filesystem :=
  {| fs_nodes :=
       list_to_map ((λ f, (f.1, File f.2)) <$> files)
       ∪ list_to_map ((λ d, (d, Dir)) <$>
                        (dirs ++ mjoin (parents_of <$> dirs)
                         ++ mjoin ((λ f, parents_of f.1) <$> files))%list);
     fs_cwd := [];
     fs_mkdir_error := λ _, None;
     fs_write_error := λ _ _, None |}.
(** ** scripts/validate.py *)

Module validate.
Import ipaddress.

(** One element of [results['errors']]. *)
Record error_entry := {
  line : nat;
  content : string;
  error : option string;
}.

(** The [results] dictionary.  ['duplicate_entries'] is a set while the
    file is scanned and a sorted list once returned, hence the
    parameter. *)
Record results (D : Type) := {
  file : string;
  total_lines : nat;
  valid_cidrs : nat;
  invalid_cidrs : nat;
  duplicates : nat;
  errors : list error_entry;
  duplicate_entries : D;
}.
Arguments file {D}. Arguments total_lines {D}. Arguments valid_cidrs {D}.
Arguments invalid_cidrs {D}. Arguments duplicates {D}.
Arguments errors {D}. Arguments duplicate_entries {D}.

Section with_ip_network.
Variable ip_network : ip_network_t.

Definition validate_cidr (line : string) : bool * option string :=
  let line := Py.strip line in
  if blank_or_comment line then (true, None)
  else
    match ip_network line with
    | inr network =>
        if negb (version network =? 4)
        then (false, Some ("IPv6 not supported: " ++ line))
        else (true, None)
    | inl e => (false, Some e)
    end.

(** The state of the loop of [validate_file]: [results] and
    [seen_cidrs]. *)
Definition scan_state : Type := results (gset string) * gset string.

(** One iteration of [for line_num, line in enumerate(f, 1)]. *)
Definition scan_line (st : scan_state) (line_num : nat) (line : string)
  : scan_state :=
  let '(r, seen_cidrs) := st in
  let total := S (total_lines r) in
  let stripped := Py.strip line in
  if blank_or_comment stripped then
    ({| file := file r; total_lines := total;
        valid_cidrs := valid_cidrs r; invalid_cidrs := invalid_cidrs r;
        duplicates := duplicates r; errors := errors r;
        duplicate_entries := duplicate_entries r |}, seen_cidrs)
  else
    let '(is_valid, err) := validate_cidr stripped in
    if negb is_valid then
      ({| file := file r; total_lines := total;
          valid_cidrs := valid_cidrs r;
          invalid_cidrs := S (invalid_cidrs r);
          duplicates := duplicates r;
          errors := errors r ++ [{| line := line_num; content := stripped;
                                    error := err |}];
          duplicate_entries := duplicate_entries r |}, seen_cidrs)
    else
      match ip_network stripped with
      | inr network =>
          let normalized := str network in
          if bool_decide (normalized ∈ seen_cidrs) then
            ({| file := file r; total_lines := total;
                valid_cidrs := valid_cidrs r;
                invalid_cidrs := invalid_cidrs r;
                duplicates := S (duplicates r); errors := errors r;
                duplicate_entries := duplicate_entries r ∪ {[normalized]} |},
             seen_cidrs)
          else
            ({| file := file r; total_lines := total;
                valid_cidrs := S (valid_cidrs r);
                invalid_cidrs := invalid_cidrs r;
                duplicates := duplicates r; errors := errors r;
                duplicate_entries := duplicate_entries r |},
             seen_cidrs ∪ {[normalized]})
      | inl _ =>
          (* except ValueError: pass *)
          ({| file := file r; total_lines := total;
              valid_cidrs := valid_cidrs r;
              invalid_cidrs := invalid_cidrs r;
              duplicates := duplicates r; errors := errors r;
              duplicate_entries := duplicate_entries r |}, seen_cidrs)
      end.

Fixpoint scan (line_num : nat) (lines : list string) (st : scan_state)
  : scan_state :=
  match lines with
  | [] => st
  | l :: rest => scan (S line_num) rest (scan_line st line_num l)
  end.

Definition initial (filepath : string) : scan_state :=
  ({| file := filepath; total_lines := 0; valid_cidrs := 0;
      invalid_cidrs := 0; duplicates := 0; errors := [];
      duplicate_entries := ∅ |}, ∅).

(** [results['duplicate_entries'] = sorted(results['duplicate_entries'])] *)
Definition finish (st : scan_state) : results (list string) :=
  let r := st.1 in
  {| file := file r; total_lines := total_lines r;
     valid_cidrs := valid_cidrs r; invalid_cidrs := invalid_cidrs r;
     duplicates := duplicates r; errors := errors r;
     duplicate_entries := Py.sorted_set (duplicate_entries r) |}.

(** The body of [validate_file] on the lines the open file yields. *)
Definition validate_lines (filepath : string) (lines : list string)
  : results (list string) :=
  finish (scan 1 lines (initial filepath)).

Definition validate_file (fs : filesystem) (filepath : string)
  : exn + results (list string) :=
  match open_r fs filepath with
  | inr lines => inr (validate_lines filepath lines)
  | inl e => inl e
  end.

(** The paths [main] collects from [args.paths]. *)
Definition collect (fs : filesystem) (paths : list string) : list string :=
  flat_map (λ path,
    if is_file fs path then [path]
    else if is_dir fs path then glob_txt fs path
    else []) paths.

(** [for filepath in sorted(files)]: the running [total_errors]. *)
Fixpoint validate_all (fs : filesystem) (files : list string)
    (total_errors : nat) : exn + nat :=
  match files with
  | [] => inr total_errors
  | filepath :: rest =>
      match validate_file fs filepath with
      | inr r => validate_all fs rest (total_errors + invalid_cidrs r)%nat
      | inl e => inl e
      end
  end.

(** [main]: the exit code, or the exception that escapes it.  The
    [--verbose] and [--quiet] flags only change what is printed. *)
Definition main (fs : filesystem) (paths : list string) : exn + Z :=
  let files := collect fs paths in
  if bool_decide (files = []) then inr 1
  else
    match validate_all fs (merge_sort String.le files) 0 with
    | inr total_errors => inr (if (0 <? total_errors)%nat then 1 else 0)
    | inl e => inl e
    end.

(** *** Vocabulary for the statements *)

(** The canonical text of a line that holds a valid entry: the line is
    neither blank nor a comment and parses as an IPv4 network. *)
Definition normalized_of (line : string) : option string :=
  let stripped := Py.strip line in
  if blank_or_comment stripped then None
  else
    match ip_network stripped with
    | inr network => if version network =? 4 then Some (str network) else None
    | inl _ => None
    end.

(** The canonical texts of the valid entries of a file, in file order. *)
Definition entries (lines : list string) : list string :=
  omap normalized_of lines.

(** The lines that are neither blank nor comments. *)
Definition counted (lines : list string) : list string :=
  filter (λ line, blank_or_comment (Py.strip line) = false) lines.

(** Whether a validated file of [args.paths] holds an invalid entry. *)
Definition invalid_found (fs : filesystem) (paths : list string) : Prop :=
  ∃ filepath r,
    filepath ∈ collect fs paths ∧
    validate_file fs filepath = inr r ∧ (0 < invalid_cidrs r)%nat.

End with_ip_network.
End validate.

(** ["0" * k] *)
Fixpoint zeros (k : nat) : string :=
  match k with
  | O => ""
  | S k => String "0" (zeros k)
  end.

(** [s.zfill(width)] for a string of digits. *)
Definition zfill (width : nat) (s : string) : string :=
  zeros (width - String.length s) ++ s.

(** [f"{n:03d}"] for a natural number. *)
Definition format_03d (n : nat) : string := zfill 3 (pretty n).

(** [l[start:end]] with Python's clamping and negative indices. *)
Definition slice_index (len i : Z) : Z :=
  if i <? 0 then Z.max (i + len) 0 else Z.min i len.

Definition py_slice {A} (l : list A) (start stop : Z) : list A :=
  let len := Z.of_nat (length l) in
  let a := slice_index len start in
  let b := slice_index len stop in
  take (Z.to_nat (b - a)) (drop (Z.to_nat a) l).

(** ** scripts/chunk.py *)

Module chunk.

Definition DEFAULT_CHUNK_SIZE : Z := 2000.

(** The entries among the lines of a file: stripped, neither blank nor
    comment. *)
Definition cidrs_of_lines (lines : list string) : list string :=
  filter (λ stripped, blank_or_comment stripped = false) (Py.strip <$> lines).

Definition read_cidrs (fs : filesystem) (filepath : string)
  : exn + list string :=
  match open_r fs filepath with
  | inr lines => inr (cidrs_of_lines lines)
  | inl e => inl e
  end.

(** [write_chunk]: the directory is made, then the file is written; either
    may raise, and the file system is left as it is at that point. *)
Definition write_chunk (cidrs : list string) (output_path : string)
    (fs : filesystem) : (exn + unit) * filesystem :=
  write_lines output_path (render cidrs) fs.

(** [cidrs[start:end]] of iteration [i]. *)
Definition chunk_cidrs (cidrs : list string) (chunk_size : Z) (i : nat)
  : list string :=
  let start := Z.of_nat i * chunk_size in
  let stop := Z.min ((Z.of_nat i + 1) * chunk_size) (Z.of_nat (length cidrs)) in
  py_slice cidrs start stop.

Definition output_filename (prefix : string) (i : nat) : string :=
  let chunk_num := (i + 1)%nat in
  prefix ++ "-part-" ++ format_03d chunk_num ++ ".txt".

(** The loop [for i in range(num_chunks)], threading the file system and
    [output_files]; an exception raised by [write_chunk] ends it. *)
Fixpoint chunk_loop (cidrs : list string) (output_dir : string)
    (chunk_size : Z) (prefix : string) (dry_run : bool)
    (range : list nat) (output_files : list string) (fs : filesystem)
  : (exn + list string) * filesystem :=
  match range with
  | [] => (inr output_files, fs)
  | i :: rest =>
      let output_path := pathlib.joinpath output_dir (output_filename prefix i) in
      if dry_run then
        chunk_loop cidrs output_dir chunk_size prefix dry_run rest
          (output_files ++ [output_path]) fs
      else
        match write_chunk (chunk_cidrs cidrs chunk_size i) output_path fs with
        | (inr _, fs') =>
            chunk_loop cidrs output_dir chunk_size prefix dry_run rest
              (output_files ++ [output_path]) fs'
        | (inl e, fs') => (inl e, fs')
        end
  end.

(** [range(n)] for an integer [n]: empty when [n <= 0]. *)
Definition range (n : Z) : list nat := seq 0 (Z.to_nat n).

(** [chunk_file]; the paths are given and returned by their text. *)
Definition chunk_file (input_path output_dir : string) (chunk_size : Z)
    (prefix : option string) (dry_run : bool) (fs : filesystem)
  : (exn + list string) * filesystem :=
  match read_cidrs fs input_path with
  | inl e => (inl e, fs)
  | inr cidrs =>
      if bool_decide (cidrs = []) then (inr [], fs)
      else
        let prefix := default (pathlib.stem input_path) prefix in
        if chunk_size =? 0
        then (inl (OtherException "integer division or modulo by zero"), fs)
        else
          let num_chunks :=
            (Z.of_nat (length cidrs) + chunk_size - 1) / chunk_size in
          chunk_loop cidrs output_dir chunk_size prefix dry_run
            (range num_chunks) [] fs
  end.

(** The loop of [main] over the provider files, in the mode
    [--all-providers]: a file is chunked when it holds more entries than
    [size]. *)
Fixpoint chunk_all (chunks_dir : string) (provider_files : list string)
    (size : Z) (dry_run : bool) (fs : filesystem)
  : (exn + unit) * filesystem :=
  match provider_files with
  | [] => (inr (), fs)
  | provider_file :: rest =>
      match read_cidrs fs provider_file with
      | inl e => (inl e, fs)
      | inr cidrs =>
          if size <? Z.of_nat (length cidrs) then
            let output_dir :=
              pathlib.joinpath chunks_dir (pathlib.stem provider_file) in
            let run :=
              chunk_file provider_file output_dir size
                (Some (pathlib.stem provider_file)) dry_run fs in
            match run.1 with
            | inl e => (inl e, run.2)
            | inr _ => chunk_all chunks_dir rest size dry_run run.2
            end
          else chunk_all chunks_dir rest size dry_run fs
      end
  end.

(** [main]: [input] and [output_dir] are the positional arguments, [size],
    [prefix], [dry_run] and [all_providers] the options.  The exit code (0
    when [main] returns), or the exception that escapes, and the file
    system left. *)
Definition main (input output_dir : string) (size : Z)
    (prefix : option string) (dry_run all_providers : bool) (fs : filesystem)
  : (exn + Z) * filesystem :=
  if all_providers then
    let providers_dir := "lists/providers" in
    let chunks_dir := "lists/chunks" in
    if negb (path_exists fs providers_dir) then (inr 1, fs)
    else
      let run :=
        chunk_all chunks_dir
          (merge_sort String.le (glob_txt fs providers_dir)) size dry_run fs in
      match run.1 with
      | inl e => (inl e, run.2)
      | inr _ => (inr 0, run.2)
      end
  else
    if negb (path_exists fs input) then (inr 1, fs)
    else
      let run := chunk_file input output_dir size prefix dry_run fs in
      match run.1 with
      | inl e => (inl e, run.2)
      | inr output_files =>
          if bool_decide (output_files = []) then (inr 1, run.2)
          else (inr 0, run.2)
      end.

End chunk.

(** ** scripts/fetch.py *)

Module fetch.
Import ipaddress.

(** One value of the [PROVIDERS] table. *)
Record provider := { url : string; parser : string; output : string }.

(** A [dict] with string keys, in insertion order. *)
Definition dict (V : Type) : Type := list (string * V).
Definition dict_get {V} (d : dict V) (key : string) : option V :=
  (list_find (λ kv, kv.1 = key) d) ≫= λ r, Some r.2.2.
Definition dict_keys {V} (d : dict V) : list string := d.*1.

Definition PROVIDERS : dict provider := [
  ("aws", {| url := "https://ip-ranges.amazonaws.com/ip-ranges.json";
             parser := "aws_json";
             output := "lists/providers/aws.txt" |});
  ("digitalocean", {| url := "https://www.digitalocean.com/geo/google.csv";
                      parser := "digitalocean_csv";
                      output := "lists/providers/digitalocean.txt" |});
  ("linode", {| url := "https://geoip.linode.com/";
                parser := "linode_text";
                output := "lists/providers/linode.txt" |});
  ("ovh", {| url := "https://www.ovh.com/manager/dedicated/allowerlist.json";
             parser := "ovh_json";
             output := "lists/providers/ovh.txt" |});
  ("tor", {| url := "https://check.torproject.org/exit-addresses";
             parser := "tor_exit";
             output := "lists/providers/tor-exit-nodes.txt" |});
  ("vultr", {| url := "https://www.vultr.com/resources/faq/#downloadableIPRanges";
               parser := "vultr_html";
               output := "lists/providers/vultr.txt" |})
].

(** The world a fetch runs in: the file system and the URLs requested so
    far, oldest first. *)
Record world := { w_fs : filesystem; w_requests : list string }.

(** Computations that read and change the world and may raise. *)
Definition M (A : Type) : Type := world → (exn + A) * world.

Definition ret {A} (a : A) : M A := λ w, (inr a, w).
Definition raise {A} (e : exn) : M A := λ w, (inl e, w).
Definition bind {A B} (m : M A) (k : A → M B) : M B := λ w,
  match m w with
  | (inr a, w') => k a w'
  | (inl e, w') => (inl e, w')
  end.
(** [try: body except ... as e: handler] *)
Definition try_except {A} (body : M A) (handler : exn → M A) : M A := λ w,
  match body w with
  | (inl e, w') => handler e w'
  | r => r
  end.
(** A pure call that may raise. *)
Definition lift {A} (r : exn + A) : M A := λ w, (r, w).

Notation "'let*' x ':=' m 'in' k" := (bind m (λ x, k))
  (at level 10, x pattern, m at level 100, k at level 200).

(** [output_path.parent.mkdir(parents=True, exist_ok=True)] and the
    writes of the [with] block: either may raise. *)
Definition write_file (path text : string) : M unit := λ w,
  let r := write_lines path text (w_fs w) in
  (r.1, {| w_fs := r.2; w_requests := w_requests w |}).

(** *** The parsers *)

Section parsers.
Variable ip_network : ip_network_t.
(** [re.findall(cidr_pattern, content)] of [parse_vultr_html]. *)
Variable findall_cidr_pattern : string → list string.

Definition parse_digitalocean_csv (content : string) : list string :=
  omap (λ line,
    let line := Py.strip line in
    if blank_or_comment line then None
    else
      match Py.split "," line with
      | part0 :: _ =>
          let cidr := Py.strip part0 in
          if Py.contains "/" cidr then Some cidr else None
      | [] => None
      end) (Py.split Py.LF (Py.strip content)).

Definition parse_linode_text (content : string) : list string :=
  omap (λ line,
    let line := Py.strip line in
    if blank_or_comment line then None
    else
      match Py.split "," line with
      | part0 :: _ =>
          let cidr := Py.strip part0 in
          match ip_network cidr with
          | inr network => if version network =? 4 then Some cidr else None
          | inl _ => None
          end
      | [] => None
      end) (Py.split Py.LF (Py.strip content)).

Definition parse_tor_exit (content : string) : list string :=
  omap (λ line,
    if Py.startswith "ExitAddress " line then
      let parts := Py.split_ws line in
      if (2 <=? length parts)%nat then
        match parts !! 1%nat with
        | Some ip => Some (ip ++ "/32")
        | None => None
        end
      else None
    else None) (Py.split Py.LF content).

(** Whether [ipaddress.ip_network(m, strict=False)] returns. *)
Definition is_network (m : string) : bool :=
  match ip_network m with inr _ => true | inl _ => false end.

(** [list(set(cidrs))] comes in an order of the set's choosing. *)
Definition parse_vultr_html (content : string) : list string :=
  let matches := findall_cidr_pattern content in
  let cidrs := filter (λ m, is_network m = true) matches in
  elements (list_to_set cidrs : gset string).
End parsers.

(** The value [json.loads] returns: [None], a [bool], a number (kept as its
    text), a [str], a [list], or a [dict] with its keys in order, each key
    once. *)
#[warnings="-register-all"]
Inductive json :=
  | JNull
  | JBool (b : bool)
  | JNumber (text : string)
  | JString (s : string)
  | JArray (items : list json)
  | JObject (members : list (string * json)).

(** [for net in nets: if isinstance(net, str): cidrs.append(net)] *)
Definition strings_of (nets : list json) : list string :=
  omap (λ net, match net with JString s => Some s | _ => None end) nets.

(** A [TypeError] or an [AttributeError], whose message depends on the
    type of the value at hand. *)
Definition TypeError : exn := OtherException "TypeError".
Definition AttributeError : exn := OtherException "AttributeError".

(** The values that [for x in v] goes through: the items of a list, the
    keys of a dict, the characters of a string; a number, a bool and
    [None] are not iterable. *)
Definition iterate (v : json) : exn + list json :=
  match v with
  | JArray items => inr items
  | JObject members => inr (JString <$> members.*1)
  | JString s => inr ((λ c, JString (String c "")) <$> list_ascii_of_string s)
  | _ => inl TypeError
  end.

(** [if 'ip_prefix' in prefix: cidrs.append(prefix['ip_prefix'])]: the
    value appended, if any.  On a dict the test is on the keys; on a list
    it is on the items and on a string it is a substring test, and the
    lookup that follows raises; on any other value the test raises. *)
Definition ip_prefix_of (prefix : json) : exn + option json :=
  match prefix with
  | JObject members => inr (dict_get members "ip_prefix")
  | JArray items =>
      if existsb (λ item, match item with
                          | JString s => Py.eqs s "ip_prefix"
                          | _ => false
                          end) items
      then inl TypeError else inr None
  | JString s => if Py.in_str "ip_prefix" s then inl TypeError else inr None
  | _ => inl TypeError
  end.

(** The loop of [parse_aws_json]; the first exception ends it. *)
Fixpoint ip_prefixes (prefixes : list json) : exn + list json :=
  match prefixes with
  | [] => inr []
  | prefix :: rest =>
      match ip_prefix_of prefix with
      | inl e => inl e
      | inr found =>
          match ip_prefixes rest with
          | inl e => inl e
          | inr cidrs => inr (option_list found ++ cidrs)%list
          end
      end
  end.

Section json_parsers.
Variable json_loads : string → exn + json.

(** [parse_aws_json]: what is appended is whatever the document holds
    under ['ip_prefix'], a string or not. *)
Definition parse_aws_json (content : string) : exn + list json :=
  match json_loads content with
  | inl e => inl e
  | inr (JObject members) =>
      match iterate (default (JArray []) (dict_get members "prefixes")) with
      | inl e => inl e
      | inr prefixes => ip_prefixes prefixes
      end
  | inr _ => inl AttributeError
  end.

Definition parse_ovh_json (content : string) : exn + list string :=
  match json_loads content with
  | inl e => inl e
  | inr data =>
      inr match data with
          | JObject members =>
              flat_map (λ region_networks,
                match region_networks.2 with
                | JArray networks => strings_of networks
                | _ => []
                end) members
          | JArray nets => strings_of nets
          | _ => []
          end
  end.
End json_parsers.

(** The strings of a list that holds nothing but strings. *)
Definition as_strings (cidrs : list json) : option (list string) :=
  mapM (λ cidr, match cidr with JString s => Some s | _ => None end) cidrs.

Section with_libraries.
Variable ip_network : ip_network_t.
Variable findall_cidr_pattern : string → list string.
Variable json_loads : string → exn + json.
(** [sorted(set(cidrs))] and [f"{cidr}"] on values that are not all
    strings, which only [parse_aws_json] can return: the hashing, the
    comparison and the formatting of numbers, [None], bools, lists and
    dicts stay parameters. *)
Variable sorted_set_other : list json → exn + list json.
Variable str_other : json → string.
(** The transport: what [urlopen(request).read().decode('utf-8')] gives
    for a URL, after the requests made so far. *)
Variable urlopen : list string → string → exn + string.

Definition strings (parse : string → exn + list string) (content : string)
  : exn + list json :=
  match parse content with
  | inr cidrs => inr (JString <$> cidrs)
  | inl e => inl e
  end.

Definition PARSERS : dict (string → exn + list json) := [
  ("aws_json", parse_aws_json json_loads);
  ("digitalocean_csv", strings (λ c, inr (parse_digitalocean_csv c)));
  ("linode_text", strings (λ c, inr (parse_linode_text ip_network c)));
  ("ovh_json", strings (parse_ovh_json json_loads));
  ("tor_exit", strings (λ c, inr (parse_tor_exit c)));
  ("vultr_html",
   strings (λ c, inr (parse_vultr_html ip_network findall_cidr_pattern c)))
].

(** [sorted(set(cidrs))] *)
Definition sorted_set (cidrs : list json) : exn + list json :=
  match as_strings cidrs with
  | Some strs => inr (JString <$> Py.sorted_set (list_to_set strs))
  | None => sorted_set_other cidrs
  end.

(** [f"{cidr}"] *)
Definition format_value (cidr : json) : string :=
  match cidr with
  | JString s => s
  | _ => str_other cidr
  end.

Definition fetch_url (url : string) : M string := λ w,
  (urlopen (w_requests w) url,
   {| w_fs := w_fs w; w_requests := w_requests w ++ [url] |}).

Definition fetch_provider (name : string) (dry_run : bool)
  : M (bool * nat) :=
  match dict_get PROVIDERS name with
  | None => ret (false, 0%nat)
  | Some config =>
      let output_path := output config in
      try_except
        (let* content := fetch_url (url config) in
         let* parser :=
           lift (match dict_get PARSERS (parser config) with
                 | Some p => inr p
                 | None => inl (OtherException (parser config))
                 end) in
         let* cidrs := lift (parser content) in
         if bool_decide (cidrs = []) then ret (false, 0%nat)
         else
           let* cidrs := lift (sorted_set cidrs) in
           let* _ := (if dry_run then ret ()
                      else write_file output_path
                             (render (format_value <$> cidrs))) in
           ret (true, length cidrs))
        (λ e,
           match e with
           | URLError _ => ret (false, 0%nat)
           | JSONDecodeError _ => ret (false, 0%nat)
           | _ => ret (false, 0%nat)
           end)
  end.

(** [for name in providers_to_fetch], threading [success_count] and
    [total_cidrs]. *)
Fixpoint fetch_loop (names : list string) (dry_run : bool)
    (success_count total_cidrs : nat) : M (nat * nat) :=
  match names with
  | [] => ret (success_count, total_cidrs)
  | name :: rest =>
      let* r := fetch_provider name dry_run in
      let '(success, count) := r in
      if success
      then fetch_loop rest dry_run (S success_count) (total_cidrs + count)%nat
      else fetch_loop rest dry_run success_count total_cidrs
  end.

Definition providers_to_fetch (providers : list string) : list string :=
  if bool_decide ("all" ∈ providers) then dict_keys PROVIDERS
  else providers.

(** [main] after [parse_args]: [providers] is [args.providers]; the
    result is the exit code. *)
Definition main (providers : list string) (dry_run list_flag : bool)
  : M Z :=
  if list_flag then ret 0
  else
    let to_fetch := providers_to_fetch providers in
    let* counts := fetch_loop to_fetch dry_run 0 0 in
    ret (if (counts.1 =? length to_fetch)%nat then 0 else 1).

(** *** Vocabulary for the statements *)

(** Running the providers one after the other, each exactly once and each
    in the world its predecessor left, whatever the outcomes: the outcomes
    in order and the final world. *)
Fixpoint run_all (names : list string) (dry_run : bool) (w : world)
  : list (bool * nat) * world :=
  match names with
  | [] => ([], w)
  | name :: rest =>
      let r := fetch_provider name dry_run w in
      let outcome := match r.1 with inr o => o | inl _ => (false, 0%nat) end in
      let rs := run_all rest dry_run r.2 in
      (outcome :: rs.1, rs.2)
  end.

(** The URL a requested name stands for, when it is a provider. *)
Definition url_of (name : string) : option string :=
  url <$> dict_get PROVIDERS name.

End with_libraries.

(** Whether a string holds neither "\n" nor "\r". *)
Fixpoint no_line_break (s : string) : bool :=
  match s with
  | String c r =>
      negb (Ascii.eqb c Py.LF) && negb (Ascii.eqb c Py.CR) && no_line_break r
  | EmptyString => true
  end.

End fetch.

(** * Properties *)

(** ** Strings *)

Section strings.
Import Py.

Lemma eqs_true s t : eqs s t = true ↔ s = t.
Proof. unfold eqs. apply bool_decide_eq_true. Qed.

Lemma eqs_false s t : eqs s t = false ↔ s ≠ t.
Proof. unfold eqs. apply bool_decide_eq_false. Qed.

Lemma lstrip_length s : (String.length (lstrip s) ≤ String.length s)%nat.
Proof. induction s as [|c r IH]; simpl; [lia|]. destruct (isspace c); simpl; lia. Qed.

Lemma lstrip_idem s : lstrip (lstrip s) = lstrip s.
Proof.
  induction s as [|c r IH]; simpl; [done|].
  destruct (isspace c) eqn:Hc; [done|]. simpl. by rewrite Hc.
Qed.

Lemma rstrip_idem s : rstrip (rstrip s) = rstrip s.
Proof.
  induction s as [|c r IH]; simpl; [done|].
  destruct (isspace c && eqs (rstrip r) "") eqn:Hc; [done|].
  simpl. by rewrite IH, Hc.
Qed.

(** Stripping the tail leaves a stripped head in place. *)
Lemma lstrip_rstrip t : lstrip t = t → lstrip (rstrip t) = rstrip t.
Proof.
  destruct t as [|c r]; simpl; [done|].
  destruct (isspace c) eqn:Hc.
  - intros Heq. pose proof (lstrip_length r) as Hlen.
    rewrite Heq in Hlen. simpl in Hlen. lia.
  - intros _. simpl. by rewrite Hc.
Qed.

Lemma strip_idem s : strip (strip s) = strip s.
Proof.
  unfold strip.
  rewrite (lstrip_rstrip (lstrip s)) by apply lstrip_idem.
  apply rstrip_idem.
Qed.

Lemma sorted_set_Sorted (s : gset string) : Sorted String.le (sorted_set s).
Proof. apply (Sorted_merge_sort String.le). Qed.

Lemma sorted_set_Permutation (s : gset string) : sorted_set s ≡ₚ elements s.
Proof. apply (merge_sort_Permutation String.le). Qed.

Lemma sorted_set_NoDup (s : gset string) : NoDup (sorted_set s).
Proof. rewrite sorted_set_Permutation. apply NoDup_elements. Qed.

Lemma elem_of_sorted_set (s : gset string) x : x ∈ sorted_set s ↔ x ∈ s.
Proof. rewrite sorted_set_Permutation. apply elem_of_elements. Qed.

End strings.

(** How often [x] occurs in [l]. *)
Definition occurrences (x : string) (l : list string) : nat :=
  length (filter (λ y, y = x) l).


(** ** Paths *)

Section path_facts.
Import Py pathlib.

(** A part as [pathlib] keeps them. *)
Definition plain (part : string) : Prop :=
  part ≠ "" ∧ part ≠ "." ∧ contains "/" part = false.

(** A path as [Path] makes them. *)
Definition normal (path : PurePath) : Prop :=
  (root path = "" ∨ root path = "/" ∨ root path = "//") ∧
  Forall plain (parts path).

Lemma split_no_sep sep s :
  Forall (λ part, contains sep part = false) (split sep s).
Proof.
  induction s as [|c r IH]; [by repeat constructor|]. simpl.
  destruct (Ascii.eqb c sep) eqn:Hc; [by constructor|].
  destruct (split sep r) as [|w ws]; simpl.
  - repeat constructor. simpl. by rewrite Hc.
  - apply Forall_cons in IH as [Hw Hws]. constructor; [|done].
    simpl. by rewrite Hc, Hw.
Qed.

Lemma splitroot_root part :
  (splitroot part).1 = "" ∨ (splitroot part).1 = "/"
  ∨ (splitroot part).1 = "//".
Proof.
  unfold splitroot. destruct part as [|c r]; [by left|].
  destruct (Ascii.eqb c "/") eqn:Hc.
  - apply Ascii.eqb_eq in Hc as ->.
    destruct (_ =? _)%nat; [by right; right|by right; left].
  - left. destruct c as [[] [] [] [] [] [] [] []]; try done.
Qed.

Lemma Path_normal s : normal (Path s).
Proof.
  unfold Path. pose proof (splitroot_root s) as Hroot.
  destruct (splitroot s) as [rt rel]. split; [done|]. simpl.
  apply Forall_forall. intros part [[Hne Hdot] Hin]%list_elem_of_filter.
  split; [done|]. split; [done|].
  pose proof (split_no_sep "/" rel) as Hsep.
  rewrite Forall_forall in Hsep. by apply Hsep.
Qed.

Lemma truediv_normal path key : normal path → normal (truediv path key).
Proof.
  intros [Hroot Hparts]. unfold truediv.
  destruct (Path_normal key) as [Hroot' Hparts'].
  destruct (eqs (root (Path key)) ""); [|done].
  split; [done|]. simpl. by apply Forall_app.
Qed.

Lemma parent_normal path : normal path → normal (parent path).
Proof.
  intros [Hroot Hparts]. split; [done|]. simpl.
  destruct (parts path) as [|part rest] using rev_ind; [done|].
  rewrite removelast_last. by apply Forall_app in Hparts as [? _].
Qed.

Lemma split_cons_sep sep r : split sep (String sep r) = "" :: split sep r.
Proof. simpl. by rewrite Ascii.eqb_refl. Qed.

Lemma split_cons_other sep c r :
  Ascii.eqb c sep = false →
  split sep (String c r) =
    match split sep r with
    | w :: ws => String c w :: ws
    | [] => [String c ""]
    end.
Proof. intros Hc. simpl. by rewrite Hc. Qed.

Lemma join_cons_cons sep part next rest :
  join sep (part :: next :: rest) = part ++ sep ++ join sep (next :: rest).
Proof. reflexivity. Qed.

(** Splitting what [join] put together gives the parts back. *)
Lemma split_join sep part rest :
  Forall (λ part, contains sep part = false) (part :: rest) →
  split sep (join (String sep "") (part :: rest)) = part :: rest.
Proof.
  revert part. induction rest as [|next rest IH]; intros part Hparts.
  - apply Forall_cons in Hparts as [Hpart _]. simpl.
    induction part as [|c r IHr]; [done|]. simpl in *.
    apply orb_false_elim in Hpart as [Hc Hr]. rewrite Hc.
    by rewrite (IHr Hr).
  - apply Forall_cons in Hparts as [Hpart Hrest].
    rewrite join_cons_cons. specialize (IH next Hrest).
    induction part as [|c r IHr].
    + change ("" ++ String sep "" ++ join (String sep "") (next :: rest))
        with (String sep (join (String sep "") (next :: rest))).
      by rewrite split_cons_sep, IH.
    + simpl in Hpart. apply orb_false_elim in Hpart as [Hc Hr].
      change (String c r ++ String sep "" ++ join (String sep "") (next :: rest))
        with (String c (r ++ String sep "" ++ join (String sep "") (next :: rest))).
      rewrite split_cons_other by done. by rewrite (IHr Hr).
Qed.

Lemma plain_head part : plain part → ∃ c r, part = String c r ∧ c ≠ "/"%char.
Proof.
  intros (Hne & _ & Hsep). destruct part as [|c r]; [done|].
  exists c, r. split; [done|]. intros ->. simpl in Hsep. done.
Qed.

Lemma filter_plain l :
  Forall plain l → filter (λ x, x ≠ "" ∧ x ≠ ".") l = l.
Proof.
  induction 1 as [|x l (Hne & Hdot & _) _ IH]; [done|].
  rewrite filter_cons_True by done. by rewrite IH.
Qed.

(** The parts of a relative text made of plain parts. *)
Lemma split_join_plain l :
  Forall plain l →
  filter (λ x, x ≠ "" ∧ x ≠ ".") (split "/" (join "/" l)) = l.
Proof.
  intros Hl. destruct l as [|part rest]; [done|].
  rewrite split_join.
  - by apply filter_plain.
  - eapply Forall_impl; [exact Hl|]. by intros x (_ & _ & ?).
Qed.

Lemma join_head part rest :
  plain part →
  ∃ c r, join "/" (part :: rest) = String c r ∧ c ≠ "/"%char.
Proof.
  intros (c & r & -> & Hc)%plain_head. destruct rest as [|next rest].
  - by exists c, r.
  - eexists c, _. split; [|done]. reflexivity.
Qed.

Lemma splitroot_relative s :
  (∀ c r, s = String c r → c ≠ "/"%char) → splitroot s = ("", s).
Proof.
  intros Hs. unfold splitroot. destruct s as [|c r]; [done|].
  specialize (Hs c r eq_refl).
  destruct c as [[] [] [] [] [] [] [] []]; done.
Qed.

Lemma lstrip_sep_relative s :
  (∀ c r, s = String c r → c ≠ "/"%char) → lstrip_sep s = s.
Proof.
  intros Hs. destruct s as [|c r]; [done|].
  specialize (Hs c r eq_refl). simpl.
  destruct c as [[] [] [] [] [] [] [] []]; done.
Qed.

Lemma join_relative l :
  Forall plain l → ∀ c r, join "/" l = String c r → c ≠ "/"%char.
Proof.
  intros Hl c r Heq. destruct l as [|part rest]; [done|].
  apply Forall_cons in Hl as [Hpart _].
  destruct (join_head part rest Hpart) as (c' & r' & Heq' & Hc).
  rewrite Heq' in Heq. by injection Heq as <- <-.
Qed.

(** [Path(str(path))] is [path]. *)
Lemma Path_str path : normal path → Path (str path) = path.
Proof.
  destruct path as [rt ps]. intros [Hroot Hparts]. simpl in *.
  pose proof (join_relative ps Hparts) as Hhead.
  pose proof (lstrip_sep_relative _ Hhead) as Hstrip.
  unfold str. simpl.
  destruct Hroot as [->| [->| ->]].
  - simpl. case_bool_decide as Hnil.
    + subst. reflexivity.
    + unfold Path. change ("" ++ join "/" ps) with (join "/" ps).
      rewrite splitroot_relative by done. by rewrite split_join_plain.
  - change (eqs "/" "") with false. simpl andb. cbv iota.
    unfold Path, splitroot.
    change ("/" ++ join "/" ps) with (String "/" (join "/" ps)).
    cbn [lstrip_sep]. rewrite Hstrip.
    replace (String.length (String "/" (join "/" ps))
             - String.length (join "/" ps))%nat with 1%nat
      by (simpl; lia).
    simpl Nat.eqb. cbv iota. by rewrite split_join_plain.
  - change (eqs "//" "") with false. simpl andb. cbv iota.
    unfold Path, splitroot.
    change ("//" ++ join "/" ps) with (String "/" (String "/" (join "/" ps))).
    cbn [lstrip_sep]. rewrite Hstrip.
    replace (String.length (String "/" (String "/" (join "/" ps)))
             - String.length (join "/" ps))%nat with 2%nat
      by (simpl; lia).
    simpl Nat.eqb. cbv iota. by rewrite split_join_plain.
Qed.

Lemma Path_joinpath dir name :
  Path (joinpath dir name) = truediv (Path dir) name.
Proof. apply Path_str, truediv_normal, Path_normal. Qed.

Lemma Path_Path s : Path (str (Path s)) = Path s.
Proof. apply Path_str, Path_normal. Qed.

End path_facts.

(** ** The file system *)

Section filesystem_facts.
Import Py pathlib.

(** [fs'] has the settings of [fs] and keeps its directories. *)
Record keeps_dirs (fs fs' : filesystem) : Prop := {
  kd_cwd : fs_cwd fs' = fs_cwd fs;
  kd_mkdir_error : fs_mkdir_error fs' = fs_mkdir_error fs;
  kd_write_error : fs_write_error fs' = fs_write_error fs;
  kd_dirs : ∀ loc, node_at fs loc = Some Dir → node_at fs' loc = Some Dir;
}.

(** [fs'] has the settings of [fs] and keeps its files and directories. *)
Record keeps_nodes (fs fs' : filesystem) : Prop := {
  kn_cwd : fs_cwd fs' = fs_cwd fs;
  kn_mkdir_error : fs_mkdir_error fs' = fs_mkdir_error fs;
  kn_write_error : fs_write_error fs' = fs_write_error fs;
  kn_nodes : ∀ loc n, node_at fs loc = Some n → node_at fs' loc = Some n;
}.

Lemma keeps_nodes_dirs fs fs' : keeps_nodes fs fs' → keeps_dirs fs fs'.
Proof. intros [? ? ? Hn]. split; try done. intros loc. apply Hn. Qed.

Lemma keeps_dirs_refl fs : keeps_dirs fs fs.
Proof. by split. Qed.

Lemma keeps_nodes_refl fs : keeps_nodes fs fs.
Proof. by split. Qed.

Lemma keeps_dirs_trans fs1 fs2 fs3 :
  keeps_dirs fs1 fs2 → keeps_dirs fs2 fs3 → keeps_dirs fs1 fs3.
Proof.
  intros [? ? ? H12] [? ? ? H23]. split; try congruence.
  intros loc Hloc. by apply H23, H12.
Qed.

Lemma keeps_nodes_trans fs1 fs2 fs3 :
  keeps_nodes fs1 fs2 → keeps_nodes fs2 fs3 → keeps_nodes fs1 fs3.
Proof.
  intros [? ? ? H12] [? ? ? H23]. split; try congruence.
  intros loc n Hloc. by apply H23, H12.
Qed.

Lemma step_dir fs loc c loc' :
  step fs loc c = inr loc' →
  node_at fs loc = Some Dir ∧ loc' = (if eqs c ".." then tail loc else c :: loc).
Proof.
  unfold step. destruct (node_at fs loc) as [[text|]|]; [done| |done].
  by intros [= <-].
Qed.

Lemma step_keeps fs fs' loc c loc' :
  keeps_dirs fs fs' → step fs loc c = inr loc' → step fs' loc c = inr loc'.
Proof.
  intros Hk [Hdir ->]%step_dir. unfold step.
  by rewrite (kd_dirs _ _ Hk loc Hdir).
Qed.

Lemma walk_keeps fs fs' loc parts loc' :
  keeps_dirs fs fs' → walk fs loc parts = inr loc' →
  walk fs' loc parts = inr loc'.
Proof.
  intros Hk. revert loc. induction parts as [|c rest IH]; intros loc; [done|].
  simpl. destruct (step fs loc c) as [e|next] eqn:Hstep; [done|].
  rewrite (step_keeps _ _ _ _ _ Hk Hstep). apply IH.
Qed.

Lemma resolve_keeps fs fs' path loc :
  keeps_dirs fs fs' → resolve fs path = inr loc → resolve fs' path = inr loc.
Proof.
  intros Hk. unfold resolve. rewrite (kd_cwd _ _ Hk). by apply walk_keeps.
Qed.

Lemma walk_app fs loc parts parts' :
  walk fs loc (parts ++ parts') =
    match walk fs loc parts with
    | inr loc' => walk fs loc' parts'
    | inl e => inl e
    end.
Proof.
  revert loc. induction parts as [|c rest IH]; intros loc; [done|].
  simpl. destruct (step fs loc c); [done|]. apply IH.
Qed.

(** The location of an entry that is not [..]: the entry, in the
    location of its directory. *)
Lemma resolve_entry fs rt parts name loc :
  name ≠ ".." →
  resolve fs {| root := rt; parts := parts ++ [name] |} = inr loc →
  ∃ dir, resolve fs {| root := rt; parts := parts |} = inr dir ∧
         node_at fs dir = Some Dir ∧ loc = name :: dir.
Proof.
  intros Hname. unfold resolve. simpl. rewrite walk_app.
  destruct (walk fs _ parts) as [e|dir]; [done|]. simpl.
  destruct (step fs dir name) as [e|loc'] eqn:Hstep; [done|].
  intros [= <-]. apply step_dir in Hstep as [Hdir ->].
  exists dir. split; [done|]. split; [done|].
  by rewrite (proj2 (eqs_false name "..") Hname).
Qed.

Lemma node_at_set_node fs loc n loc' :
  loc ≠ [] →
  node_at (set_node loc n fs) loc' =
    if decide (loc' = loc) then Some n else node_at fs loc'.
Proof.
  intros Hloc. unfold node_at, set_node. simpl.
  destruct loc' as [|c l]; case_decide; subst; try done.
  - by rewrite lookup_insert_eq.
  - by rewrite lookup_insert_ne.
Qed.

Lemma node_at_None fs loc : node_at fs loc = None → loc ≠ [].
Proof. by intros Hnone ->. Qed.

(** Putting a directory where nothing was keeps every node. *)
Lemma set_node_new fs loc :
  node_at fs loc = None → keeps_nodes fs (set_node loc Dir fs).
Proof.
  intros Hnone. split; try done. intros loc' n Hloc'.
  rewrite node_at_set_node by by eapply node_at_None.
  case_decide; [|done]. subst. by rewrite Hnone in Hloc'.
Qed.

(** Putting a file where no directory was keeps the directories. *)
Lemma set_node_file fs loc text :
  loc ≠ [] → node_at fs loc ≠ Some Dir →
  keeps_dirs fs (set_node loc (File text) fs).
Proof.
  intros Hloc Hnode. split; try done. intros loc' Hloc'.
  rewrite node_at_set_node by done. case_decide; [|done]. by subst.
Qed.

Lemma os_mkdir_inr path fs fs' :
  os_mkdir path fs = inr fs' →
  ∃ loc, resolve fs path = inr loc ∧ node_at fs loc = None ∧
         fs' = set_node loc Dir fs.
Proof.
  unfold os_mkdir. destruct (parts path); [done|].
  destruct (resolve fs path) as [e|loc]; [done|].
  destruct (node_at fs loc) eqn:Hnode; [done|].
  destruct (fs_mkdir_error fs loc); [done|].
  intros [= <-]. by exists loc.
Qed.

(** What [is_dir] says of a path. *)
Lemma is_dir_resolve fs path :
  normal path →
  is_dir fs (str path) = true ↔
  ∃ loc, resolve fs path = inr loc ∧ node_at fs loc = Some Dir.
Proof.
  intros Hnormal. unfold is_dir, stat. rewrite Path_str by done. split.
  - destruct (resolve fs path) as [e|loc]; [done|].
    destruct (node_at fs loc) as [[text|]|] eqn:Hnode; [done| |done].
    intros _. by exists loc.
  - intros (loc & -> & ->). done.
Qed.

(** A directory that [mkdir] made or found is there afterwards, and
    every node that was there before. *)
Lemma os_mkdir_made path fs fs' :
  os_mkdir path fs = inr fs' →
  keeps_nodes fs fs' ∧
  ∃ loc, resolve fs' path = inr loc ∧ node_at fs' loc = Some Dir.
Proof.
  intros (loc & Hres & Hnone & ->)%os_mkdir_inr.
  pose proof (set_node_new fs loc Hnone) as Hkeeps.
  split; [done|]. exists loc. split.
  - eapply resolve_keeps; [|done]. by apply keeps_nodes_dirs.
  - rewrite node_at_set_node by by eapply node_at_None.
    by rewrite decide_True.
Qed.

(** The handler [except OSError: if not self.is_dir(): raise]. *)
Lemma mkdir_found path fs (e : exn) r fs' :
  normal path →
  (if is_dir fs (str path) then (inr (), fs) else (inl e, fs)) = (r, fs') →
  keeps_nodes fs fs' ∧
  (r = inr () →
   ∃ loc, resolve fs' path = inr loc ∧ node_at fs' loc = Some Dir).
Proof.
  intros Hnormal. destruct (is_dir fs (str path)) eqn:Hdir; intros [= <- <-].
  - split; [apply keeps_nodes_refl|]. intros _. by apply is_dir_resolve.
  - split; [apply keeps_nodes_refl|done].
Qed.

Lemma mkdir_exist_ok_made path fs r fs' :
  normal path →
  mkdir_exist_ok path fs = (r, fs') →
  keeps_nodes fs fs' ∧
  (r = inr () →
   ∃ loc, resolve fs' path = inr loc ∧ node_at fs' loc = Some Dir).
Proof.
  intros Hnormal. unfold mkdir_exist_ok.
  destruct (os_mkdir path fs) as [e|fs1] eqn:Hmk.
  - destruct e; try by apply mkdir_found.
    intros [= <- <-]. split; [apply keeps_nodes_refl|done].
  - intros [= <- <-]. destruct (os_mkdir_made _ _ _ Hmk) as [Hk Hmade].
    by split.
Qed.

Lemma mkdir_parents_from_made rt rev_parts fs r fs' :
  normal {| root := rt; parts := rev rev_parts |} →
  mkdir_parents_from rt rev_parts fs = (r, fs') →
  keeps_nodes fs fs' ∧
  (r = inr () →
   ∃ loc, resolve fs' {| root := rt; parts := rev rev_parts |} = inr loc ∧
          node_at fs' loc = Some Dir).
Proof.
  revert fs r fs'. induction rev_parts as [|part rev_parent IH];
    intros fs r fs' Hnormal; cbn [mkdir_parents_from].
  - destruct (os_mkdir {| root := rt; parts := rev [] |} fs)
      as [e|fs1] eqn:Hmk.
    + destruct e; try by apply mkdir_found.
      intros [= <- <-]. split; [apply keeps_nodes_refl|done].
    + intros [= <- <-]. destruct (os_mkdir_made _ _ _ Hmk) as [Hk Hmade].
      by split.
  - destruct (os_mkdir {| root := rt; parts := rev (part :: rev_parent) |} fs)
      as [e|fs1] eqn:Hmk.
    + destruct e; try by apply mkdir_found.
      assert (normal {| root := rt; parts := rev rev_parent |}) as Hparent.
      { destruct Hnormal as [Hroot Hparts]. split; [done|]. simpl in *.
        by apply Forall_app in Hparts as [? _]. }
      destruct (mkdir_parents_from rt rev_parent fs) as [[e|[]] fs2] eqn:Hrec.
      * intros [= <- <-]. destruct (IH _ _ _ Hparent Hrec) as [Hk _].
        by split.
      * intros Hlast. destruct (IH _ _ _ Hparent Hrec) as [Hk _].
        destruct (mkdir_exist_ok_made _ _ _ _ Hnormal Hlast) as [Hk' Hmade].
        split; [by eapply keeps_nodes_trans|done].
    + intros [= <- <-]. destruct (os_mkdir_made _ _ _ Hmk) as [Hk Hmade].
      by split.
Qed.

Lemma mkdir_parents_made path fs r fs' :
  normal path →
  mkdir_parents path fs = (r, fs') →
  keeps_nodes fs fs' ∧
  (r = inr () →
   ∃ loc, resolve fs' path = inr loc ∧ node_at fs' loc = Some Dir).
Proof.
  intros Hnormal. unfold mkdir_parents. destruct path as [rt ps].
  simpl in *. intros Hrun.
  pose proof (mkdir_parents_from_made rt (rev ps) fs r fs') as Hmade.
  rewrite rev_involutive in Hmade. by apply Hmade.
Qed.

(** What a write changes: nothing, or the node at the location of its
    path, which was no directory. *)
Lemma write_text_inv path text fs r fs' :
  write_text path text fs = (r, fs') →
  fs' = fs ∧ r ≠ inr () ∨
  ∃ loc rest,
    resolve fs (Path path) = inr loc ∧ loc ≠ [] ∧
    node_at fs loc ≠ Some Dir ∧
    fs' = set_node loc (File rest) fs ∧ (r = inr () → rest = text).
Proof.
  unfold write_text. destruct (parts (Path path)) eqn:Hparts.
  { intros [= <- <-]. by left. }
  destruct (resolve fs (Path path)) as [e|loc] eqn:Hres.
  { intros [= <- <-]. by left. }
  assert (node_at fs loc ≠ Some Dir →
          match fs_write_error fs loc text with
          | Some (e, Some rest) => (inl e, set_node loc (File rest) fs)
          | Some (e, None) => (inl e, fs)
          | None => (inr (), set_node loc (File text) fs)
          end = (r, fs') →
          fs' = fs ∧ r ≠ inr () ∨
          ∃ loc0 rest,
            (inr loc : exn + list string) = inr loc0 ∧ loc0 ≠ [] ∧
            node_at fs loc0 ≠ Some Dir ∧
            fs' = set_node loc0 (File rest) fs ∧ (r = inr () → rest = text))
    as Hwrite.
  { intros Hnode.
    assert (loc ≠ []) as Hloc by (intros ->; by apply Hnode).
    destruct (fs_write_error fs loc text) as [[e [rest|]]|];
      intros [= <- <-].
    - right. exists loc, rest. by repeat split.
    - by left.
    - right. exists loc, text. by repeat split. }
  destruct (node_at fs loc) as [[old|]|] eqn:Hnode.
  - by apply Hwrite.
  - intros [= <- <-]. by left.
  - by apply Hwrite.
Qed.

Lemma write_text_keeps path text fs r fs' :
  write_text path text fs = (r, fs') → keeps_dirs fs fs'.
Proof.
  intros [[-> _] | (loc & rest & _ & Hloc & Hnode & -> & _)]%write_text_inv.
  - apply keeps_dirs_refl.
  - by apply set_node_file.
Qed.

(** After a write that succeeded the path reads as the text written. *)
Lemma write_text_read path text fs fs' :
  write_text path text fs = (inr (), fs') → read_text fs' path = inr text.
Proof.
  intros Hwrite. pose proof (write_text_keeps _ _ _ _ _ Hwrite) as Hk.
  apply write_text_inv in Hwrite
    as [[_ ?] | (loc & rest & Hres & Hloc & Hnode & -> & Hrest)]; [done|].
  rewrite (Hrest eq_refl) in *. unfold read_text.
  rewrite (resolve_keeps _ _ _ _ Hk Hres).
  rewrite node_at_set_node by done. by rewrite decide_True.
Qed.

(** A write leaves every other location as it was. *)
Lemma write_text_other path text fs r fs' loc' :
  write_text path text fs = (r, fs') →
  resolve fs (Path path) ≠ inr loc' →
  node_at fs' loc' = node_at fs loc'.
Proof.
  intros [[-> _] | (loc & rest & Hres & Hloc & _ & -> & _)]%write_text_inv;
    [done|].
  intros Hother. rewrite node_at_set_node by done.
  case_decide; [|done]. subst. by rewrite Hres in Hother.
Qed.

Lemma write_lines_keeps output_path text fs r fs' :
  write_lines output_path text fs = (r, fs') → keeps_dirs fs fs'.
Proof.
  unfold write_lines.
  destruct (mkdir_parents _ fs) as [[e|[]] fs1] eqn:Hmk.
  - intros [= <- <-].
    apply mkdir_parents_made in Hmk as [Hk _];
      [by apply keeps_nodes_dirs|apply parent_normal, Path_normal].
  - intros Hwrite.
    apply mkdir_parents_made in Hmk as [Hk _];
      [|apply parent_normal, Path_normal].
    eapply keeps_dirs_trans; [by apply keeps_nodes_dirs|].
    by eapply write_text_keeps.
Qed.

(** After [write_lines] succeeded the path reads as the text written. *)
Lemma write_lines_read output_path text fs fs' :
  write_lines output_path text fs = (inr (), fs') →
  read_text fs' output_path = inr text.
Proof.
  unfold write_lines.
  destruct (mkdir_parents _ fs) as [[e|[]] fs1]; [done|].
  apply write_text_read.
Qed.

(** What reads as a file. *)
Lemma read_text_inr fs path text :
  read_text fs path = inr text ↔
  ∃ loc, resolve fs (Path path) = inr loc ∧ node_at fs loc = Some (File text).
Proof.
  unfold read_text. split.
  - destruct (resolve fs (Path path)) as [e|loc]; [done|].
    destruct (node_at fs loc) as [[old|]|] eqn:Hnode; [|done|done].
    intros [= <-]. by exists loc.
  - intros (loc & -> & ->). done.
Qed.

Lemma is_file_read_text fs path :
  is_file fs path = true ↔ ∃ text, read_text fs path = inr text.
Proof.
  unfold is_file, stat, read_text.
  destruct (resolve fs (Path path)) as [e|loc].
  { split; [done|]. by intros [? ?]. }
  destruct (node_at fs loc) as [[text|]|].
  - split; [by exists text|done].
  - split; [done|]. by intros [? ?].
  - split; [done|]. by intros [? ?].
Qed.

(** A path [path] and a path [other] that name two entries of one
    directory, neither of them [..]. *)
Definition siblings (path other : string) : Prop :=
  ∃ dir name name',
    Path path = child dir name ∧ Path other = child dir name' ∧
    name ≠ name' ∧ name ≠ ".." ∧ name' ≠ "..".

(** [write_lines], whether it succeeds or not, leaves the files beside
    the one it writes as they were. *)
Lemma write_lines_sibling output_path text fs r fs' other old :
  write_lines output_path text fs = (r, fs') →
  siblings output_path other →
  read_text fs other = inr old →
  read_text fs' other = inr old.
Proof.
  intros Hrun (dir & name & name' & Hpath & Hother & Hne & Hname & Hname').
  pose proof (write_lines_keeps _ _ _ _ _ Hrun) as Hkeeps.
  rewrite !read_text_inr. intros (loc & Hres & Hnode).
  exists loc. split; [by eapply resolve_keeps|].
  revert Hrun. unfold write_lines.
  destruct (mkdir_parents _ fs) as [[e|[]] fs1] eqn:Hmk.
  - intros [= <- <-].
    apply mkdir_parents_made in Hmk as [Hk _];
      [|apply parent_normal, Path_normal].
    by apply (kn_nodes _ _ Hk).
  - intros Hwrite.
    apply mkdir_parents_made in Hmk as [Hk _];
      [|apply parent_normal, Path_normal].
    rewrite (write_text_other _ _ _ _ _ loc Hwrite).
    + by apply (kn_nodes _ _ Hk).
    + rewrite Hpath. intros Hsame.
      destruct dir as [rt ps]. unfold child in *. simpl in *.
      apply resolve_entry in Hsame as (d & Hd & _ & ->); [|done].
      rewrite Hother in Hres.
      apply resolve_entry in Hres as (d' & Hd' & _ & [= ? ?]); [|done].
      done.
Qed.

End filesystem_facts.
(** *** What a write may change *)

#[global] Instance node_eq_dec : EqDecision node.
Proof. solve_decision. Defined.

Section footprint.
Import Py pathlib.

(** Where the parts lead from [loc], whatever is there. *)
Definition lexical (loc : list string) (parts : list string) : list string :=
  foldl (λ loc c, if eqs c ".." then tail loc else c :: loc) loc parts.

(** Where the lexical ancestors of [path], and [path] itself, lead. *)
Definition touched (fs : filesystem) (path : PurePath) (loc : list string)
  : Prop :=
  ∃ k, (1 ≤ k ≤ length (parts path))%nat ∧
       loc = lexical (if eqs (root path) "" then fs_cwd fs else [])
               (take k (parts path)).

Lemma walk_lexical fs loc parts loc' :
  walk fs loc parts = inr loc' → loc' = lexical loc parts.
Proof.
  revert loc. induction parts as [|c rest IH]; intros loc.
  - by intros [= <-].
  - simpl. destruct (step fs loc c) as [e|next] eqn:Hstep; [done|].
    apply step_dir in Hstep as [_ ->]. apply IH.
Qed.

Lemma resolve_lexical fs path loc :
  resolve fs path = inr loc →
  loc = lexical (if eqs (root path) "" then fs_cwd fs else []) (parts path).
Proof. apply walk_lexical. Qed.

Lemma os_mkdir_touched path fs fs' loc :
  os_mkdir path fs = inr fs' →
  node_at fs' loc ≠ node_at fs loc →
  touched fs path loc.
Proof.
  intros Hmk Hloc.
  assert (parts path ≠ []) as Hparts.
  { unfold os_mkdir in Hmk. by destruct (parts path). }
  apply os_mkdir_inr in Hmk as (loc0 & Hres & Hnone & ->).
  rewrite node_at_set_node in Hloc by by eapply node_at_None.
  case_decide; [|done]. subst loc0.
  exists (length (parts path)). split.
  - destruct (parts path); [done|]. simpl. lia.
  - rewrite firstn_all. by apply resolve_lexical.
Qed.

Lemma mkdir_exist_ok_touched path fs r fs' loc :
  mkdir_exist_ok path fs = (r, fs') →
  node_at fs' loc ≠ node_at fs loc →
  touched fs path loc.
Proof.
  unfold mkdir_exist_ok. destruct (os_mkdir path fs) as [e|fs1] eqn:Hmk.
  - assert ((if is_dir fs (str path) then (inr (), fs) else (inl e, fs))
            = (r, fs') → fs' = fs) as Hsame.
    { by destruct (is_dir fs (str path)); intros [= <- <-]. }
    destruct e; try (intros ->%Hsame; done). by intros [= <- <-].
  - intros [= <- <-]. by apply os_mkdir_touched.
Qed.

Lemma mkdir_parents_from_touched rt rev_parts fs r fs' loc :
  normal {| root := rt; parts := rev rev_parts |} →
  mkdir_parents_from rt rev_parts fs = (r, fs') →
  node_at fs' loc ≠ node_at fs loc →
  touched fs {| root := rt; parts := rev rev_parts |} loc.
Proof.
  revert fs r fs'. induction rev_parts as [|part rev_parent IH];
    intros fs r fs' Hnormal; cbn [mkdir_parents_from].
  - destruct (os_mkdir {| root := rt; parts := rev [] |} fs)
      as [e|fs1] eqn:Hmk.
    + assert ((if is_dir fs (str {| root := rt; parts := rev [] |})
               then (inr (), fs) else (inl e, fs)) = (r, fs') → fs' = fs)
        as Hsame.
      { by destruct (is_dir fs _); intros [= <- <-]. }
      destruct e; try (intros ->%Hsame; done). by intros [= <- <-].
    + intros [= <- <-]. by apply os_mkdir_touched.
  - destruct (os_mkdir {| root := rt; parts := rev (part :: rev_parent) |} fs)
      as [e|fs1] eqn:Hmk.
    + assert ((if is_dir fs (str {| root := rt;
                                    parts := rev (part :: rev_parent) |})
               then (inr (), fs) else (inl e, fs)) = (r, fs') → fs' = fs)
        as Hsame.
      { by destruct (is_dir fs _); intros [= <- <-]. }
      destruct e; try (intros ->%Hsame; done).
      assert (normal {| root := rt; parts := rev rev_parent |}) as Hparent.
      { destruct Hnormal as [Hroot Hparts]. split; [done|]. simpl in *.
        by apply Forall_app in Hparts as [? _]. }
      destruct (mkdir_parents_from rt rev_parent fs) as [[e|[]] fs2] eqn:Hrec.
      * intros [= <- <-] Hloc.
        destruct (IH _ _ _ Hparent Hrec Hloc) as (k & Hk & ->).
        simpl in Hk. exists k. simpl. rewrite length_app. simpl.
        split; [lia|]. by rewrite take_app_le by (rewrite length_rev in *; lia).
      * intros Hlast Hloc.
        destruct (decide (node_at fs2 loc = node_at fs loc)) as [Hsame2|Hdiff].
        -- rewrite <-Hsame2 in Hloc.
           destruct (mkdir_exist_ok_touched _ _ _ _ _ Hlast Hloc)
             as (k & Hk & ->).
           exists k. split; [done|].
           destruct (mkdir_parents_from_made _ _ _ _ _ Hparent Hrec)
             as [Hkeeps _].
           simpl. by rewrite (kn_cwd _ _ Hkeeps).
        -- destruct (IH _ _ _ Hparent Hrec Hdiff) as (k & Hk & ->).
           simpl in Hk. exists k. simpl. rewrite length_app. simpl.
           split; [lia|].
           by rewrite take_app_le by (rewrite length_rev in *; lia).
    + intros [= <- <-]. by apply os_mkdir_touched.
Qed.

Lemma take_removelast {A} k (l : list A) :
  (k ≤ length (removelast l))%nat →
  take k (removelast l) = take k l ∧ (k ≤ length l)%nat.
Proof.
  destruct l as [|c l _] using rev_ind; [done|].
  rewrite removelast_last, length_app. simpl. intros Hk.
  split; [|lia]. by rewrite take_app_le by lia.
Qed.

Lemma touched_cwd fs fs' path loc :
  fs_cwd fs' = fs_cwd fs → touched fs' path loc → touched fs path loc.
Proof. intros Hcwd (k & Hk & ->). exists k. by rewrite Hcwd. Qed.

(** [write_lines] changes nothing but where its path and the ancestors of
    its path lead. *)
Lemma write_lines_touched output_path text fs r fs' loc :
  write_lines output_path text fs = (r, fs') →
  node_at fs' loc ≠ node_at fs loc →
  touched fs (Path output_path) loc.
Proof.
  unfold write_lines.
  pose proof (parent_normal _ (Path_normal output_path)) as Hnormal.
  assert (∀ fs1 r1 loc,
            mkdir_parents (parent (Path output_path)) fs = (r1, fs1) →
            node_at fs1 loc ≠ node_at fs loc →
            touched fs (Path output_path) loc) as Hmkdir.
  { intros fs1 r1 loc1 Hmk Hloc. unfold mkdir_parents in Hmk.
    pose proof (mkdir_parents_from_touched
                  (root (parent (Path output_path)))
                  (rev (parts (parent (Path output_path)))) fs r1 fs1 loc1)
      as Htouched.
    rewrite rev_involutive in Htouched.
    destruct (parent (Path output_path)) as [rt ps] eqn:Hparent.
    destruct (Htouched Hnormal Hmk Hloc) as (k & Hk & ->).
    unfold parent in Hparent. injection Hparent as <- <-. simpl in *.
    destruct (take_removelast k (parts (Path output_path))) as [Htake Hle];
      [lia|].
    exists k. split; [lia|]. by rewrite Htake. }
  destruct (mkdir_parents _ fs) as [[e|[]] fs1] eqn:Hmk.
  - intros [= <- <-]. by eapply Hmkdir.
  - intros Hwrite Hloc.
    destruct (decide (node_at fs1 loc = node_at fs loc)) as [Hsame|Hdiff];
      [|by eapply Hmkdir].
    rewrite <-Hsame in Hloc.
    apply mkdir_parents_made in Hmk as [Hkeeps _]; [|done].
    assert (parts (Path output_path) ≠ []) as Hparts.
    { intros Hparts. revert Hwrite. unfold write_text. rewrite Hparts.
      by intros [= <- <-]. }
    apply write_text_inv in Hwrite
      as [[-> _] | (loc0 & rest & Hres & Hloc0 & _ & -> & _)]; [done|].
    rewrite node_at_set_node in Hloc by done.
    case_decide; [|done]. subst loc0.
    exists (length (parts (Path output_path))). split.
    + destruct (parts (Path output_path)); [done|]. simpl. lia.
    + rewrite firstn_all. apply resolve_lexical in Hres.
      by rewrite (kn_cwd _ _ Hkeeps) in Hres.
Qed.

End footprint.

(** *** When a write goes through *)

Section write_goes_through.
Import Py pathlib.

Lemma mkdir_parents_from_exists rt rev_parts fs :
  os_mkdir {| root := rt; parts := rev rev_parts |} fs = inl FileExistsError →
  is_dir fs (str {| root := rt; parts := rev rev_parts |}) = true →
  mkdir_parents_from rt rev_parts fs = (inr (), fs).
Proof.
  intros Hmk Hdir.
  destruct rev_parts; cbn [mkdir_parents_from]; by rewrite Hmk, Hdir.
Qed.

(** [mkdir(parents=True, exist_ok=True)] on a directory that is there does
    nothing. *)
Lemma mkdir_parents_exists path fs loc :
  normal path → resolve fs path = inr loc → node_at fs loc = Some Dir →
  mkdir_parents path fs = (inr (), fs).
Proof.
  intros Hnormal Hres Hnode. unfold mkdir_parents.
  assert (os_mkdir path fs = inl FileExistsError) as Hmk.
  { unfold os_mkdir. destruct (parts path); [done|]. by rewrite Hres, Hnode. }
  assert (is_dir fs (str path) = true) as Hdir.
  { apply is_dir_resolve; [done|]. by exists loc. }
  destruct path as [rt ps]. simpl.
  apply mkdir_parents_from_exists; by rewrite rev_involutive.
Qed.

(** Writing an entry of a directory that is there goes through when the
    entry is no directory and the write is not refused. *)
Lemma write_lines_entry path text fs dir name dloc :
  Path path = child dir name → name ≠ ".." →
  resolve fs dir = inr dloc → node_at fs dloc = Some Dir →
  node_at fs (name :: dloc) ≠ Some Dir →
  fs_write_error fs (name :: dloc) text = None →
  write_lines path text fs
  = (inr (), set_node (name :: dloc) (File text) fs).
Proof.
  intros Hpath Hname Hres Hnode Hentry Hallowed.
  assert (normal dir) as Hnormal.
  { pose proof (Path_normal path) as [Hroot Hparts]. rewrite Hpath in *.
    split; [done|]. simpl in Hparts. by apply Forall_app in Hparts as [? _]. }
  assert (parent (Path path) = dir) as Hparent.
  { rewrite Hpath. unfold parent, child. destruct dir as [rt ps]. simpl.
    by rewrite removelast_last. }
  assert (resolve fs (Path path) = inr (name :: dloc)) as Hres'.
  { rewrite Hpath. revert Hres. unfold resolve, child. simpl.
    rewrite walk_app. intros ->. simpl. unfold step. rewrite Hnode.
    by rewrite (proj2 (eqs_false name "..") Hname). }
  unfold write_lines. rewrite Hparent.
  rewrite (mkdir_parents_exists dir fs dloc) by done.
  unfold write_text. rewrite Hres'.
  destruct (parts (Path path)) eqn:Hparts.
  { rewrite Hpath in Hparts. simpl in Hparts. by destruct (parts dir). }
  destruct (node_at fs (name :: dloc)) as [[old|]|]; [|done|];
    by rewrite Hallowed.
Qed.

Lemma write_lines_in_dir path text fs dir name :
  Path path = child (Path dir) name → name ≠ ".." →
  is_dir fs dir = true →
  is_dir fs path = false →
  (∀ loc, fs_write_error fs loc text = None) →
  ∃ fs', write_lines path text fs = (inr (), fs').
Proof.
  intros Hpath Hname Hdir Hfree Hallowed. unfold is_dir, stat in Hdir.
  destruct (resolve fs (Path dir)) as [e|dloc] eqn:Hres; [done|].
  destruct (node_at fs dloc) as [[old|]|] eqn:Hnode; [done| |done].
  eexists. apply (write_lines_entry _ _ _ (Path dir) name dloc); try done.
  intros Hentry. revert Hfree. unfold is_dir, stat. rewrite Hpath.
  unfold resolve, child in *. simpl. rewrite walk_app, Hres. simpl.
  unfold step. rewrite Hnode.
  rewrite (proj2 (eqs_false name "..") Hname). by rewrite Hentry.
Qed.

End write_goes_through.

(** ** The validator *)

Section validate_facts.
Import ipaddress validate.
Variable ip_network : ip_network_t.

Local Abbreviation validate_cidr := (validate_cidr ip_network).
Local Abbreviation scan_line := (scan_line ip_network).
Local Abbreviation scan := (scan ip_network).
Local Abbreviation normalized_of := (normalized_of ip_network).
Local Abbreviation entries := (entries ip_network).
Local Abbreviation validate_lines := (validate_lines ip_network).

(** On a stripped line that is neither blank nor a comment,
    [validate_cidr] follows the parse. *)
Lemma validate_cidr_stripped line :
  blank_or_comment (Py.strip line) = false →
  validate_cidr (Py.strip line) =
    match ip_network (Py.strip line) with
    | inr network =>
        if version network =? 4 then (true, None)
        else (false, Some ("IPv6 not supported: " ++ Py.strip line))
    | inl e => (false, Some e)
    end.
Proof.
  intros Hb. unfold validate.validate_cidr. rewrite strip_idem, Hb.
  destruct (ip_network (Py.strip line)) as [e|n]; [done|].
  by destruct (version n =? 4).
Qed.

(** The three cases of one iteration of the scan. *)
Inductive line_kind :=
  | Skipped | Invalid (err : option string) | Entry (normalized : string).

Definition kind_of (line : string) : line_kind :=
  let stripped := Py.strip line in
  if blank_or_comment stripped then Skipped
  else
    match ip_network stripped with
    | inr network =>
        if version network =? 4 then Entry (str network)
        else Invalid (Some ("IPv6 not supported: " ++ stripped))
    | inl e => Invalid (Some e)
    end.

Lemma normalized_of_kind line :
  normalized_of line =
    match kind_of line with Entry n => Some n | _ => None end.
Proof.
  unfold validate.normalized_of, kind_of.
  destruct (blank_or_comment _); [done|].
  destruct (ip_network _) as [e|n]; [done|]. by destruct (version n =? 4).
Qed.

(** What one iteration does to the counters and sets, by the kind of
    line. *)
Lemma scan_line_spec r seen line_num line :
  scan_line (r, seen) line_num line =
    match kind_of line with
    | Skipped =>
        ({| file := file r; total_lines := S (total_lines r);
            valid_cidrs := valid_cidrs r; invalid_cidrs := invalid_cidrs r;
            duplicates := duplicates r; errors := errors r;
            duplicate_entries := duplicate_entries r |}, seen)
    | Invalid err =>
        ({| file := file r; total_lines := S (total_lines r);
            valid_cidrs := valid_cidrs r;
            invalid_cidrs := S (invalid_cidrs r);
            duplicates := duplicates r;
            errors := errors r ++ [{| line := line_num;
                                      content := Py.strip line;
                                      error := err |}];
            duplicate_entries := duplicate_entries r |}, seen)
    | Entry normalized =>
        if bool_decide (normalized ∈ seen) then
          ({| file := file r; total_lines := S (total_lines r);
              valid_cidrs := valid_cidrs r;
              invalid_cidrs := invalid_cidrs r;
              duplicates := S (duplicates r); errors := errors r;
              duplicate_entries := duplicate_entries r ∪ {[normalized]} |},
           seen)
        else
          ({| file := file r; total_lines := S (total_lines r);
              valid_cidrs := S (valid_cidrs r);
              invalid_cidrs := invalid_cidrs r;
              duplicates := duplicates r; errors := errors r;
              duplicate_entries := duplicate_entries r |},
           seen ∪ {[normalized]})
    end.
Proof.
  unfold validate.scan_line, kind_of.
  destruct (blank_or_comment (Py.strip line)) eqn:Hb; [done|].
  rewrite validate_cidr_stripped by done.
  destruct (ip_network (Py.strip line)) as [e|n]; [done|].
  by destruct (version n =? 4).
Qed.

Lemma scan_app k l1 l2 st :
  scan k (l1 ++ l2) st = scan (k + length l1) l2 (scan k l1 st).
Proof.
  revert k st. induction l1 as [|x l1 IH]; intros k st; simpl.
  - by rewrite Nat.add_0_r.
  - rewrite IH. f_equal. lia.
Qed.

Lemma scan_snoc k l x st :
  scan k (l ++ [x]) st = scan_line (scan k l st) (k + length l) x.
Proof. by rewrite scan_app. Qed.

Lemma entries_snoc l x :
  entries (l ++ [x]) = (entries l ++ option_list (normalized_of x))%list.
Proof.
  unfold validate.entries. rewrite omap_app. simpl.
  by destruct (normalized_of x).
Qed.

Lemma occurrences_snoc x l y :
  occurrences x (l ++ [y]) =
    (occurrences x l + if bool_decide (y = x) then 1 else 0)%nat.
Proof.
  unfold occurrences. rewrite filter_app, length_app. f_equal.
  rewrite filter_cons, filter_nil. case_bool_decide; by case_decide.
Qed.

Lemma occurrences_pos x l : x ∈ l ↔ (1 ≤ occurrences x l)%nat.
Proof.
  unfold occurrences. induction l as [|y l IH].
  - rewrite filter_nil. simpl. split; [by intros ?%elem_of_nil | lia].
  - rewrite filter_cons, elem_of_cons. case_decide; simpl.
    + subst. split; [lia | by left].
    + rewrite <-IH. split; [intros [?|?]; by subst | by right].
Qed.

(** The state of the scan after the lines [ls] of a file. *)
Definition scanned (filepath : string) (ls : list string) : scan_state :=
  scan 1 ls (initial filepath).

Lemma scanned_snoc filepath ls x :
  scanned filepath (ls ++ [x]) =
    scan_line (scanned filepath ls) (1 + length ls) x.
Proof. apply scan_snoc. Qed.

(** The invariant of the scan: what the counters and the two sets hold, in
    terms of the entries read so far. *)
Record scan_inv (ls : list string) (st : scan_state) : Prop := {
  inv_total : total_lines st.1 = length ls;
  inv_seen : st.2 = list_to_set (entries ls);
  inv_valid : valid_cidrs st.1 = size st.2;
  inv_dups : (valid_cidrs st.1 + duplicates st.1)%nat = length (entries ls);
  inv_sum : (valid_cidrs st.1 + invalid_cidrs st.1 + duplicates st.1)%nat
            = length (counted ls);
  inv_dup_entries :
    ∀ x, x ∈ duplicate_entries st.1 ↔ (2 ≤ occurrences x (entries ls))%nat;
}.

Lemma counted_snoc ls x :
  counted (ls ++ [x]) =
    (counted ls ++ (if blank_or_comment (Py.strip x) then [] else [x]))%list.
Proof.
  unfold counted. rewrite filter_app. f_equal.
  rewrite filter_cons, filter_nil.
  destruct (blank_or_comment (Py.strip x)); by case_decide.
Qed.

Lemma kind_of_counted x :
  blank_or_comment (Py.strip x) =
    match kind_of x with Skipped => true | _ => false end.
Proof.
  unfold kind_of. destruct (blank_or_comment _); [done|].
  destruct (ip_network _) as [e|n]; [done|]. by destruct (version n =? 4).
Qed.

Lemma scan_inv_initial filepath : scan_inv [] (initial filepath).
Proof.
  split; simpl; try done.
  intros x. unfold occurrences. rewrite filter_nil. simpl.
  split; [by intros ?%not_elem_of_empty | lia].
Qed.

Lemma scan_inv_step ls r seen k x :
  scan_inv ls (r, seen) → scan_inv (ls ++ [x]) (scan_line (r, seen) k x).
Proof.
  rewrite scan_line_spec.
  intros [Ht Hs Hv Hd Hsum He]; simpl in Ht, Hs, Hv, Hd, Hsum, He.
  pose proof (normalized_of_kind x) as Hn.
  pose proof (kind_of_counted x) as Hc.
  assert (∀ n, n ∈ seen ↔ (1 ≤ occurrences n (entries ls))%nat) as Hseen.
  { intros n. rewrite Hs, elem_of_list_to_set. apply occurrences_pos. }
  destruct (kind_of x) as [|err|n]; [| |case_bool_decide as Hin];
    split; simpl;
    rewrite ?entries_snoc, ?counted_snoc, ?Hn, ?Hc, ?length_app; simpl;
    rewrite ?app_nil_r; try done; try lia.
  - (* a later occurrence: the seen set is unchanged *)
    rewrite list_to_set_app_L, <-Hs. simpl. set_solver.
  - intros y. rewrite elem_of_union, elem_of_singleton, He, occurrences_snoc.
    apply Hseen in Hin. case_bool_decide; subst; [|rewrite Nat.add_0_r];
      intuition (congruence || lia).
  - (* a first occurrence joins the seen set *)
    rewrite list_to_set_app_L, <-Hs. simpl. set_solver.
  - rewrite size_union by set_solver. rewrite size_singleton. lia.
  - intros y. rewrite He, occurrences_snoc. rewrite Hseen in Hin.
    case_bool_decide; subst; lia.
Qed.

Lemma scan_inv_scanned filepath ls : scan_inv ls (scanned filepath ls).
Proof.
  induction ls as [|x ls IH] using rev_ind.
  - apply scan_inv_initial.
  - rewrite scanned_snoc. destruct (scanned filepath ls) as [r seen].
    by apply scan_inv_step.
Qed.

End validate_facts.

Section validate_main_facts.
Import ipaddress validate.
Variable ip_network : ip_network_t.
Variable fs : filesystem.

Lemma validate_file_readable filepath :
  is_file fs filepath = true →
  ∃ text, read_text fs filepath = inr text ∧
    validate_file ip_network fs filepath =
      inr (validate_lines ip_network filepath (Py.readlines text)).
Proof.
  intros [text Htext]%is_file_read_text.
  exists text. split; [done|].
  unfold validate_file, open_r. by rewrite Htext.
Qed.

(** Over readable files the loop of [main] returns the sum of the invalid
    counts, which exceeds its start exactly when some file has an invalid
    entry. *)
Lemma validate_all_spec files total_errors :
  Forall (λ f, is_file fs f = true) files →
  ∃ n, validate_all ip_network fs files total_errors = inr n ∧
       (total_errors ≤ n)%nat ∧
       ((total_errors < n)%nat ↔
        ∃ filepath r, filepath ∈ files ∧
          validate_file ip_network fs filepath = inr r ∧
          (0 < invalid_cidrs r)%nat).
Proof.
  intros Hfiles. revert total_errors.
  induction Hfiles as [|f files Hf _ IH]; intros total_errors; simpl.
  - exists total_errors. split; [done|]. split; [lia|].
    split; [lia|]. by intros (? & ? & ?%elem_of_nil & _).
  - destruct (validate_file_readable f Hf) as (text & _ & Hval).
    rewrite Hval.
    set (r := validate_lines ip_network f (Py.readlines text)) in *.
    destruct (IH (total_errors + invalid_cidrs r)%nat) as (n & -> & Hle & Hiff).
    exists n. split; [done|]. split; [lia|]. split.
    + intros Hlt. destruct (decide (0 < invalid_cidrs r)%nat) as [Hpos|Hzero].
      * exists f, r. split; [by left|done].
      * destruct Hiff as [Hex _]. destruct Hex as (g & rg & Hg & Hrg & Hpos).
        { lia. }
        exists g, rg. split; [by right|done].
    + intros (g & rg & Hg & Hrg & Hpos).
      apply elem_of_cons in Hg as [->|Hg].
      * rewrite Hval in Hrg. injection Hrg as <-. lia.
      * assert (total_errors + invalid_cidrs r < n)%nat; [|lia].
        apply Hiff. eauto.
Qed.

End validate_main_facts.

(** ** The text of an IPv4 network *)

Section ipv4_text.
Import Py ipaddress.

(** The characters an IPv4 network is written with. *)
Definition ipv4_char (c : ascii) : bool :=
  is_ascii_digit c || Ascii.eqb c "." || Ascii.eqb c "/".

Lemma all_chars_impl (p q : ascii → bool) s :
  (∀ c, p c = true → q c = true) →
  all_chars p s = true → all_chars q s = true.
Proof.
  intros Hpq. induction s as [|c r IH]; [done|]. simpl.
  intros [Hc Hr]%andb_prop. by rewrite (Hpq c Hc), (IH Hr).
Qed.

Lemma split_nonempty sep s : split sep s ≠ [].
Proof.
  destruct s as [|c r]; [done|]. simpl.
  destruct (Ascii.eqb c sep); [done|]. by destruct (split sep r).
Qed.

(** What holds of the separator and of every part holds of the whole. *)
Lemma split_all_chars (p : ascii → bool) sep s :
  p sep = true →
  Forall (λ part, all_chars p part = true) (split sep s) →
  all_chars p s = true.
Proof.
  intros Hsep. induction s as [|c r IH]; [done|]. simpl.
  destruct (Ascii.eqb c sep) eqn:Hc.
  - apply Ascii.eqb_eq in Hc as ->. intros [_ Hr]%Forall_cons.
    by rewrite Hsep, (IH Hr).
  - pose proof (split_nonempty sep r) as Hne.
    destruct (split sep r) as [|w ws]; [done|].
    intros [Hw Hws]%Forall_cons. simpl in Hw.
    apply andb_prop in Hw as [Hpc Hw]. rewrite Hpc. simpl.
    apply IH. by constructor.
Qed.

Lemma parse_octet_digits octet v :
  parse_octet octet = Some v → all_chars is_ascii_digit octet = true.
Proof.
  unfold parse_octet, isdigit.
  destruct (eqs octet ""); [done|]. simpl.
  by destruct (all_chars is_ascii_digit octet).
Qed.

Lemma ip_int_from_string_chars ip_str v :
  ip_int_from_string ip_str = Some v →
  ip_str ≠ "" ∧ all_chars ipv4_char ip_str = true.
Proof.
  unfold ip_int_from_string.
  destruct (eqs ip_str "") eqn:Hempty; [done|].
  apply eqs_false in Hempty.
  destruct (negb _); [done|].
  intros (octets & Hoctets & _)%fmap_Some. split; [done|].
  apply (split_all_chars _ "."); [done|].
  apply mapM_Some in Hoctets.
  induction Hoctets as [|octet o l k Ho _ IH]; constructor; [|done].
  apply parse_octet_digits in Ho.
  revert Ho. apply all_chars_impl. intros c Hc. unfold ipv4_char.
  by rewrite Hc.
Qed.

Lemma make_netmask_chars arg prefixlen :
  make_netmask arg = Some prefixlen → all_chars ipv4_char arg = true.
Proof.
  unfold make_netmask, prefix_from_prefix_string, prefix_from_ip_string.
  destruct (negb (isdigit arg)) eqn:Hdigit.
  - destruct (ip_int_from_string arg) as [v|] eqn:Hip; [|done].
    intros _. by apply ip_int_from_string_chars in Hip as [_ ?].
  - intros _. apply negb_false_iff in Hdigit. unfold isdigit in Hdigit.
    apply andb_prop in Hdigit as [_ Hdigit].
    revert Hdigit. apply all_chars_impl. intros c Hc. unfold ipv4_char.
    by rewrite Hc.
Qed.

(** An IPv4 network is written with digits, dots and at most one slash;
    its version is 4. *)
Lemma IPv4Network_chars address network :
  IPv4Network address = Some network →
  address ≠ "" ∧ all_chars ipv4_char address = true ∧ version network = 4.
Proof.
  unfold IPv4Network.
  destruct (split "/" address) as [|addr [|mask [|? ?]]] eqn:Hsplit;
    [done| | |done].
  - destruct (ip_int_from_string addr) as [ip|] eqn:Hip; [|done].
    simpl. intros [= <-].
    apply ip_int_from_string_chars in Hip as [Hne Hchars].
    split; [|split; [|done]].
    + intros ->. simpl in Hsplit. by injection Hsplit as <-.
    + apply (split_all_chars _ "/"); [done|]. rewrite Hsplit. by constructor.
  - destruct (ip_int_from_string addr) as [ip|] eqn:Hip; [|done].
    destruct (make_netmask mask) as [prefixlen|] eqn:Hmask; [|done].
    simpl. intros [= <-].
    apply ip_int_from_string_chars in Hip as [Hne Hchars].
    apply make_netmask_chars in Hmask.
    split; [|split; [|done]].
    + intros ->. by simpl in Hsplit.
    + apply (split_all_chars _ "/"); [done|]. rewrite Hsplit.
      by repeat constructor.
Qed.

Lemma ipv4_char_not_space c : ipv4_char c = true → isspace c = false.
Proof.
  unfold ipv4_char, is_ascii_digit, isspace. cbv zeta.
  destruct (Ascii.eqb c ".") eqn:Hdot; [by apply Ascii.eqb_eq in Hdot as ->|].
  destruct (Ascii.eqb c "/") eqn:Hslash;
    [by apply Ascii.eqb_eq in Hslash as ->|].
  rewrite !orb_false_r. generalize (N_of_ascii c). intros n.
  intros [Hlo Hhi]%andb_prop. apply N.leb_le in Hlo, Hhi.
  assert ((n <=? 13) = false)%N as -> by (apply N.leb_gt; lia).
  assert ((n <=? 32) = false)%N as -> by (apply N.leb_gt; lia).
  assert ((n =? 133) = false)%N as -> by (apply N.eqb_neq; lia).
  assert ((n =? 160) = false)%N as -> by (apply N.eqb_neq; lia).
  by rewrite !andb_false_r.
Qed.

(** Text without white space is left alone by [strip]. *)
Lemma strip_no_space s :
  all_chars (λ c, negb (isspace c)) s = true → strip s = s.
Proof.
  intros Hs. unfold strip.
  assert (lstrip s = s) as ->.
  { destruct s as [|c r]; [done|]. simpl in *.
    apply andb_prop in Hs as [Hc _]. apply negb_true_iff in Hc.
    by rewrite Hc. }
  induction s as [|c r IH]; [done|]. simpl in *.
  apply andb_prop in Hs as [Hc Hr]. apply negb_true_iff in Hc.
  by rewrite Hc, (IH Hr).
Qed.

Lemma IPv4Network_stripped address network :
  IPv4Network address = Some network → strip address = address.
Proof.
  intros (_ & Hchars & _)%IPv4Network_chars. apply strip_no_space.
  revert Hchars. apply all_chars_impl. intros c Hc.
  by rewrite (ipv4_char_not_space c Hc).
Qed.

End ipv4_text.

(** ** The validator: the claims *)

Section validator_claims.
Import ipaddress validate.

(** C4. The per-line contract of [validate_cidr], stated on the stripped
    line the function parses: a line whose stripped text parses as an IPv4
    network (host bits allowed) yields [(True, None)]; one that parses as a
    network of another version yields [(False, "IPv6 not supported: " +
    stripped)]; any other line that is neither blank nor a comment yields
    [(False, e)] with [e] the message of the parse error, unchanged.  On
    the model of the library's IPv4 side, every string that is an IPv4
    network as it stands yields [(True, None)]: such a string carries no
    white space, so stripping changes nothing. *)
Theorem validate_cidr_contract (ip_network : ip_network_t) (line : string) :
  let stripped := Py.strip line in
  (∀ network,
     ip_network stripped = inr network → version network = 4 →
     validate_cidr ip_network line = (true, None)) ∧
  (∀ network,
     blank_or_comment stripped = false →
     ip_network stripped = inr network → version network ≠ 4 →
     validate_cidr ip_network line
       = (false, Some ("IPv6 not supported: " ++ stripped))) ∧
  (∀ e,
     blank_or_comment stripped = false →
     ip_network stripped = inl e →
     validate_cidr ip_network line = (false, Some e)) ∧
  (∀ IPv6Network repr network,
     IPv4Network line = Some network →
     validate_cidr (ipaddress.ip_network IPv6Network repr) line
       = (true, None)).
Proof.
  unfold validate_cidr. cbv zeta. repeat split.
  - intros n Hn Hv. destruct (blank_or_comment _); [done|].
    rewrite Hn. apply Z.eqb_eq in Hv. by rewrite Hv.
  - intros n -> -> Hv. apply Z.eqb_neq in Hv. by rewrite Hv.
  - by intros e -> ->.
  - intros IPv6Network repr network Hnet.
    rewrite (IPv4Network_stripped line network Hnet).
    destruct (blank_or_comment line); [done|].
    unfold ipaddress.ip_network. rewrite Hnet.
    apply IPv4Network_chars in Hnet as (_ & _ & ->). done.
Qed.

(** C4, at three lines: an IPv4 entry with host bits set, the IPv6
    documentation prefix, and a line that is no network. *)
Lemma validate_cidr_contract_witness :
  validate_cidr example_ip_network " 10.0.0.1/24 " = (true, None) ∧
  validate_cidr example_ip_network "2001:db8::/32"
    = (false, Some "IPv6 not supported: 2001:db8::/32") ∧
  validate_cidr example_ip_network "junk"
    = (false, Some "'junk' does not appear to be an IPv4 or IPv6 network").
Proof.
  split; [|split].
  - apply (proj1 (validate_cidr_contract example_ip_network " 10.0.0.1/24 ")
             {| version := 4; str := "10.0.0.0/24" |}); reflexivity.
  - apply (proj1 (proj2 (validate_cidr_contract example_ip_network "2001:db8::/32"))
             {| version := 6; str := "2001:db8::/32" |});
      [reflexivity | reflexivity | discriminate].
  - apply (proj1 (proj2 (proj2 (validate_cidr_contract example_ip_network "junk"))));
      reflexivity.
Defined.

(** C9. Blank lines and comment lines are valid and move none of the three
    counters; every other line moves exactly one of them by one; so the
    three counters of a file add up to the number of its lines that are
    neither blank nor comments. *)
Theorem validate_count_partition (ip_network : ip_network_t) :
  (∀ line, blank_or_comment (Py.strip line) = true →
     validate_cidr ip_network line = (true, None)) ∧
  (∀ r seen line_num line,
     let r' := (scan_line ip_network (r, seen) line_num line).1 in
     if blank_or_comment (Py.strip line)
     then valid_cidrs r' = valid_cidrs r ∧
          invalid_cidrs r' = invalid_cidrs r ∧
          duplicates r' = duplicates r
     else (valid_cidrs r' = S (valid_cidrs r) ∧
           invalid_cidrs r' = invalid_cidrs r ∧
           duplicates r' = duplicates r) ∨
          (valid_cidrs r' = valid_cidrs r ∧
           invalid_cidrs r' = S (invalid_cidrs r) ∧
           duplicates r' = duplicates r) ∨
          (valid_cidrs r' = valid_cidrs r ∧
           invalid_cidrs r' = invalid_cidrs r ∧
           duplicates r' = S (duplicates r))) ∧
  (∀ filepath lines,
     let r := validate_lines ip_network filepath lines in
     (valid_cidrs r + invalid_cidrs r + duplicates r)%nat
       = length (counted lines) ∧
     total_lines r = length lines) ∧
  (∀ fs filepath text,
     read_text fs filepath = inr text →
     ∃ r, validate_file ip_network fs filepath = inr r ∧
          (valid_cidrs r + invalid_cidrs r + duplicates r)%nat
            = length (counted (Py.readlines text))).
Proof.
  assert (∀ filepath lines,
     let r := validate_lines ip_network filepath lines in
     (valid_cidrs r + invalid_cidrs r + duplicates r)%nat
       = length (counted lines) ∧
     total_lines r = length lines) as Hsum.
  { intros filepath lines.
    destruct (scan_inv_scanned ip_network filepath lines) as [Ht _ _ _ Hs _].
    by split. }
  split; [|split; [|split]].
  - intros line Hb. unfold validate_cidr. by rewrite Hb.
  - intros r seen line_num line. cbv zeta. rewrite scan_line_spec.
    rewrite (kind_of_counted ip_network).
    destruct (kind_of ip_network line) as [|err|n]; simpl; [done|auto|].
    case_bool_decide; simpl; auto.
  - exact Hsum.
  - intros fs filepath text Htext.
    exists (validate_lines ip_network filepath (Py.readlines text)). split.
    + unfold validate_file, open_r. by rewrite Htext.
    + apply Hsum.
Qed.

(** C1. Duplicates are detected on the normalized text.  The three lines
    10.0.0.0/24, 10.0.0.1/24, 10.0.1.0/24 give two valid entries and one
    duplicate, the duplicate entry being 10.0.0.0/24.  In every file the
    valid count is the number of distinct normalized values, every further
    occurrence is counted as a duplicate, and the reported duplicate entries
    are the values met at least twice, in increasing string order without
    repeats.  Line by line: a valid entry whose normalized value was not met
    before adds one to the valid count, and one met before adds one to the
    duplicate count and is among the duplicate entries. *)
Theorem validate_duplicate_detection :
  (∀ IPv6Network repr filepath,
     let r := validate_lines (ip_network IPv6Network repr) filepath
                ["10.0.0.0/24"; "10.0.0.1/24"; "10.0.1.0/24"] in
     valid_cidrs r = 2%nat ∧ duplicates r = 1%nat ∧
     duplicate_entries r = ["10.0.0.0/24"] ∧
     normalized_of (ip_network IPv6Network repr) "10.0.0.1/24"
       = Some "10.0.0.0/24") ∧
  (∀ ip_network filepath lines,
     let r := validate_lines ip_network filepath lines in
     let es := entries ip_network lines in
     valid_cidrs r = size (list_to_set es : gset string) ∧
     (valid_cidrs r + duplicates r)%nat = length es ∧
     Sorted String.le (duplicate_entries r) ∧
     NoDup (duplicate_entries r) ∧
     (∀ x, x ∈ duplicate_entries r ↔ (2 ≤ occurrences x es)%nat)) ∧
  (∀ ip_network filepath pre line n,
     normalized_of ip_network line = Some n →
     let r := validate_lines ip_network filepath pre in
     let r' := validate_lines ip_network filepath (pre ++ [line]) in
     if bool_decide (n ∈ entries ip_network pre)
     then valid_cidrs r' = valid_cidrs r ∧
          duplicates r' = S (duplicates r) ∧
          n ∈ duplicate_entries r'
     else valid_cidrs r' = S (valid_cidrs r) ∧
          duplicates r' = duplicates r ∧
          duplicate_entries r' = duplicate_entries r).
Proof.
  split; [|split].
  - intros IPv6Network repr filepath. cbv zeta. by vm_compute.
  - intros ip_network filepath lines. cbv zeta.
    destruct (scan_inv_scanned ip_network filepath lines)
      as [_ Hseen Hvalid Hdups _ Hentries].
    unfold validate_lines, finish. fold (scanned ip_network filepath lines).
    simpl. rewrite <-Hseen. repeat split; try done.
    + apply sorted_set_Sorted.
    + apply sorted_set_NoDup.
    + intros Hx. by apply Hentries, elem_of_sorted_set.
    + intros Hx. by apply elem_of_sorted_set, Hentries.
  - intros ip_network filepath pre line n Hn. cbv zeta.
    unfold validate_lines, finish.
    fold (scanned ip_network filepath pre).
    fold (scanned ip_network filepath (pre ++ [line])).
    rewrite scanned_snoc.
    destruct (scan_inv_scanned ip_network filepath pre) as [_ Hseen _ _ _ _].
    destruct (scanned ip_network filepath pre) as [r seen]. simpl in Hseen.
    rewrite scan_line_spec.
    rewrite normalized_of_kind in Hn.
    destruct (kind_of ip_network line) as [| |m]; try done.
    injection Hn as ->.
    assert (bool_decide (n ∈ seen) = bool_decide (n ∈ entries ip_network pre))
      as ->.
    { apply bool_decide_ext. by rewrite Hseen, elem_of_list_to_set. }
    case_bool_decide; simpl; repeat split; try done.
    apply elem_of_sorted_set. set_solver.
Qed.

(** C1, at the second of the three lines: 10.0.0.1/24 after 10.0.0.0/24 is
    a later occurrence of 10.0.0.0/24. *)
Lemma validate_duplicate_detection_witness :
  let r := validate_lines example_ip_network "list.txt" ["10.0.0.0/24"] in
  let r' := validate_lines example_ip_network "list.txt"
              ["10.0.0.0/24"; "10.0.0.1/24"] in
  valid_cidrs r' = valid_cidrs r ∧ duplicates r' = S (duplicates r) ∧
  "10.0.0.0/24" ∈ duplicate_entries r'.
Proof.
  exact (proj2 (proj2 validate_duplicate_detection) example_ip_network
           "list.txt" ["10.0.0.0/24"] "10.0.0.1/24" "10.0.0.0/24" eq_refl).
Defined.

(** A file system with no file at all. *)
Definition empty_fs : filesystem := filesystem_of [] [].

(** A file system whose one list holds a duplicate and no invalid entry. *)
Definition duplicates_only_fs : filesystem :=
  filesystem_of
    [(["dups.txt"; "lists"],
      "10.0.0.0/24" ++ Py.nl ++ "10.0.0.1/24" ++ Py.nl)] [].

(** C3 as stated fails when no file is resolved: the run on a path that
    does not exist exits with 1 although no invalid entry was found. *)
Lemma validate_exit_without_files :
  main example_ip_network empty_fs ["missing.txt"] = inr 1 ∧
  ¬ invalid_found example_ip_network empty_fs ["missing.txt"].
Proof.
  split; [reflexivity|].
  intros (filepath & r & Hin & _). by apply elem_of_nil in Hin.
Qed.

(** C3, amended.  When every resolved path is a regular file the run
    returns an exit code, 0 or 1.  It is 1 when no file was resolved;
    otherwise it is non-zero exactly when some validated file holds an
    invalid entry, so files with duplicates only give 0. *)
Theorem validate_exit_contract (ip_network : ip_network_t)
    (fs : filesystem) (paths : list string) :
  Forall (λ f, is_file fs f = true) (collect fs paths) →
  ∃ code,
    main ip_network fs paths = inr code ∧
    (code = 0 ∨ code = 1) ∧
    (collect fs paths = [] → code = 1) ∧
    (collect fs paths ≠ [] →
       (code ≠ 0 ↔ invalid_found ip_network fs paths)).
Proof.
  intros Hfiles. unfold main.
  case_bool_decide as Hnil.
  { exists 1. repeat split; auto. done. }
  assert (Forall (λ f, is_file fs f = true)
            (merge_sort String.le (collect fs paths))) as Hsorted.
  { by rewrite (merge_sort_Permutation String.le). }
  destruct (validate_all_spec ip_network fs _ 0%nat Hsorted)
    as (n & -> & _ & Hiff).
  assert ((0 < n)%nat ↔ invalid_found ip_network fs paths) as Hfound.
  { rewrite Hiff. unfold invalid_found.
    by setoid_rewrite (merge_sort_Permutation String.le). }
  destruct (0 <? n)%nat eqn:Hn.
  - apply Nat.ltb_lt in Hn. exists 1. repeat split; auto; try done.
    intros _. by apply Hfound.
  - apply Nat.ltb_ge in Hn. exists 0. repeat split; auto; try done.
    intros ?%Hfound. lia.
Qed.

(** A list with one duplicate and no invalid entry validates with exit
    code 0. *)
Example validate_exit_duplicates_only :
  main example_ip_network duplicates_only_fs ["lists/dups.txt"] = inr 0 ∧
  validate_file example_ip_network duplicates_only_fs "lists/dups.txt"
    = inr {| file := "lists/dups.txt"; total_lines := 2; valid_cidrs := 1;
             invalid_cidrs := 0; duplicates := 1; errors := [];
             duplicate_entries := ["10.0.0.0/24"] |}.
Proof. by vm_compute. Qed.

(** C3, amended, on a list with a duplicate and no invalid entry: exit
    code 0. *)
Lemma validate_exit_contract_witness :
  ∃ code,
    main example_ip_network duplicates_only_fs ["lists/dups.txt"] = inr code ∧
    (code = 0 ∨ code = 1) ∧
    (collect duplicates_only_fs ["lists/dups.txt"] = [] → code = 1) ∧
    (collect duplicates_only_fs ["lists/dups.txt"] ≠ [] →
       (code ≠ 0 ↔
        invalid_found example_ip_network duplicates_only_fs ["lists/dups.txt"])).
Proof.
  apply (validate_exit_contract example_ip_network duplicates_only_fs
           ["lists/dups.txt"]).
  by repeat constructor.
Defined.

End validator_claims.

(** ** Decimal text and slices *)

Section formatting.
Import ipaddress.

Lemma int_go_zeros k s acc : acc = 0 → int_go acc (zeros k ++ s) = int_go acc s.
Proof. intros ->. induction k as [|k IH]; [done|]. apply IH. Qed.

Lemma int_go_pretty_char d acc s :
  (d < 10)%N →
  int_go acc (String (pretty_N_char d) s) = int_go (10 * acc + Z.of_N d) s.
Proof.
  intros Hd. simpl. f_equal.
  assert (d = 0 ∨ d = 1 ∨ d = 2 ∨ d = 3 ∨ d = 4 ∨ d = 5 ∨ d = 6 ∨ d = 7
          ∨ d = 8 ∨ d = 9)%N as Hcases by lia.
  repeat (destruct Hcases as [->|Hcases]; [simpl; lia|]). subst. simpl. lia.
Qed.

(** The digits [pretty_N_go] puts in front of [s] read back as [x]. *)
Lemma int_go_pretty_N_go x s :
  int_go 0 (pretty_N_go x s) = int_go (Z.of_N x) s.
Proof.
  revert s. induction (N.lt_wf_0 x) as [x _ IH]; intros s.
  destruct (decide (x = 0)%N) as [->|Hx]; [done|].
  rewrite pretty_N_go_step by lia.
  rewrite IH by (apply N.div_lt; lia).
  rewrite int_go_pretty_char by (apply N.mod_lt; lia).
  f_equal. rewrite N2Z.inj_div, N2Z.inj_mod. simpl Z.of_N.
  pose proof (Z.div_mod (Z.of_N x) 10). lia.
Qed.

Lemma int_pretty_nat (n : nat) : int (pretty n) = Z.of_nat n.
Proof.
  unfold int, pretty, pretty_nat, pretty, pretty_N.
  case_decide as Hn.
  - simpl. lia.
  - rewrite int_go_pretty_N_go. simpl. lia.
Qed.

(** Reading a formatted chunk number back gives the number. *)
Lemma int_format_03d n : int (format_03d n) = Z.of_nat n.
Proof.
  unfold format_03d, zfill, int. rewrite int_go_zeros by done.
  apply int_pretty_nat.
Qed.

Lemma format_03d_inj n m : format_03d n = format_03d m → n = m.
Proof.
  intros Heq. apply (f_equal int) in Heq.
  rewrite !int_format_03d in Heq. lia.
Qed.

Lemma append_cons x (a b : string) : String x a ++ b = String x (a ++ b).
Proof. reflexivity. Qed.

Lemma append_assoc (a b c : string) : (a ++ b) ++ c = a ++ b ++ c.
Proof.
  induction a as [|x a IH]; [done|]. rewrite !append_cons. by rewrite IH.
Qed.

Lemma append_length (a b : string) :
  String.length (a ++ b) = (String.length a + String.length b)%nat.
Proof.
  induction a as [|x a IH]; [done|]. rewrite append_cons. simpl. by rewrite IH.
Qed.

(** A common suffix cancels. *)
Lemma append_inv_tail (a b t : string) : a ++ t = b ++ t → a = b.
Proof.
  revert b. induction a as [|x a IH]; intros [|y b] Heq.
  - done.
  - apply (f_equal String.length) in Heq.
    rewrite !append_length in Heq. simpl in Heq. lia.
  - apply (f_equal String.length) in Heq.
    rewrite !append_length in Heq. simpl in Heq. lia.
  - rewrite !append_cons in Heq. injection Heq as -> Heq.
    f_equal. by apply IH.
Qed.

Lemma render_app (a b : list string) : render (a ++ b) = render a ++ render b.
Proof.
  induction a as [|x a IH]; [done|]. simpl.
  by rewrite IH, !append_assoc.
Qed.

End formatting.

(** ** The chunker *)

Section chunk_facts.
Import Py chunk.

Lemma py_slice_inside {A} (l : list A) (a b : Z) :
  0 ≤ a ≤ b → b ≤ Z.of_nat (length l) →
  py_slice l a b = take (Z.to_nat (b - a)) (drop (Z.to_nat a) l).
Proof.
  intros Hab Hb. unfold py_slice, slice_index.
  destruct (a <? 0) eqn:Ha; [apply Z.ltb_lt in Ha; lia|].
  destruct (b <? 0) eqn:Hb0; [apply Z.ltb_lt in Hb0; lia|].
  by rewrite !Z.min_l by lia.
Qed.

(** Within range, iteration [i] takes the next [chunk_size] entries. *)
Lemma chunk_cidrs_take cidrs chunk_size i :
  1 ≤ chunk_size →
  Z.of_nat i * chunk_size < Z.of_nat (length cidrs) →
  chunk_cidrs cidrs chunk_size i =
    take (Z.to_nat chunk_size) (drop (i * Z.to_nat chunk_size) cidrs).
Proof.
  intros HN Hi. unfold chunk_cidrs.
  rewrite py_slice_inside by lia.
  replace (Z.to_nat (Z.of_nat i * chunk_size)) with (i * Z.to_nat chunk_size)%nat
    by lia.
  set (rest := drop (i * Z.to_nat chunk_size) cidrs).
  assert (Z.of_nat (length rest)
          = Z.of_nat (length cidrs) - Z.of_nat i * chunk_size) as Hrest.
  { unfold rest. rewrite length_drop. lia. }
  destruct (decide ((Z.of_nat i + 1) * chunk_size ≤ Z.of_nat (length cidrs))).
  - rewrite Z.min_l by lia. f_equal. lia.
  - rewrite Z.min_r by lia. rewrite !take_ge by lia. done.
Qed.

(** [(count + size - 1) // size] is the ceiling of [count / size]. *)
Lemma num_chunks_ceiling (count chunk_size : Z) :
  1 ≤ chunk_size → 1 ≤ count →
  let k := (count + chunk_size - 1) / chunk_size in
  1 ≤ k ∧ (k - 1) * chunk_size < count ≤ k * chunk_size.
Proof.
  intros HN Hc k.
  pose proof (Z.div_mod (count + chunk_size - 1) chunk_size) as Hdm.
  pose proof (Z.mod_pos_bound (count + chunk_size - 1) chunk_size) as Hmod.
  fold k in Hdm. nia.
Qed.

(** Consecutive slices of [n] entries put end to end give the list back. *)
Lemma concat_chunks {A} (n k : nat) (l : list A) :
  (length l ≤ k * n)%nat →
  concat ((λ i, take n (drop (i * n) l)) <$> seq 0 k) = l.
Proof.
  revert l. induction k as [|k IH]; intros l Hlen.
  - destruct l; [done|simpl in Hlen; lia].
  - simpl seq. rewrite fmap_cons. simpl concat.
    rewrite <-fmap_S_seq, <-list_fmap_compose. simpl.
    rewrite (list_fmap_ext _ (λ i, take n (drop (i * n) (drop n l)))).
    + rewrite IH by (rewrite length_drop; lia). apply take_drop.
    + intros _ i _. simpl. by rewrite drop_drop.
Qed.

(** The text of a chunk number holds no slash. *)
Lemma pretty_N_go_no_sep x s :
  contains "/" s = false → contains "/" (pretty_N_go x s) = false.
Proof.
  revert s. induction (N.lt_wf_0 x) as [x _ IH]; intros s Hs.
  destruct (decide (x = 0)%N) as [->|Hx]; [done|].
  rewrite pretty_N_go_step by lia. apply IH; [apply N.div_lt; lia|].
  assert (x `mod` 10 < 10)%N as Hd by (apply N.mod_lt; lia).
  revert Hd. generalize (x `mod` 10)%N. intros d Hd.
  assert (d = 0 ∨ d = 1 ∨ d = 2 ∨ d = 3 ∨ d = 4 ∨ d = 5 ∨ d = 6 ∨ d = 7
          ∨ d = 8 ∨ d = 9)%N as Hcases by lia.
  repeat (destruct Hcases as [->|Hcases]; [exact Hs|]). subst. exact Hs.
Qed.

Lemma contains_app c (a b : string) :
  contains c (a ++ b) = contains c a || contains c b.
Proof.
  induction a as [|x a IH]; [done|]. rewrite append_cons. simpl.
  by rewrite IH, orb_assoc.
Qed.

Lemma format_03d_no_sep n : contains "/" (format_03d n) = false.
Proof.
  unfold format_03d, zfill. rewrite contains_app.
  apply orb_false_intro.
  - induction (3 - _)%nat as [|k IH]; [done|]. exact IH.
  - unfold pretty, pretty_nat, pretty, pretty_N. case_decide; [done|].
    by apply pretty_N_go_no_sep.
Qed.

(** The tail of a chunk file name. *)
Definition part_suffix (i : nat) : string :=
  "-part-" ++ format_03d (i + 1) ++ ".txt".

Lemma part_suffix_no_sep i : contains "/" (part_suffix i) = false.
Proof.
  unfold part_suffix. rewrite !contains_app, format_03d_no_sep. done.
Qed.

Lemma part_suffix_length i : (2 ≤ String.length (part_suffix i))%nat.
Proof. unfold part_suffix. rewrite append_length. simpl. lia. Qed.

Lemma part_suffix_inj i j : part_suffix i = part_suffix j → i = j.
Proof.
  unfold part_suffix. intros Heq. apply (inj (String.app _)) in Heq.
  apply append_inv_tail, format_03d_inj in Heq. lia.
Qed.

Lemma output_filename_suffix prefix i :
  output_filename prefix i = prefix ++ part_suffix i.
Proof. reflexivity. Qed.

(** *** The path of a text that ends in a name *)

Lemma lstrip_sep_app a b :
  (∀ c r, b = String c r → c ≠ "/"%char) → b ≠ "" →
  pathlib.lstrip_sep (a ++ b) = pathlib.lstrip_sep a ++ b.
Proof.
  intros Hb Hne. induction a as [|x a IH].
  - by apply lstrip_sep_relative.
  - rewrite append_cons. simpl.
    destruct x as [[] [] [] [] [] [] [] []]; try done.
Qed.

Lemma lstrip_sep_length a :
  (String.length (pathlib.lstrip_sep a) ≤ String.length a)%nat.
Proof.
  induction a as [|x a IH]; simpl; [lia|].
  destruct x as [[] [] [] [] [] [] [] []]; simpl; lia.
Qed.

Lemma splitroot_app a b :
  (∀ c r, b = String c r → c ≠ "/"%char) → b ≠ "" →
  pathlib.splitroot (a ++ b)
    = ((pathlib.splitroot a).1, (pathlib.splitroot a).2 ++ b).
Proof.
  intros Hb Hne. destruct a as [|x a].
  - by apply splitroot_relative.
  - assert (x = "/"%char ∨ x ≠ "/"%char) as [->|Hx].
    { destruct (decide (x = "/"%char)); auto. }
    + unfold pathlib.splitroot. rewrite append_cons. cbv zeta.
      rewrite <-(append_cons "/" a b), lstrip_sep_app by done.
      rewrite !append_length.
      pose proof (lstrip_sep_length (String "/" a)) as Hlen.
      replace (String.length (String "/" a) + String.length b
               - (String.length (pathlib.lstrip_sep (String "/" a))
                  + String.length b))%nat
        with (String.length (String "/" a)
              - String.length (pathlib.lstrip_sep (String "/" a)))%nat by lia.
      by destruct (_ =? 2)%nat.
    + rewrite append_cons. unfold pathlib.splitroot.
      destruct x as [[] [] [] [] [] [] [] []]; done.
Qed.

Lemma split_no_sep_id sep s : contains sep s = false → split sep s = [s].
Proof.
  induction s as [|c r IH]; [done|]. simpl.
  intros [Hc Hr]%orb_false_elim. rewrite Hc, (IH Hr). done.
Qed.

Lemma split_app_last sep a b :
  contains sep b = false →
  split sep (a ++ b) =
    (removelast (split sep a)
     ++ [String.app (default "" (last (split sep a))) b])%list.
Proof.
  intros Hb. induction a as [|c a IH].
  - by apply split_no_sep_id.
  - rewrite append_cons.
    pose proof (split_nonempty sep a) as Hne.
    destruct (Ascii.eqb c sep) eqn:Hc.
    + apply Ascii.eqb_eq in Hc as ->.
      rewrite !split_cons_sep, IH.
      destruct (split sep a) as [|w ws]; [done|]. done.
    + rewrite !split_cons_other by done. rewrite IH.
      destruct (split sep a) as [|w ws]; [done|].
      destruct ws as [|w' ws]; [done|]. done.
Qed.

(** The path of [a ++ b], when [b] is the tail of a name. *)
Lemma Path_app a b :
  contains "/" b = false → (2 ≤ String.length b)%nat →
  pathlib.Path (a ++ b) =
    pathlib.child
      {| pathlib.root := (pathlib.splitroot a).1;
         pathlib.parts :=
           filter (λ x, x ≠ "" ∧ x ≠ ".")
             (removelast (split "/" (pathlib.splitroot a).2)) |}
      (default "" (last (split "/" (pathlib.splitroot a).2)) ++ b).
Proof.
  intros Hsep Hlen. unfold pathlib.Path, pathlib.child.
  rewrite splitroot_app.
  - simpl. f_equal. rewrite split_app_last by done.
    rewrite filter_app. f_equal.
    rewrite filter_cons_True; [done|].
    split; intros Heq; apply (f_equal String.length) in Heq;
      rewrite append_length in Heq; simpl in Heq; lia.
  - intros c r ->. intros ->. simpl in Hsep. done.
  - intros ->. simpl in Hlen. lia.
Qed.

Section loop.
Variable cidrs : list string.
Variable output_dir : string.
Variable chunk_size : Z.
Variable prefix : string.

(** The path of chunk [i]. *)
Definition output_path (i : nat) : string :=
  pathlib.joinpath output_dir (output_filename prefix i).

(** The chunk files are entries of one directory, named by one stem and
    the chunk number. *)
Lemma output_path_child :
  ∃ dir seg, ∀ i,
    pathlib.Path (output_path i) = pathlib.child dir (seg ++ part_suffix i).
Proof.
  set (rt := (pathlib.splitroot prefix).1).
  set (ps := filter (λ x, x ≠ "" ∧ x ≠ ".")
               (removelast (split "/" (pathlib.splitroot prefix).2))).
  set (seg := default "" (last (split "/" (pathlib.splitroot prefix).2))).
  exists (if eqs rt ""
          then {| pathlib.root := pathlib.root (pathlib.Path output_dir);
                  pathlib.parts :=
                    (pathlib.parts (pathlib.Path output_dir) ++ ps)%list |}
          else {| pathlib.root := rt; pathlib.parts := ps |}), seg.
  intros i. unfold output_path. rewrite Path_joinpath.
  unfold pathlib.truediv. rewrite output_filename_suffix.
  rewrite Path_app by (apply part_suffix_no_sep || apply part_suffix_length).
  fold rt ps seg. unfold pathlib.child. simpl.
  destruct (eqs rt ""); simpl; [|done]. by rewrite app_assoc.
Qed.

Lemma part_name_not_dotdot seg i : seg ++ part_suffix i ≠ "..".
Proof.
  intros Heq. apply (f_equal String.length) in Heq.
  rewrite append_length in Heq. unfold part_suffix in Heq.
  rewrite append_length in Heq. simpl in Heq.
  rewrite append_length in Heq. simpl in Heq. lia.
Qed.

Lemma output_path_siblings i j :
  i ≠ j → siblings (output_path i) (output_path j).
Proof.
  intros Hij. destruct output_path_child as (dir & seg & Hpath).
  exists dir, (seg ++ part_suffix i), (seg ++ part_suffix j).
  split; [apply Hpath|]. split; [apply Hpath|]. split.
  - intros Heq. apply (inj (String.app _)) in Heq.
    by apply part_suffix_inj in Heq.
  - split; apply part_name_not_dotdot.
Qed.

Lemma output_path_inj i j : output_path i = output_path j → i = j.
Proof.
  intros Heq. destruct (decide (i = j)) as [|Hij]; [done|].
  destruct output_path_child as (dir & seg & Hpath).
  pose proof (Hpath i) as Hi. rewrite Heq, Hpath in Hi.
  unfold pathlib.child in Hi. injection Hi as Hi.
  apply app_inj_tail in Hi as [_ Hi].
  apply (inj (String.app _)), part_suffix_inj in Hi. by symmetry.
Qed.

(** A dry run of the loop returns the paths and writes nothing. *)
Lemma chunk_loop_dry rng output_files fs :
  chunk_loop cidrs output_dir chunk_size prefix true rng output_files fs =
    (inr (output_files ++ (output_path <$> rng))%list, fs).
Proof.
  revert output_files. induction rng as [|i rng IH]; intros output_files.
  - simpl. by rewrite app_nil_r.
  - simpl. rewrite IH. by rewrite <-app_assoc.
Qed.

(** A real run of the loop that returns: the paths are those of the dry
    run, the directories are kept, a file beside the chunk files is as it
    was, and every chunk file reads as its chunk. *)
Lemma chunk_loop_real rng output_files fs out fs' :
  chunk_loop cidrs output_dir chunk_size prefix false rng output_files fs
    = (inr out, fs') →
  out = (output_files ++ (output_path <$> rng))%list ∧
  keeps_dirs fs fs' ∧
  (∀ other old,
     (∀ i, i ∈ rng → siblings (output_path i) other) →
     read_text fs other = inr old → read_text fs' other = inr old) ∧
  (NoDup rng →
   ∀ i, i ∈ rng →
     read_text fs' (output_path i)
       = inr (render (chunk_cidrs cidrs chunk_size i))).
Proof.
  revert output_files fs. induction rng as [|i rng IH]; intros output_files fs.
  - simpl. intros [= <- <-]. rewrite app_nil_r. split; [done|].
    split; [apply keeps_dirs_refl|]. split; [done|].
    intros _ i Hi. by apply elem_of_nil in Hi.
  - cbn [chunk_loop]. fold (output_path i). unfold write_chunk.
    destruct (write_lines (output_path i)
                (render (chunk_cidrs cidrs chunk_size i)) fs)
      as [[e|[]] fs1] eqn:Hwrite; [done|].
    intros Hrest. destruct (IH _ _ Hrest) as (-> & Hkeeps & Hframe & Hread).
    split; [by rewrite <-app_assoc|]. split.
    { eapply keeps_dirs_trans; [|done]. by eapply write_lines_keeps. }
    split.
    + intros other old Hsib Hold. apply Hframe.
      * intros j Hj. apply Hsib. by right.
      * eapply write_lines_sibling; [done| |done]. apply Hsib. by left.
    + intros [Hi Hnd]%NoDup_cons j [->|Hj]%elem_of_cons.
      * apply Hframe.
        -- intros j Hj. apply output_path_siblings. by intros ->.
        -- by eapply write_lines_read.
      * by apply Hread.
Qed.

(** A real run of the loop keeps the directories, however it ends. *)
Lemma chunk_loop_keeps dry_run rng output_files fs r fs' :
  chunk_loop cidrs output_dir chunk_size prefix dry_run rng output_files fs
    = (r, fs') →
  keeps_dirs fs fs'.
Proof.
  revert output_files fs. induction rng as [|i rng IH]; intros output_files fs.
  - simpl. intros [= <- <-]. apply keeps_dirs_refl.
  - cbn [chunk_loop]. destruct dry_run; [apply IH|].
    unfold write_chunk.
    destruct (write_lines _ _ fs) as [[e|[]] fs1] eqn:Hwrite.
    + intros [= <- <-]. by eapply write_lines_keeps.
    + intros Hrest. eapply keeps_dirs_trans; [by eapply write_lines_keeps|].
      by eapply IH.
Qed.

(** The path of a chunk whose prefix is a plain name: an entry of the
    output directory. *)
Lemma output_path_plain i :
  contains "/" prefix = false →
  pathlib.Path (output_path i)
  = pathlib.child (pathlib.Path output_dir) (prefix ++ part_suffix i).
Proof.
  intros Hprefix. unfold output_path. rewrite Path_joinpath.
  unfold pathlib.truediv. rewrite output_filename_suffix.
  rewrite Path_app by (apply part_suffix_no_sep || apply part_suffix_length).
  assert (pathlib.splitroot prefix = ("", prefix)) as ->.
  { apply splitroot_relative. intros c r -> ->. simpl in Hprefix. done. }
  simpl. rewrite split_no_sep_id by done. simpl.
  done.
Qed.

(** In an output directory that is there, with a prefix that is a plain
    name, no chunk path being a directory and no write being refused, the
    real run of the loop returns. *)
Lemma chunk_loop_succeeds rng output_files fs dloc :
  contains "/" prefix = false →
  resolve fs (pathlib.Path output_dir) = inr dloc →
  node_at fs dloc = Some Dir →
  (∀ i, i ∈ rng → node_at fs ((prefix ++ part_suffix i) :: dloc) ≠ Some Dir) →
  (∀ loc text, fs_write_error fs loc text = None) →
  ∃ fs',
    chunk_loop cidrs output_dir chunk_size prefix false rng output_files fs
    = (inr (output_files ++ (output_path <$> rng))%list, fs').
Proof.
  intros Hprefix. revert output_files fs.
  induction rng as [|i rng IH];
    intros output_files fs Hres Hnode Hentries Hallowed.
  - exists fs. simpl. by rewrite app_nil_r.
  - cbn [chunk_loop]. fold (output_path i). unfold write_chunk.
    rewrite (write_lines_entry _ _ fs (pathlib.Path output_dir)
               (prefix ++ part_suffix i) dloc);
      [|by apply output_path_plain|apply part_name_not_dotdot|done|done
       |apply Hentries; by left|apply Hallowed].
    set (fs1 := set_node ((prefix ++ part_suffix i) :: dloc)
                  (File (render (chunk_cidrs cidrs chunk_size i))) fs).
    assert (keeps_dirs fs fs1) as Hkeeps.
    { apply set_node_file; [done|]. apply Hentries. by left. }
    destruct (IH (output_files ++ [output_path i])%list fs1) as [fs' Hrun].
    + by apply (resolve_keeps fs).
    + by apply (kd_dirs _ _ Hkeeps).
    + intros j Hj. unfold fs1. rewrite node_at_set_node by done.
      case_decide; [done|]. apply Hentries. by right.
    + done.
    + exists fs'. rewrite Hrun. by rewrite <-app_assoc.
Qed.

Lemma chunk_loop_succeeds_dir rng output_files fs :
  contains "/" prefix = false →
  is_dir fs output_dir = true →
  (∀ i, i ∈ rng → is_dir fs (output_path i) = false) →
  (∀ loc text, fs_write_error fs loc text = None) →
  ∃ fs',
    chunk_loop cidrs output_dir chunk_size prefix false rng output_files fs
    = (inr (output_files ++ (output_path <$> rng))%list, fs').
Proof.
  intros Hprefix Hdir Hfree Hallowed. unfold is_dir, stat in Hdir.
  destruct (resolve fs (pathlib.Path output_dir)) as [e|dloc] eqn:Hres;
    [done|].
  destruct (node_at fs dloc) as [[text|]|] eqn:Hnode; [done| |done].
  apply (chunk_loop_succeeds _ _ _ dloc); [done|done|done| |done].
  intros i Hi Hentry. specialize (Hfree i Hi). revert Hfree.
  unfold is_dir, stat. rewrite output_path_plain by done.
  unfold resolve, pathlib.child in *. simpl. rewrite walk_app, Hres. simpl.
  unfold step. rewrite Hnode.
  rewrite (proj2 (eqs_false _ "..") (part_name_not_dotdot prefix i)).
  by rewrite Hentry.
Qed.

End loop.
End chunk_facts.

(** ** The parsers: what they keep *)

Section parser_facts.
Import ipaddress fetch.

Lemma parse_tor_exit_keeps content line t :
  line ∈ Py.split Py.LF content →
  Py.startswith "ExitAddress " line = true →
  Py.split_ws line !! 1%nat = Some t →
  (t ++ "/32") ∈ parse_tor_exit content.
Proof.
  intros Hline Hstart Ht. unfold parse_tor_exit.
  apply list_elem_of_omap. exists line. split; [done|].
  rewrite Hstart.
  assert (2 ≤ length (Py.split_ws line))%nat as Hlen.
  { apply lookup_lt_Some in Ht. lia. }
  apply Nat.leb_le in Hlen. by rewrite Hlen, Ht.
Qed.

Lemma parse_linode_text_valid ip_network content cidr :
  cidr ∈ parse_linode_text ip_network content →
  ∃ network, ip_network cidr = inr network ∧ version network = 4.
Proof.
  unfold parse_linode_text.
  intros (line & _ & Hkeep)%list_elem_of_omap.
  destruct (blank_or_comment (Py.strip line)); [done|].
  destruct (Py.split "," (Py.strip line)) as [|part0 parts]; [done|].
  destruct (ip_network (Py.strip part0)) as [e|network] eqn:Hnet; [done|].
  destruct (version network =? 4) eqn:Hv; [|done].
  injection Hkeep as <-. exists network. split; [done|].
  by apply Z.eqb_eq.
Qed.

Lemma parse_vultr_html_valid ip_network findall_cidr_pattern content cidr :
  cidr ∈ parse_vultr_html ip_network findall_cidr_pattern content →
  ∃ network, ip_network cidr = inr network.
Proof.
  unfold parse_vultr_html.
  rewrite elem_of_elements, elem_of_list_to_set, list_elem_of_filter.
  intros [Hnet _]. unfold is_network in Hnet.
  destruct (ip_network cidr) as [e|network]; [done|]. by exists network.
Qed.

(** On text free of line breaks, reading back what [render] wrote gives
    the entries, each with its terminator. *)
Lemma readlines_cons_line entry text :
  no_line_break entry = true →
  Py.readlines (entry ++ Py.nl ++ text) = (entry ++ Py.nl) :: Py.readlines text.
Proof.
  induction entry as [|c entry IH]; intros Hfree.
  - reflexivity.
  - simpl in Hfree. apply andb_prop in Hfree as [Hc Hfree].
    apply andb_prop in Hc as [Hlf Hcr].
    apply negb_true_iff in Hlf, Hcr.
    rewrite !append_cons. simpl. rewrite Hlf, Hcr.
    by rewrite (IH Hfree).
Qed.

Lemma readlines_render entries :
  Forall (λ entry, no_line_break entry = true) entries →
  Py.readlines (render entries) = (λ entry, entry ++ Py.nl) <$> entries.
Proof.
  induction 1 as [|entry entries Hfree _ IH]; [done|].
  simpl. rewrite readlines_cons_line by done. by rewrite IH.
Qed.

End parser_facts.

(** A filter keeps the length exactly when it keeps every element. *)
Lemma filter_length_all {A} (P : A → Prop) `{!∀ x, Decision (P x)} (l : list A) :
  length (filter P l) = length l ↔ Forall P l.
Proof.
  split.
  - intros Hlen. apply Forall_forall. intros x Hx.
    destruct (decide (P x)) as [|Hnot]; [done|].
    pose proof (length_filter_lt P l x Hx Hnot). lia.
  - induction 1 as [|x l Hx _ IH]; [done|].
    rewrite filter_cons_True by done. simpl. by rewrite IH.
Qed.

(** ** The chunker: what is read and what is written *)

Section chunk_entries.
Import Py chunk.
Import fetch (no_line_break).

(** An entry as [read_cidrs] returns them: stripped, neither blank nor a
    comment, on one line. *)
Definition clean_entry (entry : string) : Prop :=
  strip entry = entry ∧ blank_or_comment entry = false ∧
  no_line_break entry = true.

(** The text a line of a file carries before its terminator, if it has
    one. *)
Definition line_of (body l : string) : Prop :=
  no_line_break body = true ∧ (l = body ++ nl ∨ l = body).

Lemma readlines_CR r :
  readlines (String CR r) =
    nl :: readlines (match r with
                     | String c r' => if Ascii.eqb c LF then r' else r
                     | EmptyString => r
                     end).
Proof.
  destruct r as [|c r']; [done|].
  by destruct c as [[] [] [] [] [] [] [] []].
Qed.

Lemma no_line_break_cons c s :
  no_line_break (String c s) = true ↔
  Ascii.eqb c LF = false ∧ Ascii.eqb c CR = false ∧ no_line_break s = true.
Proof.
  simpl. rewrite !andb_true_iff, !negb_true_iff. tauto.
Qed.

(** Every line a file yields is text free of line breaks, followed by a
    line feed unless it is the last line. *)
Lemma readlines_lines text :
  Forall (λ l, ∃ body, line_of body l) (readlines text).
Proof.
  remember (String.length text) as n eqn:Hn.
  revert text Hn. induction (lt_wf n) as [n _ IH]. intros text ->.
  destruct text as [|c r]; [constructor|].
  destruct (Ascii.eqb c LF) eqn:Hlf.
  { simpl. rewrite Hlf. constructor.
    - exists "". split; [done|by left].
    - eapply IH; [|done]. simpl. lia. }
  destruct (Ascii.eqb c CR) eqn:Hcr.
  { apply Ascii.eqb_eq in Hcr as ->. rewrite readlines_CR. constructor.
    - exists "". split; [done|by left].
    - eapply IH; [|done]. simpl.
      destruct r as [|c' r']; simpl; [lia|].
      destruct (Ascii.eqb c' LF); simpl; lia. }
  simpl. rewrite Hlf, Hcr.
  assert (Forall (λ l, ∃ body, line_of body l) (readlines r)) as Hr.
  { eapply IH; [|done]. simpl. lia. }
  destruct (readlines r) as [|l ls].
  - constructor; [|constructor]. exists (String c "").
    split; [by apply no_line_break_cons|by right].
  - apply Forall_cons in Hr as [(body & Hbody & Hl) Hls].
    constructor; [|done]. exists (String c body).
    split; [by apply no_line_break_cons|].
    destruct Hl as [-> | ->]; [by left|by right].
Qed.

Lemma no_line_break_lstrip s :
  no_line_break s = true → no_line_break (lstrip s) = true.
Proof.
  induction s as [|c r IH]; [done|]. intros Hs. simpl.
  destruct (isspace c); [|done].
  apply IH. by apply no_line_break_cons in Hs as (_ & _ & ?).
Qed.

Lemma no_line_break_rstrip s :
  no_line_break s = true → no_line_break (rstrip s) = true.
Proof.
  induction s as [|c r IH]; [done|]. intros Hs. simpl.
  apply no_line_break_cons in Hs as (Hlf & Hcr & Hr).
  destruct (isspace c && eqs (rstrip r) ""); [done|].
  apply no_line_break_cons. auto.
Qed.

Lemma rstrip_append_nl s : rstrip (s ++ nl) = rstrip s.
Proof.
  induction s as [|c r IH]; [done|].
  rewrite append_cons. simpl. by rewrite IH.
Qed.

Lemma lstrip_append_nl s :
  lstrip (s ++ nl) = if eqs (lstrip s) "" then "" else lstrip s ++ nl.
Proof.
  induction s as [|c r IH]; [done|].
  rewrite append_cons. simpl. destruct (isspace c); [done|].
  by rewrite append_cons.
Qed.

(** The terminator of a line does not survive [strip]. *)
Lemma strip_append_nl s : strip (s ++ nl) = strip s.
Proof.
  unfold strip. rewrite lstrip_append_nl.
  destruct (eqs (lstrip s) "") eqn:Hempty.
  - apply eqs_true in Hempty. by rewrite Hempty.
  - apply rstrip_append_nl.
Qed.

Lemma strip_line body l :
  line_of body l → strip l = strip body ∧ no_line_break (strip l) = true.
Proof.
  intros [Hbody Hl].
  assert (strip l = strip body) as ->.
  { destruct Hl as [-> | ->]; [apply strip_append_nl|done]. }
  split; [done|]. by apply no_line_break_rstrip, no_line_break_lstrip.
Qed.

Lemma cidrs_of_lines_clean text :
  Forall clean_entry (cidrs_of_lines (readlines text)).
Proof.
  unfold cidrs_of_lines. apply Forall_forall. intros entry.
  rewrite list_elem_of_filter, list_elem_of_fmap.
  intros [Hkept (l & -> & Hl)].
  pose proof (readlines_lines text) as Hlines.
  rewrite Forall_forall in Hlines. destruct (Hlines l Hl) as [body Hbody].
  split; [apply strip_idem|]. split; [done|].
  by apply (strip_line body l).
Qed.

(** Written one per line and read back, clean entries are what they
    were. *)
Lemma cidrs_of_lines_render entries :
  Forall clean_entry entries →
  cidrs_of_lines (readlines (render entries)) = entries.
Proof.
  intros Hclean. rewrite readlines_render.
  - unfold cidrs_of_lines. rewrite <-list_fmap_compose.
    induction Hclean as [|entry entries (Hstrip & Hkept & _) _ IH]; [done|].
    rewrite fmap_cons. simpl. rewrite strip_append_nl, Hstrip.
    rewrite filter_cons_True by done. by rewrite IH.
  - eapply Forall_impl; [exact Hclean|]. by intros entry (_ & _ & ?).
Qed.

End chunk_entries.

Section chunk_runs.
Import Py chunk.

Lemma read_cidrs_inr fs filepath cidrs :
  read_cidrs fs filepath = inr cidrs →
  ∃ text, read_text fs filepath = inr text ∧
          cidrs = cidrs_of_lines (readlines text) ∧
          Forall clean_entry cidrs.
Proof.
  unfold read_cidrs, open_r.
  destruct (read_text fs filepath) as [e|text]; [done|].
  intros [= <-]. exists text. split; [done|]. split; [done|].
  apply cidrs_of_lines_clean.
Qed.

(** A file that reads as the rendering of clean entries gives these
    entries to [read_cidrs]. *)
Lemma read_cidrs_render fs filepath entries :
  Forall clean_entry entries →
  read_text fs filepath = inr (render entries) →
  read_cidrs fs filepath = inr entries.
Proof.
  intros Hclean Htext. unfold read_cidrs, open_r. rewrite Htext.
  by rewrite cidrs_of_lines_render.
Qed.

(** With entries and a chunk size other than zero [chunk_file] is its
    loop. *)
Lemma chunk_file_loop fs input_path output_dir chunk_size prefix dry_run cidrs :
  read_cidrs fs input_path = inr cidrs →
  cidrs ≠ [] →
  chunk_size ≠ 0 →
  chunk_file input_path output_dir chunk_size prefix dry_run fs =
    chunk_loop cidrs output_dir chunk_size
      (default (pathlib.stem input_path) prefix) dry_run
      (seq 0 (Z.to_nat ((Z.of_nat (length cidrs) + chunk_size - 1)
                        / chunk_size))) [] fs.
Proof.
  intros Hread Hne Hsize. unfold chunk_file. rewrite Hread.
  rewrite bool_decide_eq_false_2 by done.
  by destruct (chunk_size =? 0) eqn:Hz; [apply Z.eqb_eq in Hz|].
Qed.

(** The chunks of the loop, for a chunk size of at least one: slices that
    put end to end give the entries. *)
Lemma chunk_cidrs_concat cidrs chunk_size :
  cidrs ≠ [] →
  1 ≤ chunk_size →
  let k := Z.to_nat ((Z.of_nat (length cidrs) + chunk_size - 1) / chunk_size) in
  (1 ≤ k)%nat ∧
  (∀ i, (i < k)%nat →
     chunk_cidrs cidrs chunk_size i
     = take (Z.to_nat chunk_size) (drop (i * Z.to_nat chunk_size) cidrs)) ∧
  concat (chunk_cidrs cidrs chunk_size <$> seq 0 k) = cidrs.
Proof.
  intros Hne HN k.
  assert (1 ≤ Z.of_nat (length cidrs)) as Hcount.
  { destruct cidrs; [done|simpl; lia]. }
  destruct (num_chunks_ceiling (Z.of_nat (length cidrs)) chunk_size HN Hcount)
    as [Hk1 [Hlo Hhi]].
  assert (Z.of_nat k = (Z.of_nat (length cidrs) + chunk_size - 1) / chunk_size)
    as Hk by (unfold k; lia).
  rewrite <-Hk in Hk1, Hlo, Hhi.
  assert (∀ i, (i < k)%nat →
            chunk_cidrs cidrs chunk_size i
            = take (Z.to_nat chunk_size)
                (drop (i * Z.to_nat chunk_size) cidrs)) as Hchunk.
  { intros i Hi. apply chunk_cidrs_take; [done|nia]. }
  split; [lia|]. split; [done|].
  rewrite (list_fmap_ext _
             (λ i, take (Z.to_nat chunk_size)
                     (drop (i * Z.to_nat chunk_size) cidrs))).
  - apply concat_chunks. nia.
  - intros j i Hi. apply lookup_seq in Hi as [-> Hi]. by apply Hchunk.
Qed.

Lemma chunk_cidrs_clean cidrs chunk_size i :
  Forall clean_entry cidrs → Forall clean_entry (chunk_cidrs cidrs chunk_size i).
Proof.
  intros Hclean. unfold chunk_cidrs, py_slice. by apply Forall_take, Forall_drop.
Qed.

End chunk_runs.

(** ** The chunker: the claims *)

Section chunker_claims.
Import Py chunk.

(** A source list of five entries, a comment and a blank line. *)
Definition five_entries_fs : filesystem :=
  filesystem_of
    [(["tor.txt"; "providers"; "lists"],
      "# exits" ++ Py.nl ++ "1.1.1.1/32" ++ Py.nl ++ "2.2.2.2/32" ++ Py.nl
      ++ Py.nl ++ "3.3.3.3/32" ++ Py.nl ++ "4.4.4.4/32" ++ Py.nl
      ++ "5.5.5.5/32" ++ Py.nl)] [].

(** [path.name] is the last part of [Path(path)]. *)
Lemma filter_split_lstrip_sep s :
  filter (λ c, c ≠ "" ∧ c ≠ ".") (split "/" (pathlib.lstrip_sep s))
  = filter (λ c, c ≠ "" ∧ c ≠ ".") (split "/" s).
Proof.
  induction s as [|c r IH]; [done|].
  assert (c = "/"%char ∨ c ≠ "/"%char) as [->|Hc].
  { destruct (decide (c = "/"%char)); auto. }
  - change (pathlib.lstrip_sep (String "/" r)) with (pathlib.lstrip_sep r).
    rewrite split_cons_sep, filter_cons_False by (intros [? _]; done).
    exact IH.
  - replace (pathlib.lstrip_sep (String c r)) with (String c r); [done|].
    apply eq_sym, lstrip_sep_relative. by intros ? ? [= <- <-].
Qed.

Lemma name_Path path :
  pathlib.name path = default "" (last (pathlib.parts (pathlib.Path path))).
Proof.
  unfold pathlib.name, pathlib.Path, pathlib.splitroot.
  destruct path as [|c r]; [done|].
  assert (c = "/"%char ∨ c ≠ "/"%char) as [->|Hc].
  { destruct (decide (c = "/"%char)); auto. }
  - cbv zeta. destruct (_ =? 2)%nat; simpl pathlib.parts;
      by rewrite filter_split_lstrip_sep.
  - destruct c as [[] [] [] [] [] [] [] []]; done.
Qed.

(** The name of a chunk file, for a prefix that is a plain name. *)
Lemma output_path_name output_dir prefix i :
  contains "/" prefix = false →
  pathlib.name (output_path output_dir prefix i) = output_filename prefix i.
Proof.
  intros Hprefix. rewrite name_Path. unfold output_path.
  rewrite Path_joinpath. unfold pathlib.truediv.
  rewrite output_filename_suffix.
  rewrite Path_app by (apply part_suffix_no_sep || apply part_suffix_length).
  assert (pathlib.splitroot prefix = ("", prefix)) as ->.
  { apply splitroot_relative. intros c r -> ->. simpl in Hprefix. done. }
  simpl. rewrite split_no_sep_id by done. simpl.
  by rewrite last_snoc.
Qed.

(** C2. For a source with at least one entry and a chunk size of at least
    one, [chunk_file] makes [k] chunks where [k] is the ceiling of
    count / size; chunk [i] is the slice of at most [size] consecutive
    entries starting at [i * size], never empty; the chunks put end to end
    are the entries.  The paths are
    [output_dir / {prefix}-part-{i+1 on three digits}.txt] in order, all
    different, and that is the name of the file when the prefix is a plain
    name: a dry run returns them, and a real run that returns has
    returned them and has left each file holding its chunk, one entry per
    line.  The real run returns when the prefix is a plain name, the
    output directory is there, no chunk path is a directory and no write
    is refused; it raises when the directory cannot be made or a file
    cannot be written.  With 4500 entries and size 2000 there are three chunks of 2000,
    2000 and 500 entries, named -part-001, -part-002 and -part-003. *)
Theorem chunk_file_partition (fs : filesystem) (input_path output_dir : string)
    (chunk_size : Z) (prefix : option string) (cidrs : list string) :
  read_cidrs fs input_path = inr cidrs →
  cidrs ≠ [] →
  1 ≤ chunk_size →
  let n := Z.to_nat chunk_size in
  let count := length cidrs in
  let k := Z.to_nat ((Z.of_nat count + chunk_size - 1) / chunk_size) in
  let pfx := default (pathlib.stem input_path) prefix in
  let name i := pfx ++ "-part-" ++ format_03d (i + 1) ++ ".txt" in
  let path i := pathlib.joinpath output_dir (name i) in
  let chunk i := take n (drop (i * n) cidrs) in
  ((k - 1) * n < count ∧ count ≤ k * n)%nat ∧
  (∀ i, (i < k)%nat →
     chunk_cidrs cidrs chunk_size i = chunk i ∧
     (1 ≤ length (chunk i) ∧ length (chunk i) ≤ n)%nat) ∧
  concat (chunk <$> seq 0 k) = cidrs ∧
  chunk_file input_path output_dir chunk_size prefix true fs
    = (inr (path <$> seq 0 k), fs) ∧
  (∀ output_files fs',
     chunk_file input_path output_dir chunk_size prefix false fs
       = (inr output_files, fs') →
     output_files = path <$> seq 0 k ∧
     ∀ i, (i < k)%nat →
       read_text fs' (path i) = inr (render (chunk i)) ∧
       read_cidrs fs' (path i) = inr (chunk i)) ∧
  (contains "/" pfx = false →
   is_dir fs output_dir = true →
   (∀ i, (i < k)%nat → is_dir fs (path i) = false) →
   (∀ loc text, fs_write_error fs loc text = None) →
   ∃ fs',
     chunk_file input_path output_dir chunk_size prefix false fs
     = (inr (path <$> seq 0 k), fs')) ∧
  (∀ i j, path i = path j → i = j) ∧
  (contains "/" pfx = false → ∀ i, pathlib.name (path i) = name i) ∧
  (count = 4500%nat → chunk_size = 2000 →
     k = 3%nat ∧
     length <$> (chunk <$> seq 0 k) = [2000; 2000; 500]%nat ∧
     name <$> seq 0 k = [pfx ++ "-part-001.txt"; pfx ++ "-part-002.txt";
                         pfx ++ "-part-003.txt"]).
Proof.
  intros Hread Hne HN n count k pfx name path chunk.
  assert (1 ≤ Z.of_nat count) as Hcount.
  { unfold count. destruct cidrs; [done|simpl; lia]. }
  destruct (num_chunks_ceiling (Z.of_nat count) chunk_size HN Hcount)
    as [Hk1 [Hlo Hhi]].
  fold (Z.of_nat count) in *.
  assert (Z.of_nat k = (Z.of_nat count + chunk_size - 1) / chunk_size) as Hk
    by (unfold k; lia).
  rewrite <-Hk in Hk1, Hlo, Hhi.
  assert (Z.of_nat n = chunk_size) as Hn by (unfold n; lia).
  assert (∀ i, (i < k)%nat → chunk_cidrs cidrs chunk_size i = chunk i) as Hchunk.
  { intros i Hi. apply chunk_cidrs_take; [done|]. fold count. nia. }
  assert (Forall clean_entry cidrs) as Hclean.
  { revert Hread. unfold read_cidrs, open_r.
    destruct (read_text fs input_path) as [e|text]; [done|].
    intros [= <-]. apply cidrs_of_lines_clean. }
  assert (∀ dry_run,
            chunk_file input_path output_dir chunk_size prefix dry_run fs
            = chunk_loop cidrs output_dir chunk_size pfx dry_run (seq 0 k) []
                fs) as Hrun.
  { intros dry_run. unfold chunk_file. rewrite Hread.
    rewrite bool_decide_eq_false_2 by done.
    destruct (chunk_size =? 0) eqn:Hz; [apply Z.eqb_eq in Hz; lia|].
    done. }
  split; [nia|]. split; [|split; [|split; [|split; [|split; [|split; [|split]]]]]].
  - intros i Hi. split; [by apply Hchunk|].
    unfold chunk. rewrite length_take, length_drop. fold count. nia.
  - apply concat_chunks. fold count. nia.
  - rewrite Hrun. apply chunk_loop_dry.
  - intros output_files fs'. rewrite Hrun.
    intros (-> & _ & _ & Hfiles)%chunk_loop_real.
    split; [done|]. intros i Hi.
    assert (read_text fs' (path i) = inr (render (chunk i))) as Htext.
    { rewrite <-Hchunk by done.
      apply (Hfiles (NoDup_seq 0 k)), elem_of_seq. lia. }
    split; [done|]. unfold read_cidrs, open_r. rewrite Htext.
    rewrite cidrs_of_lines_render; [done|].
    by apply Forall_take, Forall_drop.
  - intros Hpfx Hdir Hfree Hallowed. rewrite Hrun.
    apply (chunk_loop_succeeds_dir cidrs output_dir chunk_size pfx
             (seq 0 k) [] fs); [done|done| |done].
    intros i Hi. apply Hfree. apply elem_of_seq in Hi. lia.
  - apply output_path_inj.
  - intros Hpfx i. by apply output_path_name.
  - intros Hc HN'.
    assert (k = 3%nat) as Hk3.
    { apply Nat2Z.inj. rewrite Hk, Hc, HN'. reflexivity. }
    assert (n = 2000%nat) as Hn2 by lia.
    split; [done|]. rewrite Hk3. split; [|reflexivity].
    unfold chunk. simpl. rewrite !length_take, !length_drop. fold count.
    rewrite Hc, Hn2. reflexivity.
Qed.

(** C2, on a list of five entries cut by two: three files, written by
    the real run. *)
Lemma chunk_file_partition_witness :
  chunk_file "lists/providers/tor.txt" "lists/chunks/tor" 2 None true
    five_entries_fs
  = (inr ["lists/chunks/tor/tor-part-001.txt";
          "lists/chunks/tor/tor-part-002.txt";
          "lists/chunks/tor/tor-part-003.txt"], five_entries_fs) ∧
  ∃ fs',
    chunk_file "lists/providers/tor.txt" "lists/chunks/tor" 2 None false
      five_entries_fs
    = (inr ["lists/chunks/tor/tor-part-001.txt";
            "lists/chunks/tor/tor-part-002.txt";
            "lists/chunks/tor/tor-part-003.txt"], fs') ∧
    read_text fs' "lists/chunks/tor/tor-part-003.txt"
      = inr ("5.5.5.5/32" ++ Py.nl).
Proof.
  destruct (chunk_file_partition five_entries_fs "lists/providers/tor.txt"
              "lists/chunks/tor" 2 None
              ["1.1.1.1/32"; "2.2.2.2/32"; "3.3.3.3/32"; "4.4.4.4/32";
               "5.5.5.5/32"] eq_refl ltac:(discriminate) ltac:(lia))
    as (_ & _ & _ & Hdry & Hreal & _ & _).
  split; [exact Hdry|].
  destruct (chunk_file "lists/providers/tor.txt" "lists/chunks/tor" 2 None
              false five_entries_fs) as [[e|output_files] fs'] eqn:Hrun.
  { exfalso. revert Hrun. vm_compute. discriminate. }
  destruct (Hreal output_files fs' eq_refl) as [-> Hfiles].
  exists fs'. split; [reflexivity|].
  exact (proj1 (Hfiles 2%nat ltac:(vm_compute; lia))).
Defined.

(** C8, amended.  A dry run changes nothing.  Whenever the real run
    returns, the dry run returns the same paths, in the same order, and
    the real run has written every one of them; when the dry run raises
    (the source cannot be read, or the chunk size is zero), the real run
    raises the same exception and changes nothing either; and the real run
    returns the paths of the dry run when the prefix is a plain name, the
    output directory is there, none of these paths is a directory and no
    write is refused. *)
Theorem chunk_file_dry_run (input_path output_dir : string) (chunk_size : Z)
    (prefix : option string) (fs : filesystem) :
  (chunk_file input_path output_dir chunk_size prefix true fs).2 = fs ∧
  (∀ output_files fs',
     chunk_file input_path output_dir chunk_size prefix false fs
       = (inr output_files, fs') →
     chunk_file input_path output_dir chunk_size prefix true fs
       = (inr output_files, fs) ∧
     Forall (λ path, is_file fs' path = true) output_files) ∧
  (∀ e,
     (chunk_file input_path output_dir chunk_size prefix true fs).1 = inl e →
     chunk_file input_path output_dir chunk_size prefix false fs = (inl e, fs)) ∧
  (∀ output_files,
     (chunk_file input_path output_dir chunk_size prefix true fs).1
       = inr output_files →
     contains "/" (default (pathlib.stem input_path) prefix) = false →
     is_dir fs output_dir = true →
     Forall (λ path, is_dir fs path = false) output_files →
     (∀ loc text, fs_write_error fs loc text = None) →
     ∃ fs',
       chunk_file input_path output_dir chunk_size prefix false fs
       = (inr output_files, fs')).
Proof.
  unfold chunk_file.
  destruct (read_cidrs fs input_path) as [e|cidrs].
  { split; [done|]. split; [done|]. split; [by intros e' [= <-]|done]. }
  case_bool_decide.
  { split; [done|]. split; [|split; [done|]].
    - intros ? ? [= <- <-]. by split.
    - intros ? [= <-] _ _ _ _. by exists fs. }
  destruct (chunk_size =? 0).
  { split; [done|]. split; [done|]. split; [by intros e' [= <-]|done]. }
  rewrite chunk_loop_dry. split; [done|]. split; [|split; [done|]].
  - intros output_files fs' (-> & _ & _ & Hfiles)%chunk_loop_real.
    split; [done|]. simpl. apply Forall_fmap, Forall_forall.
    intros i Hi. apply is_file_read_text. eexists.
    by apply (Hfiles (NoDup_seq _ _)).
  - intros output_files [= <-] Hprefix Hdir Hfree Hallowed.
    apply chunk_loop_succeeds_dir; [done|done| |done].
    intros i Hi. rewrite Forall_forall in Hfree. apply Hfree. simpl.
    apply list_elem_of_fmap. by exists i.
Qed.

(** C8, amended, on the list of five entries cut by two into the
    directory it lies in: the real run returns the three paths of the dry
    run. *)
Lemma chunk_file_dry_run_witness :
  ∃ fs',
    chunk_file "lists/providers/tor.txt" "lists/providers" 2 None false
      five_entries_fs
    = (inr ["lists/providers/tor-part-001.txt";
            "lists/providers/tor-part-002.txt";
            "lists/providers/tor-part-003.txt"], fs').
Proof.
  apply (proj2 (proj2 (proj2
           (chunk_file_dry_run "lists/providers/tor.txt" "lists/providers" 2
              None five_entries_fs)))).
  - reflexivity.
  - reflexivity.
  - reflexivity.
  - by repeat constructor.
  - done.
Defined.

(** A source of one entry, which is also given as the output
    directory. *)
Definition one_list_fs : filesystem :=
  filesystem_of [(["a.txt"], "10.0.0.0/8" ++ Py.nl)] [].

(** C8 as stated fails when the directory of the chunk files cannot be
    made: with the output directory an existing regular file the dry run
    returns a path and the real run raises [FileExistsError]. *)
Lemma chunk_file_dry_run_output_file :
  chunk_file "a.txt" "a.txt" 5 None true one_list_fs
    = (inr ["a.txt/a-part-001.txt"], one_list_fs) ∧
  chunk_file "a.txt" "a.txt" 5 None false one_list_fs
    = (inl FileExistsError, one_list_fs).
Proof. split; reflexivity. Qed.

End chunker_claims.

(** ** The fetcher *)

Section fetch_facts.
Import ipaddress fetch.
Variable ip_network : ip_network_t.
Variable findall_cidr_pattern : string → list string.
Variable json_loads : string → exn + json.
Variable sorted_set_other : list json → exn + list json.
Variable str_other : json → string.
Variable urlopen : list string → string → exn + string.

Local Abbreviation PARSERS :=
  (PARSERS ip_network findall_cidr_pattern json_loads).
Local Abbreviation sorted_set := (fetch.sorted_set sorted_set_other).
Local Abbreviation format_value := (fetch.format_value str_other).
Local Abbreviation fetch_provider :=
  (fetch_provider ip_network findall_cidr_pattern json_loads sorted_set_other
     str_other urlopen).
Local Abbreviation fetch_loop :=
  (fetch_loop ip_network findall_cidr_pattern json_loads sorted_set_other
     str_other urlopen).
Local Abbreviation run_all :=
  (run_all ip_network findall_cidr_pattern json_loads sorted_set_other
     str_other urlopen).
Local Abbreviation main :=
  (main ip_network findall_cidr_pattern json_loads sorted_set_other
     str_other urlopen).

(** The world after the request for [url]. *)
Definition requested (url : string) (w : world) : world :=
  {| w_fs := w_fs w; w_requests := w_requests w ++ [url] |}.

(** What a provider's parser makes of the response to its request. *)
Definition parsed (config : provider) (w : world) : exn + list json :=
  match urlopen (w_requests w) (url config) with
  | inl e => inl e
  | inr content =>
      match dict_get PARSERS (parser config) with
      | None => inl (OtherException (parser config))
      | Some p => p content
      end
  end.

(** The entries to write, sorted and without duplicates, when the
    response was received and parsed, holds at least one entry, and the
    entries could be sorted. *)
Definition to_write (config : provider) (w : world) : option (list json) :=
  match parsed config w with
  | inr cidrs =>
      if bool_decide (cidrs = []) then None
      else match sorted_set cidrs with
           | inr sorted => Some sorted
           | inl _ => None
           end
  | inl _ => None
  end.

(** What is parsed depends on the requests made so far, not on the
    files. *)
Lemma parsed_requests config w1 w2 :
  w_requests w1 = w_requests w2 → parsed config w1 = parsed config w2.
Proof. unfold parsed. by intros ->. Qed.

Lemma to_write_requests config w1 w2 :
  w_requests w1 = w_requests w2 → to_write config w1 = to_write config w2.
Proof. intros Hreq. unfold to_write. by rewrite (parsed_requests _ _ _ Hreq). Qed.

(** *** Entries that are strings *)

Lemma as_strings_fmap (l : list string) :
  as_strings (JString <$> l) = Some l.
Proof.
  unfold as_strings. induction l as [|x l IH]; [done|].
  rewrite fmap_cons. cbn [mapM]. rewrite IH. done.
Qed.

Lemma format_value_fmap (l : list string) :
  format_value <$> (JString <$> l) = l.
Proof. induction l as [|x l IH]; [done|]. csimpl. by rewrite IH. Qed.

Lemma sorted_set_strings (l : list string) :
  sorted_set (JString <$> l) = inr (JString <$> Py.sorted_set (list_to_set l)).
Proof. unfold fetch.sorted_set. by rewrite as_strings_fmap. Qed.

Lemma to_write_strings config w cidrs :
  parsed config w = inr (JString <$> cidrs) →
  cidrs ≠ [] →
  to_write config w = Some (JString <$> Py.sorted_set (list_to_set cidrs)).
Proof.
  intros Hparsed Hne. unfold to_write. rewrite Hparsed.
  rewrite bool_decide_eq_false_2 by (by destruct cidrs).
  by rewrite sorted_set_strings.
Qed.

(** [fetch_provider] never raises.  An unknown name makes no request; a
    known one makes one request, and the directory is made and the file
    written only when there are entries to write and the run is not dry;
    the fetch then succeeds when the write does. *)
Lemma fetch_provider_run name dry_run w :
  fetch_provider name dry_run w =
    match dict_get PROVIDERS name with
    | None => (inr (false, 0%nat), w)
    | Some config =>
        match to_write config w with
        | None => (inr (false, 0%nat), requested (url config) w)
        | Some sorted =>
            if dry_run
            then (inr (true, length sorted), requested (url config) w)
            else
              let written :=
                write_lines (output config)
                  (render (format_value <$> sorted)) (w_fs w) in
              (inr (match written.1 with
                    | inr _ => (true, length sorted)
                    | inl _ => (false, 0%nat)
                    end),
               {| w_fs := written.2;
                  w_requests := w_requests w ++ [url config] |})
        end
    end.
Proof.
  unfold fetch.fetch_provider, to_write, parsed.
  destruct (dict_get PROVIDERS name) as [config|]; [|done].
  unfold try_except, bind, fetch_url, lift, ret, write_file, requested.
  destruct (urlopen (w_requests w) (url config)) as [e|content]; simpl.
  { by destruct e. }
  destruct (dict_get PARSERS (parser config)) as [p|]; simpl; [|done].
  destruct (p content) as [e|cidrs]; simpl.
  { by destruct e. }
  case_bool_decide; [done|].
  destruct (sorted_set cidrs) as [e|sorted]; simpl.
  { by destruct e. }
  destruct dry_run; [done|]. simpl.
  destruct (write_lines _ _ _) as [[e|[]] fs']; simpl; [by destruct e|done].
Qed.

Lemma fetch_provider_total name dry_run w :
  ∃ o, (fetch_provider name dry_run w).1 = inr o.
Proof.
  rewrite fetch_provider_run.
  destruct (dict_get PROVIDERS name) as [config|]; [|by eexists].
  destruct (to_write config w) as [sorted|]; [|by eexists].
  destruct dry_run; by eexists.
Qed.

Lemma fetch_provider_requests name dry_run w :
  w_requests (fetch_provider name dry_run w).2 =
    (w_requests w ++ option_list (url_of name))%list.
Proof.
  rewrite fetch_provider_run. unfold url_of.
  destruct (dict_get PROVIDERS name) as [config|]; simpl;
    [|by rewrite app_nil_r].
  destruct (to_write config w) as [sorted|]; [|done].
  by destruct dry_run.
Qed.

(** The loop of [main] is [run_all]: it counts the successes and adds up
    their sizes, and no provider stops it. *)
Lemma fetch_loop_run names dry_run success_count total_cidrs w :
  fetch_loop names dry_run success_count total_cidrs w =
    (inr ((success_count
           + length (filter (λ o, o.1 = true) (run_all names dry_run w).1))%nat,
          (total_cidrs
           + sum_list ((λ o, o.2) <$>
               filter (λ o, o.1 = true) (run_all names dry_run w).1))%nat),
     (run_all names dry_run w).2).
Proof.
  revert success_count total_cidrs w.
  induction names as [|name rest IH]; intros success_count total_cidrs w.
  - simpl. unfold ret. by rewrite !Nat.add_0_r.
  - simpl. unfold bind.
    destruct (fetch_provider_total name dry_run w) as [[success count] Ho].
    destruct (fetch_provider name dry_run w) as [r w1]. simpl in Ho.
    subst r. simpl. destruct success.
    + rewrite IH. rewrite filter_cons_True by done. simpl.
      by rewrite Nat.add_succ_r, Nat.add_assoc.
    + rewrite IH. by rewrite filter_cons_False by done.
Qed.

Lemma run_all_length names dry_run w :
  length (run_all names dry_run w).1 = length names.
Proof.
  revert w. induction names as [|name rest IH]; intros w; simpl; [done|].
  by rewrite IH.
Qed.

Lemma run_all_requests names dry_run w :
  w_requests (run_all names dry_run w).2 =
    (w_requests w ++ omap url_of names)%list.
Proof.
  revert w. induction names as [|name rest IH]; intros w; simpl.
  - by rewrite app_nil_r.
  - rewrite IH, fetch_provider_requests, <-app_assoc.
    by destruct (url_of name).
Qed.

Lemma run_all_app l1 l2 dry_run w :
  run_all (l1 ++ l2) dry_run w =
    (((run_all l1 dry_run w).1
      ++ (run_all l2 dry_run (run_all l1 dry_run w).2).1)%list,
     (run_all l2 dry_run (run_all l1 dry_run w).2).2).
Proof.
  revert w. induction l1 as [|name l1 IH]; intros w; simpl.
  - by destruct (run_all l2 dry_run w).
  - by rewrite IH.
Qed.

(** *** The output files *)

Lemma dict_get_elem_of {V} (d : dict V) key v :
  dict_get d key = Some v → (key, v) ∈ d.
Proof.
  unfold dict_get. intros ([i [k v']] & Hfind & [= <-])%bind_Some.
  apply list_find_Some in Hfind as (Hlook & Hkey & _). simpl in *. subst.
  by eapply list_elem_of_lookup_2.
Qed.

(** The output file of a provider is an entry of [lists/providers] named
    after it. *)
Lemma output_child name config :
  dict_get PROVIDERS name = Some config →
  pathlib.Path (output config)
  = pathlib.child (pathlib.Path "lists/providers") (pathlib.name (output config))
  ∧ pathlib.name (output config) ≠ "..".
Proof.
  intros Hin%dict_get_elem_of. unfold PROVIDERS in Hin.
  repeat (apply elem_of_cons in Hin as [[= -> ->]|Hin]; [by split|]).
  by apply elem_of_nil in Hin.
Qed.

(** With the directory [lists/providers] there, the output file of a
    provider is written when it is no directory and the write is not
    refused. *)
Lemma output_written name config text fs :
  dict_get PROVIDERS name = Some config →
  is_dir fs "lists/providers" = true →
  is_dir fs (output config) = false →
  (∀ loc text, fs_write_error fs loc text = None) →
  (write_lines (output config) text fs).1 = inr ().
Proof.
  intros Hname Hdir Hfree Hallowed.
  destruct (output_child _ _ Hname) as [Hpath Hdots].
  destruct (write_lines_in_dir (output config) text fs "lists/providers"
              (pathlib.name (output config))) as [fs' ->]; done.
Qed.

(** Two providers have their output files side by side. *)
Lemma output_siblings name name' config config' :
  dict_get PROVIDERS name = Some config →
  dict_get PROVIDERS name' = Some config' →
  name ≠ name' →
  siblings (output config) (output config').
Proof.
  intros Hname Hname' Hne.
  destruct (output_child _ _ Hname) as [Hpath Hdots].
  destruct (output_child _ _ Hname') as [Hpath' Hdots'].
  exists (pathlib.Path "lists/providers"),
    (pathlib.name (output config)), (pathlib.name (output config')).
  split; [done|]. split; [done|]. split; [|done].
  apply dict_get_elem_of in Hname, Hname'. unfold PROVIDERS in *.
  repeat (apply elem_of_cons in Hname as [[= -> ->]|Hname];
          [repeat (apply elem_of_cons in Hname' as [[= -> ->]|Hname'];
                   [done|]);
           by apply elem_of_nil in Hname'|]).
  by apply elem_of_nil in Hname.
Qed.

(** The fetch of a provider leaves the list of another one as it was. *)
Lemma fetch_provider_other name name' config' dry_run w old :
  dict_get PROVIDERS name' = Some config' →
  name ≠ name' →
  read_text (w_fs w) (output config') = inr old →
  read_text (w_fs (fetch_provider name dry_run w).2) (output config') = inr old.
Proof.
  intros Hname' Hne Hold. rewrite fetch_provider_run.
  destruct (dict_get PROVIDERS name) as [config|] eqn:Hname; [|done].
  destruct (to_write config w) as [sorted|]; [|done].
  destruct dry_run; [done|]. simpl.
  destruct (write_lines (output config) (render (format_value <$> sorted))
              (w_fs w)) as [r fs'] eqn:Hwrite.
  simpl. eapply write_lines_sibling; [done| |done].
  by apply (output_siblings name name').
Qed.

Lemma run_all_other names name' config' dry_run w old :
  dict_get PROVIDERS name' = Some config' →
  name' ∉ names →
  read_text (w_fs w) (output config') = inr old →
  read_text (w_fs (run_all names dry_run w).2) (output config') = inr old.
Proof.
  intros Hname'. revert w.
  induction names as [|name rest IH]; intros w Hnotin Hold; [done|].
  apply not_elem_of_cons in Hnotin as [Hne Hrest]. simpl.
  apply IH; [done|]. by apply (fetch_provider_other name name').
Qed.

End fetch_facts.

(** ** The fetcher: the claims *)

Section fetcher_claims.
Import ipaddress fetch.

(** *** A sample world for the worked examples *)

(** The double quote, and the texts the sample endpoints answer with. *)
Definition dquote : string := String "034" "".

(** A Tor exit list with one address listed twice. *)
Definition tor_document : string :=
  "ExitNode 0011BD2485AD45D984EC4159C88FC066E5E3300E" ++ Py.nl
  ++ "ExitAddress 198.51.100.7 443" ++ Py.nl
  ++ "ExitAddress 198.51.100.7 444" ++ Py.nl
  ++ "ExitAddress 192.0.2.1 80" ++ Py.nl.

(** An OVH document, a JSON array of two strings, the first holding an
    escaped line feed: the characters [ "b\na" , "a" ]. *)
Definition ovh_document : string :=
  "[" ++ dquote ++ "b\na" ++ dquote ++ "," ++ dquote ++ "a" ++ dquote ++ "]".

(** A DigitalOcean sheet whose first row carries a carriage return inside
    its first field. *)
Definition digitalocean_document : string :=
  "z/1" ++ String Py.CR "a/1,US" ++ Py.nl ++ "a/1,US" ++ Py.nl.

(** An AWS document whose prefixes are numbers: the characters
    {"prefixes": [{"ip_prefix": 10}, {"ip_prefix": 9}]}. *)
Definition aws_numbers_document : string :=
  "{" ++ dquote ++ "prefixes" ++ dquote ++ ": [{" ++ dquote ++ "ip_prefix"
  ++ dquote ++ ": 10}, {" ++ dquote ++ "ip_prefix" ++ dquote ++ ": 9}]}".

(** [json.loads] on the JSON documents of the sample world; any other
    text is no JSON. *)
Definition example_json_loads (content : string) : exn + json :=
  if Py.eqs content ovh_document
  then inr (JArray [JString ("b" ++ Py.nl ++ "a"); JString "a"])
  else if Py.eqs content aws_numbers_document
  then inr (JObject [("prefixes",
                      JArray [JObject [("ip_prefix", JNumber "10")];
                              JObject [("ip_prefix", JNumber "9")]])])
  else inl (JSONDecodeError "Expecting value: line 1 column 1 (char 0)").

(** A page with no CIDR in it. *)
Definition example_findall (content : string) : list string := [].

(** The sample network: Tor, OVH and DigitalOcean answer, Linode answers
    with an empty sheet, AWS with a page that is no JSON, and Vultr is
    unreachable. *)
Definition example_urlopen (requests : list string) (url : string)
  : exn + string :=
  if Py.eqs url "https://check.torproject.org/exit-addresses"
  then inr tor_document
  else if Py.eqs url "https://www.ovh.com/manager/dedicated/allowerlist.json"
  then inr ovh_document
  else if Py.eqs url "https://www.digitalocean.com/geo/google.csv"
  then inr digitalocean_document
  else if Py.eqs url "https://geoip.linode.com/"
  then inr "# no prefixes"
  else if Py.eqs url "https://ip-ranges.amazonaws.com/ip-ranges.json"
  then inr "<html>Service Unavailable</html>"
  else inl (URLError "<urlopen error [Errno 111] Connection refused>").

(** In the sample world every entry is a string: the sorting and the
    formatting of other values are never called, and stand for nothing. *)
Definition example_sorted_set_other (cidrs : list json) : exn + list json :=
  inl TypeError.
Definition example_str_other (cidr : json) : string := "".

(** A world with an older Linode list on disk and no request made. *)
Definition example_world : world :=
  {| w_fs := filesystem_of
               [(["linode.txt"; "providers"; "lists"],
                 "192.0.2.0/24" ++ Py.nl)] [];
     w_requests := [] |}.

Local Abbreviation example_fetch_provider :=
  (fetch_provider example_ip_network example_findall example_json_loads
     example_sorted_set_other example_str_other example_urlopen).
Local Abbreviation example_run_all :=
  (run_all example_ip_network example_findall example_json_loads
     example_sorted_set_other example_str_other example_urlopen).
Local Abbreviation example_main :=
  (main example_ip_network example_findall example_json_loads
     example_sorted_set_other example_str_other example_urlopen).

(** [parse_aws_json] passes on what the document holds, strings or not:
    here two numbers, which [sorted] puts in numeric order. *)
Example parse_aws_json_numbers :
  parse_aws_json example_json_loads aws_numbers_document
    = inr [JNumber "10"; JNumber "9"] ∧
  as_strings [JNumber "10"; JNumber "9"] = None.
Proof. by vm_compute. Qed.

Section claims.
Variable ip_network : ip_network_t.
Variable findall_cidr_pattern : string → list string.
Variable json_loads : string → exn + json.
Variable sorted_set_other : list json → exn + list json.
Variable str_other : json → string.
Variable urlopen : list string → string → exn + string.

Local Abbreviation PARSERS :=
  (PARSERS ip_network findall_cidr_pattern json_loads).
Local Abbreviation format_value := (fetch.format_value str_other).
Local Abbreviation fetch_provider :=
  (fetch_provider ip_network findall_cidr_pattern json_loads sorted_set_other
     str_other urlopen).
Local Abbreviation run_all :=
  (run_all ip_network findall_cidr_pattern json_loads sorted_set_other
     str_other urlopen).
Local Abbreviation main :=
  (main ip_network findall_cidr_pattern json_loads sorted_set_other
     str_other urlopen).
Local Abbreviation parsed_of :=
  (parsed ip_network findall_cidr_pattern json_loads urlopen).
Local Abbreviation to_write_of :=
  (to_write ip_network findall_cidr_pattern json_loads sorted_set_other
     urlopen).

(** C6. When the parser of a provider returns the empty list, the fetch
    fails with count 0 and the file system is what it was, in a dry run or
    not. *)
Theorem fetch_provider_zero_cidrs (name : string) (config : provider)
    (dry_run : bool) (w : world) (content : string)
    (parser_fn : string → exn + list json) :
  dict_get PROVIDERS name = Some config →
  urlopen (w_requests w) (url config) = inr content →
  dict_get PARSERS (parser config) = Some parser_fn →
  parser_fn content = inr [] →
  (fetch_provider name dry_run w).1 = inr (false, 0%nat) ∧
  w_fs (fetch_provider name dry_run w).2 = w_fs w.
Proof.
  intros Hname Hurl Hparser Hempty.
  rewrite fetch_provider_run, Hname. unfold to_write, parsed.
  by rewrite Hurl, Hparser, Hempty.
Qed.

(** C7, amended.  When the fetch of a provider succeeds and its parser
    returns a list of strings that is not empty, a run that is not dry
    makes the directory of the provider's output file and writes the file,
    and it succeeds exactly when that goes through: it then returns the
    number of distinct entries, and the file holds the distinct entries in
    increasing string order, each followed by a line feed, and nothing
    else; when the directory cannot be made or the file cannot be written
    the fetch fails with count 0.  The write goes through when the
    directory [lists/providers] is there, the output file is no
    directory and no write is refused.  Either way the lists of the other
    providers stay as they were.  When no entry holds a line break, the
    lines of the text written are these entries, so no line repeats and
    the lines are in order. *)
Theorem fetch_provider_persists (name : string) (config : provider)
    (w : world) (content : string) (parser_fn : string → exn + list json)
    (cidrs : list string) :
  dict_get PROVIDERS name = Some config →
  urlopen (w_requests w) (url config) = inr content →
  dict_get PARSERS (parser config) = Some parser_fn →
  parser_fn content = inr (JString <$> cidrs) →
  cidrs ≠ [] →
  let sorted := Py.sorted_set (list_to_set cidrs) in
  let run := fetch_provider name false w in
  let written := write_lines (output config) (render sorted) (w_fs w) in
  w_fs run.2 = written.2 ∧
  (written.1 = inr () →
     run.1 = inr (true, length sorted) ∧
     read_text (w_fs run.2) (output config) = inr (render sorted)) ∧
  (written.1 ≠ inr () → run.1 = inr (false, 0%nat)) ∧
  (is_dir (w_fs w) "lists/providers" = true →
   is_dir (w_fs w) (output config) = false →
   (∀ loc text, fs_write_error (w_fs w) loc text = None) →
   written.1 = inr ()) ∧
  (∀ name' config' old,
     dict_get PROVIDERS name' = Some config' → name' ≠ name →
     read_text (w_fs w) (output config') = inr old →
     read_text (w_fs run.2) (output config') = inr old) ∧
  NoDup sorted ∧ Sorted String.le sorted ∧
  (∀ cidr, cidr ∈ sorted ↔ cidr ∈ cidrs) ∧
  (Forall (λ cidr, no_line_break cidr = true) cidrs →
     Py.readlines (render sorted) = (λ cidr, cidr ++ Py.nl) <$> sorted).
Proof.
  intros Hname Hurl Hparser Hcidrs Hne sorted run written.
  assert (parsed_of config w = inr (JString <$> cidrs)) as Hparsed.
  { unfold parsed. by rewrite Hurl, Hparser. }
  assert (∀ cidr, cidr ∈ sorted ↔ cidr ∈ cidrs) as Hmem.
  { intros cidr. unfold sorted.
    by rewrite elem_of_sorted_set, elem_of_list_to_set. }
  assert (run = (inr (match written.1 with
                      | inr _ => (true, length sorted)
                      | inl _ => (false, 0%nat)
                      end),
                 {| w_fs := written.2;
                    w_requests := w_requests w ++ [url config] |})) as Hrun.
  { unfold run. rewrite fetch_provider_run, Hname.
    rewrite (to_write_strings _ _ _ _ _ _ _ cidrs Hparsed Hne).
    cbv zeta. rewrite format_value_fmap, length_fmap. done. }
  split; [by rewrite Hrun|]. split; [|split; [|split; [|split]]].
  - intros Hwritten. rewrite Hrun, Hwritten. split; [done|]. simpl.
    apply (write_lines_read _ _ (w_fs w)).
    unfold written in *. destruct (write_lines _ _ _) as [r fs'].
    simpl in *. by subst r.
  - intros Hfailed. rewrite Hrun. simpl.
    by destruct (written.1) as [e|[]].
  - intros Hdir Hfree Hallowed. by apply (output_written name).
  - intros name' config' old Hname' Hother Hold.
    unfold run. by apply (fetch_provider_other _ _ _ _ _ _ name name').
  - repeat split.
    + apply sorted_set_NoDup.
    + apply sorted_set_Sorted.
    + apply Hmem.
    + apply Hmem.
    + intros Hfree. apply readlines_render.
      rewrite Forall_forall in Hfree |- *.
      intros cidr Hin. by apply Hfree, Hmem.
Qed.

(** C5. A batch never stops early and never raises.  No exception leaves
    [fetch_provider]; [main] returns an exit code and leaves the world that
    running every requested provider once, in order, leaves; each provider
    makes exactly one request; whatever happened to the providers before
    it, a provider is fetched in the world they left, its outcome is
    recorded, and the providers after it run in the world it leaves.  A
    provider with nothing to write (the transport failed, the parser
    raised or found nothing) fails and leaves every file as it was.  A
    provider with entries to write, whatever the outcomes before it,
    succeeds in a dry run, and succeeds in a run that writes exactly when
    its directory is made and its file written; and when it is not
    requested again later in the batch, its file holds these entries at
    the end of the batch, one per line.  The exit code is 0 exactly when
    every requested provider succeeded. *)
Theorem fetch_batch_isolation (providers : list string) (dry_run : bool)
    (w : world) :
  let names := providers_to_fetch providers in
  let outcomes := (run_all names dry_run w).1 in
  let w' := (run_all names dry_run w).2 in
  (∀ name w0, ∃ o, (fetch_provider name dry_run w0).1 = inr o) ∧
  length outcomes = length names ∧
  w_requests w' = (w_requests w ++ omap url_of names)%list ∧
  (∀ before name after,
     names = (before ++ name :: after)%list →
     let w_before := (run_all before dry_run w).2 in
     ∃ o, (fetch_provider name dry_run w_before).1 = inr o ∧
          outcomes !! length before = Some o ∧
          w' = (run_all after dry_run
                  (fetch_provider name dry_run w_before).2).2) ∧
  (∀ name config w0,
     dict_get PROVIDERS name = Some config →
     to_write_of config w0 = None →
     (fetch_provider name dry_run w0).1 = inr (false, 0%nat) ∧
     w_fs (fetch_provider name dry_run w0).2 = w_fs w0) ∧
  (∀ before name after config sorted,
     names = (before ++ name :: after)%list →
     dict_get PROVIDERS name = Some config →
     let w_before := (run_all before dry_run w).2 in
     to_write_of config w_before = Some sorted →
     let text := render (format_value <$> sorted) in
     let written := write_lines (output config) text (w_fs w_before) in
     (outcomes !! length before = Some (true, length sorted)
      ↔ dry_run = true ∨ written.1 = inr ()) ∧
     (dry_run = false → written.1 = inr () → name ∉ after →
      read_text (w_fs w') (output config) = inr text)) ∧
  ∃ code,
    main providers dry_run false w = (inr code, w') ∧
    (code = 0 ∨ code = 1) ∧
    (code = 0 ↔ Forall (λ o, o.1 = true) outcomes).
Proof.
  intros names outcomes w'.
  assert (∀ before name after,
            names = (before ++ name :: after)%list →
            outcomes !! length before
            = Some (match (fetch_provider name dry_run
                             (run_all before dry_run w).2).1 with
                    | inr o => o
                    | inl _ => (false, 0%nat)
                    end) ∧
            w' = (run_all after dry_run
                    (fetch_provider name dry_run
                       (run_all before dry_run w).2).2).2) as Hsplit.
  { intros before name after Hnames.
    unfold outcomes, w'. rewrite Hnames, run_all_app. simpl. split; [|done].
    rewrite lookup_app_r by (rewrite run_all_length; lia).
    by rewrite run_all_length, Nat.sub_diag. }
  split; [|split; [|split; [|split; [|split; [|split]]]]].
  - intros name w0. apply fetch_provider_total.
  - apply run_all_length.
  - apply run_all_requests.
  - intros before name after Hnames w_before.
    destruct (fetch_provider_total ip_network findall_cidr_pattern json_loads
                sorted_set_other str_other urlopen name dry_run w_before)
      as [o Ho].
    exists o. split; [done|].
    destruct (Hsplit before name after Hnames) as [Hout Hw'].
    fold w_before in Hout, Hw'. by rewrite Ho in Hout.
  - intros name config w0 Hname Hnone.
    by rewrite fetch_provider_run, Hname, Hnone.
  - intros before name after config sorted Hnames Hname w_before Hsome
      text written.
    destruct (Hsplit before name after Hnames) as [Hout Hw'].
    fold w_before in Hout, Hw'.
    rewrite fetch_provider_run, Hname, Hsome in Hout, Hw'.
    cbv zeta in Hout, Hw'. fold text written in Hout, Hw'.
    destruct dry_run.
    + simpl in Hout. split; [|done]. rewrite Hout. split; [by left|done].
    + simpl in Hout, Hw'. split.
      * rewrite Hout. destruct (written.1) as [e|[]].
        -- split; [done|]. by intros [|].
        -- split; [by right|done].
      * intros _ Hwritten Hnotin. rewrite Hw'.
        apply (run_all_other _ _ _ _ _ _ _ name); [done|done|]. simpl.
        apply (write_lines_read _ _ (w_fs w_before)).
        unfold written in *. destruct (write_lines _ _ _) as [r fs'].
        simpl in *. by subst r.
  - unfold fetch.main. fold names. unfold bind, ret.
    rewrite fetch_loop_run. fold outcomes w'. cbv beta iota. simpl fst.
    assert (length (filter (λ o : bool * nat, o.1 = true) outcomes)
              = length names ↔ Forall (λ o, o.1 = true) outcomes) as Hall.
    { rewrite <-(run_all_length ip_network findall_cidr_pattern json_loads
                   sorted_set_other str_other urlopen names dry_run w).
      fold outcomes. apply filter_length_all. }
    destruct (_ =? _)%nat eqn:Heq.
    + apply Nat.eqb_eq in Heq. exists 0. split; [done|]. split; [by left|].
      split; [intros _; by apply Hall|done].
    + apply Nat.eqb_neq in Heq. exists 1. split; [done|]. split; [by right|].
      split; [done|]. intros Hforall%Hall. done.
Qed.

End claims.

(** The lines of a file, as the validator and the chunker read them. *)
Definition file_lines (w : world) (path : string) : list string :=
  match open_r (w_fs w) path with
  | inr lines => lines
  | inl _ => []
  end.

(** C5, in the sample world: AWS (no JSON), Linode (an empty sheet) and
    Vultr (unreachable) fail, the others succeed and are written, all six
    are requested in turn, and the exit code is 1. *)
Example fetch_batch_sample :
  let r := example_main ["all"] false false example_world in
  r.1 = inr 1 ∧
  (example_run_all (providers_to_fetch ["all"]) false example_world).1
    = [(false, 0); (true, 2); (false, 0); (true, 2); (true, 2); (false, 0)]%nat ∧
  w_requests r.2 = (λ p, url p.2) <$> PROVIDERS ∧
  read_text (w_fs r.2) "lists/providers/tor-exit-nodes.txt"
    = inr ("192.0.2.1/32" ++ Py.nl ++ "198.51.100.7/32" ++ Py.nl) ∧
  path_exists (w_fs r.2) "lists/providers/aws.txt" = false ∧
  read_text (w_fs r.2) "lists/providers/linode.txt"
    = inr ("192.0.2.0/24" ++ Py.nl).
Proof. by vm_compute. Qed.

(** C5, on the sample batch: Tor comes after three providers that failed,
    each in its own way, it succeeds, and its list is there at the end. *)
Lemma fetch_batch_isolation_witness :
  let outcomes :=
    (example_run_all (providers_to_fetch ["all"]) false example_world).1 in
  let w' :=
    (example_run_all (providers_to_fetch ["all"]) false example_world).2 in
  outcomes !! 4%nat = Some (true, 2%nat) ∧
  read_text (w_fs w') "lists/providers/tor-exit-nodes.txt"
    = inr ("192.0.2.1/32" ++ Py.nl ++ "198.51.100.7/32" ++ Py.nl).
Proof.
  cbv zeta.
  destruct (fetch_batch_isolation example_ip_network example_findall
              example_json_loads example_sorted_set_other example_str_other
              example_urlopen ["all"] false example_world)
    as (_ & _ & _ & _ & _ & Hwritten & _).
  destruct (Hwritten ["aws"; "digitalocean"; "linode"; "ovh"] "tor" ["vultr"]
              {| url := "https://check.torproject.org/exit-addresses";
                 parser := "tor_exit";
                 output := "lists/providers/tor-exit-nodes.txt" |}
              [JString "192.0.2.1/32"; JString "198.51.100.7/32"]
              eq_refl eq_refl ltac:(by vm_compute)) as [Hout Hfile].
  split.
  - apply Hout. right. by vm_compute.
  - apply Hfile; [done|by vm_compute|].
    intros Hin. apply list_elem_of_singleton in Hin. discriminate Hin.
Defined.

(** C6, on the sample Linode endpoint: the sheet holds no prefix, the
    fetch fails, the older list stays. *)
Lemma fetch_provider_zero_cidrs_witness :
  (example_fetch_provider "linode" false example_world).1
    = inr (false, 0%nat) ∧
  w_fs (example_fetch_provider "linode" false example_world).2
    = w_fs example_world.
Proof.
  apply (fetch_provider_zero_cidrs example_ip_network example_findall
           example_json_loads example_sorted_set_other example_str_other
           example_urlopen "linode"
           {| url := "https://geoip.linode.com/"; parser := "linode_text";
              output := "lists/providers/linode.txt" |}
           false example_world "# no prefixes"
           (strings (λ c, inr (parse_linode_text example_ip_network c))));
    reflexivity.
Defined.

(** C7 as stated fails on entries that hold a line break, which the AWS,
    OVH and DigitalOcean parsers pass on as they come.  The OVH document
    [["b\na", "a"]] is fetched with success and its file reads back as the
    lines a, b, a; the DigitalOcean sheet with a carriage return in a
    field reads back as a/1, z/1, a/1.  Both files repeat a line and are
    out of order. *)
Lemma fetch_provider_line_break_entries :
  let ovh := example_fetch_provider "ovh" false example_world in
  let dio := example_fetch_provider "digitalocean" false example_world in
  (ovh.1 = inr (true, 2%nat) ∧
   file_lines ovh.2 "lists/providers/ovh.txt"
     = ["a" ++ Py.nl; "b" ++ Py.nl; "a" ++ Py.nl] ∧
   ¬ NoDup (file_lines ovh.2 "lists/providers/ovh.txt") ∧
   ¬ Sorted String.le (file_lines ovh.2 "lists/providers/ovh.txt")) ∧
  (dio.1 = inr (true, 2%nat) ∧
   file_lines dio.2 "lists/providers/digitalocean.txt"
     = ["a/1" ++ Py.nl; "z/1" ++ Py.nl; "a/1" ++ Py.nl] ∧
   ¬ NoDup (file_lines dio.2 "lists/providers/digitalocean.txt") ∧
   ¬ Sorted String.le (file_lines dio.2 "lists/providers/digitalocean.txt")).
Proof.
  cbv zeta.
  assert (∀ a b : string, a ≠ b → String.le b a → ¬ String.le a b) as Hanti.
  { intros a b Hne Hba Hab. apply Hne. by apply (anti_symm String.le). }
  split.
  - assert (file_lines (example_fetch_provider "ovh" false example_world).2
              "lists/providers/ovh.txt"
            = ["a" ++ Py.nl; "b" ++ Py.nl; "a" ++ Py.nl]) as -> by by vm_compute.
    split; [by vm_compute|]. split; [done|]. split.
    + intros Hnd. apply NoDup_cons in Hnd as [Hnotin _].
      apply Hnotin. right. left.
    + intros Hsorted. apply Sorted_inv in Hsorted as [Hsorted _].
      apply Sorted_inv in Hsorted as [_ Hhd]. apply HdRel_inv in Hhd.
      revert Hhd. by apply Hanti.
  - assert (file_lines
              (example_fetch_provider "digitalocean" false example_world).2
              "lists/providers/digitalocean.txt"
            = ["a/1" ++ Py.nl; "z/1" ++ Py.nl; "a/1" ++ Py.nl]) as ->
      by by vm_compute.
    split; [by vm_compute|]. split; [done|]. split.
    + intros Hnd. apply NoDup_cons in Hnd as [Hnotin _].
      apply Hnotin. right. left.
    + intros Hsorted. apply Sorted_inv in Hsorted as [Hsorted _].
      apply Sorted_inv in Hsorted as [_ Hhd]. apply HdRel_inv in Hhd.
      revert Hhd. by apply Hanti.
Qed.

(** C7, amended, on the sample Tor endpoint: three addresses, one twice,
    are written as two lines in order. *)
Lemma fetch_provider_persists_witness :
  let run := example_fetch_provider "tor" false example_world in
  run.1 = inr (true, 2%nat) ∧
  read_text (w_fs run.2) "lists/providers/tor-exit-nodes.txt"
    = inr ("192.0.2.1/32" ++ Py.nl ++ "198.51.100.7/32" ++ Py.nl) ∧
  Py.readlines ("192.0.2.1/32" ++ Py.nl ++ "198.51.100.7/32" ++ Py.nl)
    = ["192.0.2.1/32" ++ Py.nl; "198.51.100.7/32" ++ Py.nl].
Proof.
  cbv zeta.
  destruct (fetch_provider_persists example_ip_network example_findall
              example_json_loads example_sorted_set_other example_str_other
              example_urlopen "tor"
              {| url := "https://check.torproject.org/exit-addresses";
                 parser := "tor_exit";
                 output := "lists/providers/tor-exit-nodes.txt" |}
              example_world tor_document
              (strings (λ c, inr (parse_tor_exit c)))
              ["198.51.100.7/32"; "198.51.100.7/32"; "192.0.2.1/32"]
              eq_refl eq_refl eq_refl eq_refl ltac:(discriminate))
    as (_ & Hok & _ & Hthrough & _ & _ & _ & _ & Hlines).
  destruct Hok as [Hrun Hfile]; [by apply Hthrough|].
  split; [exact Hrun|]. split; [exact Hfile|].
  apply Hlines. by repeat constructor.
Defined.

(** C10. [parse_tor_exit] keeps the second word of every line that starts
    with "ExitAddress ", followed by "/32", whatever the word is: the line
    "ExitAddress notanip 443" gives "notanip/32", which is no IPv4 network
    and which the validator rejects.  The Linode parser keeps only what
    parses as an IPv4 network, and the Vultr parser only what parses as a
    network. *)
Theorem parse_tor_exit_unvalidated :
  (∀ content line t,
     line ∈ Py.split Py.LF content →
     Py.startswith "ExitAddress " line = true →
     Py.split_ws line !! 1%nat = Some t →
     (t ++ "/32") ∈ parse_tor_exit content) ∧
  (parse_tor_exit "ExitAddress notanip 443" = ["notanip/32"] ∧
   IPv4Network "notanip/32" = None ∧
   (validate.validate_cidr example_ip_network "notanip/32").1 = false) ∧
  (∀ ip_network content cidr,
     cidr ∈ parse_linode_text ip_network content →
     ∃ network, ip_network cidr = inr network ∧ version network = 4) ∧
  (∀ ip_network findall_cidr_pattern content cidr,
     cidr ∈ parse_vultr_html ip_network findall_cidr_pattern content →
     ∃ network, ip_network cidr = inr network).
Proof.
  split; [|split; [|split]].
  - apply parse_tor_exit_keeps.
  - by vm_compute.
  - apply parse_linode_text_valid.
  - apply parse_vultr_html_valid.
Qed.

(** C10, on a line of the sample Tor document. *)
Lemma parse_tor_exit_unvalidated_witness :
  "198.51.100.7/32" ∈ parse_tor_exit tor_document.
Proof.
  apply (proj1 parse_tor_exit_unvalidated tor_document
           "ExitAddress 198.51.100.7 443" "198.51.100.7").
  - by vm_compute; right; left.
  - reflexivity.
  - reflexivity.
Defined.

End fetcher_claims.

(** * Further properties *)

(** ** The validator: the error list and the duplicate list *)

Section validator_reports.
Import ipaddress validate.
Variable ip_network : ip_network_t.

Local Abbreviation validate_cidr := (validate_cidr ip_network).
Local Abbreviation validate_lines := (validate_lines ip_network).
Local Abbreviation scanned := (scanned ip_network).
Local Abbreviation entries := (entries ip_network).

(** The entry of [results['errors']] that line [i] (counted from 0) gives
    rise to, if any. *)
Definition error_of (i : nat) (l : string) : option error_entry :=
  let '(is_valid, err) := validate_cidr l in
  if is_valid then None
  else Some {| line := S i; content := Py.strip l; error := err |}.

(** The errors of a file: its invalid lines in file order. *)
Definition errors_of (lines : list string) : list error_entry :=
  omap (λ il, error_of il.1 il.2) (imap pair lines).

Lemma validate_cidr_kind l :
  validate_cidr l =
    match kind_of ip_network l with Invalid err => (false, err) | _ => (true, None) end.
Proof.
  unfold validate.validate_cidr, kind_of.
  destruct (blank_or_comment (Py.strip l)); [done|].
  destruct (ip_network (Py.strip l)) as [e|n]; [done|].
  by destruct (version n =? 4).
Qed.

Lemma errors_of_snoc ls x :
  errors_of (ls ++ [x]) =
    (errors_of ls ++ option_list (error_of (length ls) x))%list.
Proof.
  unfold errors_of. rewrite imap_app, omap_app. simpl.
  rewrite Nat.add_0_r. by destruct (error_of (length ls) x).
Qed.

Lemma error_of_kind i l :
  error_of i l =
    match kind_of ip_network l with
    | Invalid err => Some {| line := S i; content := Py.strip l; error := err |}
    | _ => None
    end.
Proof. unfold error_of. rewrite validate_cidr_kind. by destruct (kind_of ip_network l). Qed.

(** What the scan keeps true of the error list. *)
Lemma scan_errors filepath ls :
  let r := (scanned filepath ls).1 in
  errors r = errors_of ls ∧
  length (errors r) = invalid_cidrs r ∧
  Forall (λ e, (1 ≤ line e ∧ line e ≤ length ls)%nat) (errors r).
Proof.
  induction ls as [|x ls IH] using rev_ind; [by repeat split|].
  cbv zeta in *. rewrite scanned_snoc.
  destruct (scanned filepath ls) as [r seen]. simpl in IH.
  destruct IH as (Herr & Hlen & Hrange).
  rewrite scan_line_spec, errors_of_snoc, error_of_kind, length_app.
  assert (Forall (λ e, (1 ≤ line e ∧ line e ≤ length ls + length [x])%nat)
            (errors r)) as Hrange'.
  { eapply Forall_impl; [exact Hrange|]. simpl. intros e. lia. }
  destruct (kind_of ip_network x) as [|err|n]; simpl.
  - by rewrite app_nil_r.
  - split; [by rewrite Herr|]. split.
    + rewrite length_app, Hlen. simpl. lia.
    + apply Forall_app. split; [done|]. apply Forall_singleton. simpl. lia.
  - rewrite app_nil_r. by case_bool_decide.
Qed.

(** Line numbers grow along the error list. *)
Lemma errors_of_increasing lines :
  StronglySorted lt (line <$> errors_of lines).
Proof.
  induction lines as [|x ls IH] using rev_ind; [constructor|].
  rewrite errors_of_snoc, fmap_app. apply StronglySorted_app.
  split; [|split; [done|]].
  - intros n1 n2 Hn1 Hn2.
    apply list_elem_of_fmap in Hn1 as (e & -> & He).
    apply list_elem_of_omap in He as ([i l] & Hil & He).
    apply elem_of_lookup_imap in Hil as (i' & l' & [= <- <-] & Hlook).
    apply lookup_lt_Some in Hlook.
    unfold error_of in He, Hn2. simpl in He.
    destruct (validate_cidr l) as [[] ?]; [done|]. injection He as <-.
    destruct (validate_cidr x) as [[] ?]; simpl in Hn2;
      [by apply elem_of_nil in Hn2|].
    apply list_elem_of_singleton in Hn2 as ->. simpl. lia.
  - unfold error_of. destruct (validate_cidr x) as [[] ?]; simpl;
      repeat constructor.
Qed.

(** X1. The error list of a file is its invalid lines in file order: line
    [i] (from 1) is listed exactly when [validate_cidr] rejects it, with
    its stripped text and the message; so the list is as long as the
    invalid count, and its line numbers lie within the file and grow. *)
Theorem validate_file_errors (filepath : string) (lines : list string) :
  let r := validate_lines filepath lines in
  errors r = errors_of lines ∧
  length (errors r) = invalid_cidrs r ∧
  Forall (λ e, (1 ≤ line e ∧ line e ≤ total_lines r)%nat) (errors r) ∧
  StronglySorted lt (line <$> errors r) ∧
  (∀ i l err,
     lines !! i = Some l → validate_cidr l = (false, err) →
     {| line := S i; content := Py.strip l; error := err |} ∈ errors r).
Proof.
  cbv zeta.
  destruct (scan_errors filepath lines) as (Herr & Hlen & Hrange).
  destruct (scan_inv_scanned ip_network filepath lines) as [Htotal _ _ _ _ _].
  unfold validate.validate_lines, finish.
  fold (scanned filepath lines). simpl.
  rewrite Htotal. split; [done|]. split; [done|]. split; [done|].
  rewrite Herr. split; [apply errors_of_increasing|].
  intros i l err Hl Hinvalid. unfold errors_of.
  apply list_elem_of_omap. exists (i, l). split.
  - apply elem_of_lookup_imap. by exists i, l.
  - unfold error_of. simpl. by rewrite Hinvalid.
Qed.

Lemma size_list_to_set_le (l : list string) :
  (size (list_to_set l : gset string) ≤ length l)%nat.
Proof.
  induction l as [|x l IH]; [done|]. simpl.
  rewrite size_union_alt, size_singleton.
  pose proof (subseteq_size (list_to_set l ∖ {[x]}) (list_to_set l : gset string)
                ltac:(set_solver)).
  lia.
Qed.

(** A list has as many distinct elements as elements exactly when nothing
    repeats. *)
Lemma size_list_to_set_NoDup (l : list string) :
  size (list_to_set l : gset string) = length l ↔ NoDup l.
Proof.
  split; [|apply size_list_to_set].
  induction l as [|x l IH]; simpl; [constructor|].
  intros Hsize. pose proof (size_list_to_set_le l) as Hle.
  destruct (decide (x ∈ l)) as [Hin|Hnotin].
  - assert (({[x]} ∪ list_to_set l : gset string) = list_to_set l) as Heq
      by set_solver.
    rewrite Heq in Hsize. lia.
  - constructor; [done|]. apply IH.
    rewrite size_union, size_singleton in Hsize by set_solver. lia.
Qed.

Lemma sorted_set_length (s : gset string) : length (Py.sorted_set s) = size s.
Proof. by rewrite sorted_set_Permutation. Qed.

(** What the scan keeps true of the duplicate set. *)
Lemma scan_duplicates filepath ls :
  let st := scanned filepath ls in
  duplicate_entries st.1 ⊆ st.2 ∧
  (size (duplicate_entries st.1) ≤ duplicates st.1)%nat ∧
  (duplicates st.1 = 0%nat ↔ duplicate_entries st.1 = ∅).
Proof.
  induction ls as [|x ls IH] using rev_ind.
  { cbv zeta. simpl. by repeat split. }
  cbv zeta in *. rewrite scanned_snoc.
  destruct (scanned filepath ls) as [r seen]. simpl in IH.
  destruct IH as (Hsub & Hsize & Hzero).
  rewrite scan_line_spec.
  destruct (kind_of ip_network x) as [|err|n]; simpl; [done|done|].
  case_bool_decide as Hin; simpl.
  - split; [set_solver|]. split.
    + rewrite size_union_alt.
      pose proof (subseteq_size ({[n]} ∖ duplicate_entries r) ({[n]} : gset string)
                    ltac:(set_solver)) as Hle.
      rewrite size_singleton in Hle. lia.
    + split; [done|]. intros Hempty. exfalso.
      assert (n ∈ (∅ : gset string)) as Habs by (rewrite <-Hempty; set_solver).
      by apply not_elem_of_empty in Habs.
  - split; [set_solver|]. by split.
Qed.

(** X2. The duplicate list and the duplicate count agree: the list is
    empty exactly when the count is zero, which is exactly when no two
    valid entries of the file normalize to the same text; the list is never
    longer than the count (a value met three times is counted twice and
    listed once), nor than the valid count. *)
Theorem validate_file_duplicates (filepath : string) (lines : list string) :
  let r := validate_lines filepath lines in
  (duplicates r = 0%nat ↔ duplicate_entries r = []) ∧
  (duplicates r = 0%nat ↔ NoDup (entries lines)) ∧
  (length (duplicate_entries r) ≤ duplicates r)%nat ∧
  (length (duplicate_entries r) ≤ valid_cidrs r)%nat.
Proof.
  cbv zeta.
  destruct (scan_duplicates filepath lines) as (Hsub & Hsize & Hzero).
  destruct (scan_inv_scanned ip_network filepath lines)
    as [_ Hseen Hvalid Hdups _ _].
  unfold validate.validate_lines, finish.
  fold (scanned filepath lines). simpl.
  rewrite sorted_set_length. split; [|split; [|split]].
  - rewrite Hzero. split.
    + intros ->. done.
    + intros Hnil. apply set_eq. intros y.
      rewrite <-elem_of_sorted_set, Hnil. set_solver.
  - rewrite <-size_list_to_set_NoDup, <-Hseen. lia.
  - done.
  - rewrite Hvalid. by apply subseteq_size.
Qed.

End validator_reports.

(** ** The validator: the paths given to [main] *)

Section validator_paths.
Import ipaddress validate.
Variable ip_network : ip_network_t.
Variable fs : filesystem.

Lemma collect_existing paths :
  collect fs paths = collect fs (filter (λ p, path_exists fs p = true) paths).
Proof.
  induction paths as [|p paths IH]; [done|].
  destruct (path_exists fs p) eqn:Hexists.
  - rewrite filter_cons_True by done. unfold collect in *. simpl.
    by rewrite IH.
  - rewrite filter_cons_False by (by rewrite Hexists).
    apply orb_false_elim in Hexists as [Hfile Hdir].
    unfold collect in *. simpl. by rewrite Hfile, Hdir.
Qed.

Lemma collect_Permutation paths1 paths2 :
  paths1 ≡ₚ paths2 → collect fs paths1 ≡ₚ collect fs paths2.
Proof. apply Permutation_flat_map. Qed.

(** Sorting forgets the order its input came in. *)
Lemma merge_sort_Permutation_eq (l1 l2 : list string) :
  l1 ≡ₚ l2 → merge_sort String.le l1 = merge_sort String.le l2.
Proof.
  intros Hperm. apply (Sorted_unique String.le).
  - apply (Sorted_merge_sort String.le).
  - apply (Sorted_merge_sort String.le).
  - by rewrite !(merge_sort_Permutation String.le).
Qed.

(** X3. What [main] returns does not depend on the order in which the
    paths are given, and paths that do not exist change nothing: the run
    is the run on the existing paths alone. *)
Theorem validate_main_paths (paths : list string) :
  (∀ paths', paths ≡ₚ paths' →
     main ip_network fs paths = main ip_network fs paths') ∧
  main ip_network fs paths
    = main ip_network fs (filter (λ p, path_exists fs p = true) paths).
Proof.
  split.
  - intros paths' Hperm. unfold main.
    pose proof (collect_Permutation paths paths' Hperm) as Hfiles.
    rewrite (merge_sort_Permutation_eq _ _ Hfiles).
    assert (bool_decide (collect fs paths = [])
            = bool_decide (collect fs paths' = [])) as ->; [|done].
    apply bool_decide_ext. split; intros Hnil; rewrite Hnil in Hfiles.
    + symmetry in Hfiles. by apply Permutation_nil_r in Hfiles.
    + by apply Permutation_nil_r in Hfiles.
  - unfold main. by rewrite <-collect_existing.
Qed.

End validator_paths.

(** The sample list twice, under two names. *)
Definition two_lists_fs : filesystem :=
  filesystem_of
    [(["b.txt"], "10.0.0.0/24" ++ Py.nl ++ "junk" ++ Py.nl);
     (["a.txt"], "10.0.0.0/24" ++ Py.nl)] [].

(** X3, on two lists given in either order, with a path that is missing. *)
Lemma validate_main_paths_witness :
  validate.main ipaddress.example_ip_network two_lists_fs
    ["b.txt"; "missing.txt"; "a.txt"]
  = validate.main ipaddress.example_ip_network two_lists_fs
      ["missing.txt"; "a.txt"; "b.txt"].
Proof.
  apply (proj1 (validate_main_paths ipaddress.example_ip_network two_lists_fs
                  ["b.txt"; "missing.txt"; "a.txt"])).
  apply (Permutation_cons_append ["missing.txt"; "a.txt"] "b.txt").
Defined.

Section chunker_round_trips.
Import Py chunk.

(** X4. Whatever the file holds, the entries [read_cidrs] returns are
    stripped, are neither blank nor comments, and hold no line break. *)
Theorem read_cidrs_clean (fs : filesystem) (filepath : string)
    (cidrs : list string) :
  read_cidrs fs filepath = inr cidrs → Forall clean_entry cidrs.
Proof.
  unfold read_cidrs, open_r.
  destruct (read_text fs filepath) as [e|text]; [done|].
  intros [= <-]. apply cidrs_of_lines_clean.
Qed.

(** X4, on the sample source list. *)
Lemma read_cidrs_clean_witness :
  Forall clean_entry
    ["1.1.1.1/32"; "2.2.2.2/32"; "3.3.3.3/32"; "4.4.4.4/32"; "5.5.5.5/32"].
Proof.
  exact (read_cidrs_clean five_entries_fs "lists/providers/tor.txt" _ eq_refl).
Defined.

(** X5. Reading a file back after [write_chunk] has written it gives the
    entries written, when these are stripped, neither blank nor comments,
    and free of line breaks; in particular for entries that [read_cidrs]
    returned. *)
Theorem write_chunk_read_cidrs (fs fs' : filesystem) (output_path : string)
    (cidrs : list string) :
  Forall clean_entry cidrs →
  write_chunk cidrs output_path fs = (inr (), fs') →
  read_cidrs fs' output_path = inr cidrs.
Proof.
  intros Hclean Hwrite. apply read_cidrs_render; [done|].
  by eapply write_lines_read.
Qed.

(** X5, on two entries written to a file system without files. *)
Lemma write_chunk_read_cidrs_witness :
  read_cidrs
    (write_chunk ["1.1.1.1/32"; "2.2.2.2/32"] "out/part.txt" empty_fs).2
    "out/part.txt"
  = inr ["1.1.1.1/32"; "2.2.2.2/32"].
Proof.
  apply (write_chunk_read_cidrs empty_fs _ "out/part.txt"
           ["1.1.1.1/32"; "2.2.2.2/32"]).
  - by repeat constructor.
  - reflexivity.
Defined.

(** X6. Chunking loses nothing and invents nothing: for a source with at
    least one entry and a chunk size of at least one, after a real run
    that returned, reading the chunk files back in the order returned and
    putting the results end to end gives the entries of the source. *)
Theorem chunk_file_round_trip (fs fs' : filesystem)
    (input_path output_dir : string) (chunk_size : Z)
    (prefix : option string) (cidrs output_files : list string) :
  read_cidrs fs input_path = inr cidrs →
  cidrs ≠ [] →
  1 ≤ chunk_size →
  chunk_file input_path output_dir chunk_size prefix false fs
    = (inr output_files, fs') →
  ∃ chunks,
    Forall2 (λ path chunk, read_cidrs fs' path = inr chunk)
      output_files chunks ∧
    concat chunks = cidrs.
Proof.
  intros Hread Hne HN.
  destruct (read_cidrs_inr _ _ _ Hread) as (_ & _ & _ & Hclean).
  rewrite (chunk_file_loop _ _ _ _ _ _ cidrs) by (done || lia).
  destruct (chunk_cidrs_concat cidrs chunk_size Hne HN) as (_ & _ & Hconcat).
  intros (-> & _ & _ & Hfiles)%chunk_loop_real.
  eexists. split; [|exact Hconcat].
  apply Forall2_fmap, Forall_Forall2_diag, Forall_forall.
  intros i Hi. apply read_cidrs_render; [by apply chunk_cidrs_clean|].
  by apply (Hfiles (NoDup_seq _ _)).
Qed.

(** X6, on the sample source cut by two. *)
Lemma chunk_file_round_trip_witness :
  ∃ chunks,
    Forall2 (λ path chunk,
               read_cidrs
                 (chunk_file "lists/providers/tor.txt" "lists/chunks/tor" 2
                    None false five_entries_fs).2 path = inr chunk)
      ["lists/chunks/tor/tor-part-001.txt";
       "lists/chunks/tor/tor-part-002.txt";
       "lists/chunks/tor/tor-part-003.txt"] chunks ∧
    concat chunks
      = ["1.1.1.1/32"; "2.2.2.2/32"; "3.3.3.3/32"; "4.4.4.4/32"; "5.5.5.5/32"].
Proof.
  apply (chunk_file_round_trip five_entries_fs _ "lists/providers/tor.txt"
           "lists/chunks/tor" 2 None);
    [reflexivity|discriminate|lia|reflexivity].
Defined.

End chunker_round_trips.

Section chunker_sizes.
Import Py chunk.

(** X7. Every chunk but the last is full: with a chunk size of at least
    one, all chunks before the last hold exactly [chunk_size] entries and
    the last holds the remainder, at least one entry; a source within the
    limit yields a single chunk, the source itself. *)
Theorem chunk_cidrs_sizes (cidrs : list string) (chunk_size : Z) :
  cidrs ≠ [] →
  1 ≤ chunk_size →
  let count := Z.of_nat (length cidrs) in
  let k := Z.to_nat ((count + chunk_size - 1) / chunk_size) in
  (∀ i, (S i < k)%nat →
     Z.of_nat (length (chunk_cidrs cidrs chunk_size i)) = chunk_size) ∧
  Z.of_nat (length (chunk_cidrs cidrs chunk_size (k - 1)))
    = count - (Z.of_nat k - 1) * chunk_size ∧
  1 ≤ count - (Z.of_nat k - 1) * chunk_size ≤ chunk_size ∧
  (count ≤ chunk_size → k = 1%nat ∧ chunk_cidrs cidrs chunk_size 0 = cidrs).
Proof.
  intros Hne HN count k.
  assert (1 ≤ count) as Hcount.
  { unfold count. destruct cidrs; [done|simpl; lia]. }
  destruct (num_chunks_ceiling count chunk_size HN Hcount) as [Hk1 [Hlo Hhi]].
  assert (Z.of_nat k = (count + chunk_size - 1) / chunk_size) as Hk
    by (unfold k; lia).
  rewrite <-Hk in Hk1, Hlo, Hhi.
  split; [|split; [|split]].
  - intros i Hi. rewrite chunk_cidrs_take by (try done; fold count; nia).
    rewrite length_take, length_drop. fold count. nia.
  - rewrite chunk_cidrs_take by (try done; fold count; nia).
    rewrite length_take, length_drop. fold count. nia.
  - nia.
  - intros Hsmall. assert (k = 1%nat) as Hk1' by nia.
    split; [done|].
    rewrite chunk_cidrs_take by (try done; fold count; nia).
    simpl. rewrite drop_0. apply take_ge. fold count. lia.
Qed.

(** X7, on five entries cut by two: the second chunk is full. *)
Lemma chunk_cidrs_sizes_witness :
  Z.of_nat (length (chunk_cidrs ["a"; "b"; "c"; "d"; "e"] 2 1)) = 2.
Proof.
  apply (proj1 (chunk_cidrs_sizes ["a"; "b"; "c"; "d"; "e"] 2
                  ltac:(discriminate) ltac:(lia))).
  vm_compute. lia.
Defined.

(** X8. The sizes and sources that give no chunk.  A source without
    entries gives no file and no error, whatever the chunk size, zero
    included.  With entries, a chunk size of zero raises before anything
    is written.  A negative chunk size never writes an entry: a source of
    two or more entries gives no file, and a source of a single entry
    gives one path, whose file the real run writes without any entry, or
    fails to write. *)
Theorem chunk_file_edges (fs : filesystem) (input_path output_dir : string)
    (chunk_size : Z) (prefix : option string) (dry_run : bool)
    (cidrs : list string) :
  read_cidrs fs input_path = inr cidrs →
  let run := chunk_file input_path output_dir chunk_size prefix dry_run fs in
  let first :=
    output_path output_dir (default (pathlib.stem input_path) prefix) 0 in
  (cidrs = [] → run = (inr [], fs)) ∧
  (cidrs ≠ [] → chunk_size = 0 →
     run = (inl (OtherException "integer division or modulo by zero"), fs)) ∧
  (chunk_size < 0 → (2 ≤ length cidrs)%nat → run = (inr [], fs)) ∧
  (chunk_size < 0 → length cidrs = 1%nat →
     run = if dry_run then (inr [first], fs)
           else match write_chunk [] first fs with
                | (inr _, fs') => (inr [first], fs')
                | (inl e, fs') => (inl e, fs')
                end).
Proof.
  intros Hread run first. unfold run, chunk_file. rewrite Hread.
  split; [|split; [|split]].
  - intros ->. done.
  - intros Hne ->. by rewrite bool_decide_eq_false_2 by done.
  - intros Hneg Hlen.
    rewrite bool_decide_eq_false_2 by (intros ->; simpl in Hlen; lia).
    destruct (chunk_size =? 0) eqn:Hz; [apply Z.eqb_eq in Hz; lia|].
    assert ((Z.of_nat (length cidrs) + chunk_size - 1) / chunk_size ≤ 0) as Hk.
    { pose proof (Z.div_mod (Z.of_nat (length cidrs) + chunk_size - 1)
                    chunk_size ltac:(lia)) as Hdm.
      pose proof (Z.mod_neg_bound (Z.of_nat (length cidrs) + chunk_size - 1)
                    chunk_size Hneg) as Hmod.
      nia. }
    unfold range. replace (Z.to_nat _) with 0%nat by lia. done.
  - intros Hneg Hlen. destruct cidrs as [|entry [|? ?]]; try done.
    rewrite bool_decide_eq_false_2 by done.
    destruct (chunk_size =? 0) eqn:Hz; [apply Z.eqb_eq in Hz; lia|].
    simpl length.
    replace (Z.of_nat 1 + chunk_size - 1) with chunk_size by lia.
    rewrite Z.div_same by lia. unfold range. simpl seq.
    cbn [chunk_loop]. fold (output_path output_dir
                              (default (pathlib.stem input_path) prefix) 0).
    fold first. destruct dry_run; [done|].
    assert (chunk_cidrs [entry] chunk_size 0 = []) as ->.
    { unfold chunk_cidrs, py_slice, slice_index. simpl.
      rewrite Z.min_l by lia.
      match goal with |- context [take ?n _] => replace n with 0%nat end;
        [done|].
      destruct (_ <? 0) eqn:Hlt; [|apply Z.ltb_ge in Hlt]; lia. }
    by destruct (write_chunk [] first fs) as [[e|[]] fs'].
Qed.

(** A source list of a single entry. *)
Definition one_entry_fs : filesystem :=
  filesystem_of [(["one.txt"], "1.1.1.1/32" ++ Py.nl)] [].

(** X8, on a single entry and a chunk size of -5: one empty file. *)
Lemma chunk_file_edges_witness :
  let run := chunk_file "one.txt" "out" (-5) None false one_entry_fs in
  run.1 = inr ["out/one-part-001.txt"] ∧
  read_text run.2 "out/one-part-001.txt" = inr "".
Proof.
  cbv zeta.
  rewrite (proj2 (proj2 (proj2
             (chunk_file_edges one_entry_fs "one.txt" "out" (-5) None false
                ["1.1.1.1/32"] eq_refl))) ltac:(lia) eq_refl).
  split; reflexivity.
Defined.

End chunker_sizes.

(** ** The chunker: [main] *)

Section chunker_main.
Import Py chunk.

(** A run of the loop changes nothing but where the chunk paths and their
    ancestors lead. *)
Lemma chunk_loop_touched cidrs output_dir chunk_size prefix dry_run rng
    output_files fs r fs' loc :
  chunk_loop cidrs output_dir chunk_size prefix dry_run rng output_files fs
    = (r, fs') →
  node_at fs' loc ≠ node_at fs loc →
  ∃ i, touched fs (pathlib.Path (output_path output_dir prefix i)) loc.
Proof.
  revert output_files fs. induction rng as [|i rng IH]; intros output_files fs.
  - simpl. by intros [= <- <-].
  - cbn [chunk_loop]. destruct dry_run; [apply IH|].
    unfold write_chunk. fold (output_path output_dir prefix i).
    destruct (write_lines (output_path output_dir prefix i)
                (render (chunk_cidrs cidrs chunk_size i)) fs)
      as [[e|[]] fs1] eqn:Hwrite.
    + intros [= <- <-] Hloc. exists i. by eapply write_lines_touched.
    + intros Hrest Hloc.
      destruct (decide (node_at fs1 loc = node_at fs loc)) as [Hsame|Hdiff].
      * rewrite <-Hsame in Hloc. destruct (IH _ _ Hrest Hloc) as [j Hj].
        exists j. eapply touched_cwd; [|done].
        apply write_lines_keeps in Hwrite. apply (kd_cwd _ _ Hwrite).
      * exists i. by eapply write_lines_touched.
Qed.

Lemma chunk_file_dry input_path output_dir chunk_size prefix fs :
  (chunk_file input_path output_dir chunk_size prefix true fs).2 = fs.
Proof.
  unfold chunk_file. destruct (read_cidrs fs input_path) as [e|cidrs]; [done|].
  case_bool_decide; [done|]. destruct (chunk_size =? 0); [done|].
  by rewrite chunk_loop_dry.
Qed.

Lemma chunk_file_keeps input_path output_dir chunk_size prefix dry_run fs :
  keeps_dirs fs
    (chunk_file input_path output_dir chunk_size prefix dry_run fs).2.
Proof.
  unfold chunk_file.
  destruct (read_cidrs fs input_path) as [e|cidrs]; [apply keeps_dirs_refl|].
  case_bool_decide; [apply keeps_dirs_refl|].
  destruct (chunk_size =? 0); [apply keeps_dirs_refl|].
  destruct (chunk_loop _ _ _ _ _ _ _ _) as [r fs'] eqn:Hloop.
  by eapply chunk_loop_keeps.
Qed.

Lemma chunk_file_touched input_path output_dir chunk_size prefix dry_run fs
    loc :
  let fs' := (chunk_file input_path output_dir chunk_size prefix dry_run fs).2 in
  node_at fs' loc ≠ node_at fs loc →
  ∃ i, touched fs
         (pathlib.Path
            (output_path output_dir
               (default (pathlib.stem input_path) prefix) i)) loc.
Proof.
  cbv zeta. unfold chunk_file.
  destruct (read_cidrs fs input_path) as [e|cidrs]; [done|].
  case_bool_decide; [done|]. destruct (chunk_size =? 0); [done|].
  destruct (chunk_loop _ _ _ _ _ _ _ _) as [r fs'] eqn:Hloop.
  by eapply chunk_loop_touched.
Qed.

(** A dry run over the provider files writes nothing. *)
Lemma chunk_all_dry chunks_dir provider_files size fs :
  (chunk_all chunks_dir provider_files size true fs).2 = fs.
Proof.
  induction provider_files as [|f rest IH]; [done|]. simpl.
  destruct (read_cidrs fs f) as [e|cidrs]; [done|].
  destruct (size <? Z.of_nat (length cidrs)); [|apply IH].
  pose proof (chunk_file_dry f (pathlib.joinpath chunks_dir (pathlib.stem f))
                size (Some (pathlib.stem f)) fs) as Hdry.
  destruct (chunk_file _ _ _ _ _ _) as [[e|output_files] fs1]; simpl in *.
  - done.
  - subst fs1. apply IH.
Qed.

(** The loop over the provider files keeps the directories, and changes
    nothing but where the chunk paths and their ancestors lead. *)
Lemma chunk_all_touched chunks_dir provider_files size dry_run fs :
  let fs' := (chunk_all chunks_dir provider_files size dry_run fs).2 in
  keeps_dirs fs fs' ∧
  ∀ loc, node_at fs' loc ≠ node_at fs loc →
    ∃ f i, touched fs
             (pathlib.Path
                (output_path (pathlib.joinpath chunks_dir (pathlib.stem f))
                   (pathlib.stem f) i)) loc.
Proof.
  cbv zeta. revert fs.
  induction provider_files as [|f rest IH]; intros fs.
  { split; [apply keeps_dirs_refl|done]. }
  simpl. destruct (read_cidrs fs f) as [e|cidrs].
  { split; [apply keeps_dirs_refl|done]. }
  destruct (size <? Z.of_nat (length cidrs)); [|apply IH].
  set (output_dir := pathlib.joinpath chunks_dir (pathlib.stem f)).
  pose proof (chunk_file_keeps f output_dir size (Some (pathlib.stem f))
                dry_run fs) as Hkeeps.
  pose proof (chunk_file_touched f output_dir size (Some (pathlib.stem f))
                dry_run fs) as Htouched.
  destruct (chunk_file f output_dir size (Some (pathlib.stem f)) dry_run fs)
    as [[e|output_files] fs1]; simpl in *.
  - split; [done|]. intros loc Hloc. exists f. by apply Htouched.
  - destruct (IH fs1) as [Hkeeps' Htouched']. split.
    + by eapply keeps_dirs_trans.
    + intros loc Hloc.
      destruct (decide (node_at fs1 loc = node_at fs loc)) as [Hsame|Hdiff].
      * rewrite <-Hsame in Hloc.
        destruct (Htouched' loc Hloc) as (g & i & Hg). exists g, i.
        eapply touched_cwd; [|done]. apply (kd_cwd _ _ Hkeeps).
      * exists f. by apply Htouched.
Qed.

(** Provider files within the limit are left alone. *)
Lemma chunk_all_within_limit chunks_dir provider_files size dry_run fs :
  Forall (λ f, ∃ cidrs, read_cidrs fs f = inr cidrs ∧
                        Z.of_nat (length cidrs) ≤ size) provider_files →
  chunk_all chunks_dir provider_files size dry_run fs = (inr (), fs).
Proof.
  induction 1 as [|f rest (cidrs & Hread & Hlen) _ IH]; [done|].
  simpl. rewrite Hread.
  destruct (size <? Z.of_nat (length cidrs)) eqn:Hlt; [|done].
  apply Z.ltb_lt in Hlt. lia.
Qed.

(** *** A stem holds no separator *)

Lemma split_keeps_absent c sep s :
  contains c s = false →
  Forall (λ part, contains c part = false) (split sep s).
Proof.
  induction s as [|d r IH]; [by repeat constructor|]. simpl.
  intros [Hd Hr]%orb_false_elim. specialize (IH Hr).
  destruct (Ascii.eqb d sep); [by constructor|].
  destruct (split sep r) as [|w ws]; simpl.
  - repeat constructor. simpl. by rewrite Hd.
  - apply Forall_cons in IH as [Hw Hws]. constructor; [|done].
    simpl. by rewrite Hd, Hw.
Qed.

Lemma join_keeps_absent c sep l :
  contains c sep = false →
  Forall (λ part, contains c part = false) l →
  contains c (join sep l) = false.
Proof.
  intros Hsep. induction 1 as [|x l Hx Hl IH]; [done|].
  destruct l as [|y l]; [done|].
  change (join sep (x :: y :: l)) with (x ++ sep ++ join sep (y :: l)).
  by rewrite !contains_app, Hx, Hsep, IH.
Qed.

Lemma Forall_removelast {A} (P : A → Prop) (l : list A) :
  Forall P l → Forall P (removelast l).
Proof.
  destruct l as [|x l _] using rev_ind; [done|].
  rewrite removelast_last. by intros [? _]%Forall_app.
Qed.

Lemma name_no_sep path : contains "/" (pathlib.name path) = false.
Proof.
  unfold pathlib.name.
  assert (Forall (λ part, contains "/" part = false)
            (filter (λ c, c ≠ "" ∧ c ≠ ".") (split "/" path))) as Hparts.
  { apply Forall_forall. intros x [_ Hx]%list_elem_of_filter. revert x Hx.
    apply Forall_forall, split_no_sep. }
  destruct (filter _ _) as [|x l _] using rev_ind; [done|].
  rewrite last_snoc. simpl. by apply Forall_app in Hparts as [_ [? _]%Forall_cons].
Qed.

Lemma stem_no_sep path : contains "/" (pathlib.stem path) = false.
Proof.
  unfold pathlib.stem. cbv zeta.
  destruct (_ && _); [|apply name_no_sep].
  apply join_keeps_absent; [done|].
  apply Forall_removelast, split_keeps_absent, name_no_sep.
Qed.

(** The path of chunk [i] of the provider list of stem [stem]. *)
Lemma chunks_path stem i :
  contains "/" stem = false →
  pathlib.Path
    (output_path (pathlib.joinpath "lists/chunks" stem) stem i) =
  {| pathlib.root := "";
     pathlib.parts :=
       (["lists"; "chunks"] ++ filter (λ x, x ≠ "" ∧ x ≠ ".") [stem]
        ++ [(stem ++ part_suffix i)%string])%list |}.
Proof.
  intros Hstem. unfold output_path. rewrite Path_joinpath.
  unfold pathlib.truediv. rewrite Path_joinpath, output_filename_suffix.
  rewrite Path_app by (apply part_suffix_no_sep || apply part_suffix_length).
  assert (pathlib.splitroot stem = ("", stem)) as Hroot.
  { apply splitroot_relative. intros c r -> ->. simpl in Hstem. done. }
  rewrite Hroot. simpl.
  unfold pathlib.truediv, pathlib.Path. rewrite Hroot. simpl.
  rewrite !split_no_sep_id by done. reflexivity.
Qed.

(** No chunk path and no ancestor of one leads to an entry of
    [lists/providers]. *)
Lemma chunks_touched_not_provider fs stem i loc name :
  contains "/" stem = false →
  touched fs
    (pathlib.Path
       (output_path (pathlib.joinpath "lists/chunks" stem) stem i)) loc →
  loc ≠ name :: "providers" :: "lists" :: fs_cwd fs.
Proof.
  intros Hstem. rewrite chunks_path by done.
  intros (k & Hk & ->). simpl in Hk. simpl pathlib.root. simpl pathlib.parts.
  change (eqs "" "") with true. cbv iota.
  pose proof (part_name_not_dotdot stem i) as Hname.
  apply eqs_false in Hname.
  destruct (decide (stem ≠ "" ∧ stem ≠ ".")) as [Hkeep|Hdrop].
  - rewrite filter_cons_True in * by done. rewrite filter_nil in *.
    simpl in Hk.
    destruct k as [|[|[|[|[|k]]]]]; simpl in Hk; try lia;
      simpl; rewrite ?Hname; destruct (eqs stem ".."); simpl;
      intros Heq;
      ((by injection Heq)
       || (apply (f_equal length) in Heq; simpl in Heq; lia)).
  - rewrite filter_cons_False in * by done. rewrite filter_nil in *.
    simpl in Hk.
    destruct k as [|[|[|[|k]]]]; simpl in Hk; try lia;
      simpl; rewrite ?Hname; simpl;
      intros Heq;
      ((by injection Heq)
       || (apply (f_equal length) in Heq; simpl in Heq; lia)).
Qed.

(** X9. The mode [--all-providers].  Without the providers directory the
    run exits with 1 and changes nothing.  A dry run changes nothing.  A
    run that writes keeps every directory, and no entry of the directory
    [lists/providers] is created, changed or removed by it: the provider
    lists themselves are never touched.  When every provider list holds
    at most [size] entries the run exits with 0 and changes nothing. *)
Theorem chunk_main_all_providers (input output_dir : string) (size : Z)
    (prefix : option string) (dry_run : bool) (fs : filesystem) :
  let run := main input output_dir size prefix dry_run true fs in
  (path_exists fs "lists/providers" = false → run = (inr 1, fs)) ∧
  (dry_run = true → run.2 = fs) ∧
  keeps_dirs fs run.2 ∧
  (∀ name,
     node_at run.2 (name :: "providers" :: "lists" :: fs_cwd fs)
     = node_at fs (name :: "providers" :: "lists" :: fs_cwd fs)) ∧
  (path_exists fs "lists/providers" = true →
   Forall (λ f, ∃ cidrs, read_cidrs fs f = inr cidrs ∧
                         Z.of_nat (length cidrs) ≤ size)
     (glob_txt fs "lists/providers") →
   run = (inr 0, fs)).
Proof.
  cbv zeta. unfold main.
  destruct (path_exists fs "lists/providers") eqn:Hexists; simpl.
  2:{ split; [done|]. split; [done|]. split; [apply keeps_dirs_refl|].
      by split. }
  set (files := merge_sort String.le (glob_txt fs "lists/providers")).
  destruct (chunk_all_touched "lists/chunks" files size dry_run fs)
    as [Hkeeps Htouched].
  pose proof (chunk_all_dry "lists/chunks" files size fs) as Hdry.
  split; [done|].
  split; [intros ->; by destruct (chunk_all _ _ _ _ _) as [[e|[]] fs']|].
  split; [by destruct (chunk_all _ _ _ _ _) as [[e|[]] fs']|]. split.
  - intros name.
    assert (node_at (chunk_all "lists/chunks" files size dry_run fs).2
              (name :: "providers" :: "lists" :: fs_cwd fs)
            = node_at fs (name :: "providers" :: "lists" :: fs_cwd fs))
      as Hsame; [|by destruct (chunk_all _ _ _ _ _) as [[e|[]] fs']].
    destruct (decide (node_at (chunk_all "lists/chunks" files size dry_run fs).2
                        (name :: "providers" :: "lists" :: fs_cwd fs)
                      = node_at fs
                          (name :: "providers" :: "lists" :: fs_cwd fs)))
      as [|Hdiff]; [done|].
    destruct (Htouched _ Hdiff) as (f & i & Hf).
    by apply chunks_touched_not_provider with (name := name) in Hf;
      [|apply stem_no_sep].
  - intros _ Hwithin. rewrite chunk_all_within_limit; [done|].
    unfold files. by rewrite (merge_sort_Permutation String.le).
Qed.

(** Two provider lists, of three and of two entries. *)
Definition providers_fs : filesystem :=
  filesystem_of
    [(["a.txt"; "providers"; "lists"],
      "1.1.1.1/32" ++ nl ++ "2.2.2.2/32" ++ nl ++ "3.3.3.3/32" ++ nl);
     (["b.txt"; "providers"; "lists"],
      "1.1.1.1/32" ++ nl ++ "2.2.2.2/32" ++ nl)] [].

(** X9, on two lists within a limit of three: nothing to do. *)
Lemma chunk_main_all_providers_witness :
  main "unused" "unused" 3 None false true providers_fs = (inr 0, providers_fs).
Proof.
  apply (proj2 (proj2 (proj2 (proj2
           (chunk_main_all_providers "unused" "unused" 3 None false
              providers_fs))))); [reflexivity|].
  assert (glob_txt providers_fs "lists/providers"
          = ["lists/providers/b.txt"; "lists/providers/a.txt"]) as ->
    by by vm_compute.
  repeat constructor.
  - exists ["1.1.1.1/32"; "2.2.2.2/32"].
    split; [reflexivity|simpl; lia].
  - exists ["1.1.1.1/32"; "2.2.2.2/32"; "3.3.3.3/32"].
    split; [reflexivity|simpl; lia].
Defined.

(** With the limit at two, the list of three entries is cut in two files
    below [lists/chunks/a/], and the lists are as they were. *)
Example chunk_main_all_providers_sample :
  let run := main "unused" "unused" 2 None false true providers_fs in
  run.1 = inr 0 ∧
  read_text run.2 "lists/chunks/a/a-part-001.txt"
    = inr ("1.1.1.1/32" ++ nl ++ "2.2.2.2/32" ++ nl) ∧
  read_text run.2 "lists/chunks/a/a-part-002.txt" = inr ("3.3.3.3/32" ++ nl) ∧
  is_dir run.2 "lists/chunks/a" = true ∧
  path_exists run.2 "lists/chunks/b" = false ∧
  read_text run.2 "lists/providers/a.txt"
    = read_text providers_fs "lists/providers/a.txt".
Proof. by vm_compute. Qed.

(** X10. The single-file mode, with a chunk size of at least one and an
    input that is no directory.  The run exits with 1 exactly when the
    input is missing or holds no entry, and it has then changed nothing.
    Otherwise a dry run exits with 0, and a run that writes exits with 0
    unless making the directory or writing a file raises, in which case
    the exception escapes.  A dry run changes nothing; after a run that
    writes and exits with 0 the first chunk file holds the first chunk,
    one entry per line. *)
Theorem chunk_main_single_file (input output_dir : string) (size : Z)
    (prefix : option string) (dry_run : bool) (fs : filesystem) :
  1 ≤ size →
  is_dir fs input = false →
  let run := main input output_dir size prefix dry_run false fs in
  let holds_entries :=
    ∃ cidrs, read_cidrs fs input = inr cidrs ∧ cidrs ≠ [] in
  let first :=
    output_path output_dir (default (pathlib.stem input) prefix) 0 in
  (run.1 = inr 1 ↔ ¬ holds_entries) ∧
  (holds_entries →
   run.1 = inr 0 ∨ (dry_run = false ∧ ∃ e, run.1 = inl e)) ∧
  (run.1 = inr 1 → run.2 = fs) ∧
  (dry_run = true → run.2 = fs) ∧
  (dry_run = false → run.1 = inr 0 →
   ∃ cidrs, read_cidrs fs input = inr cidrs ∧
            read_text run.2 first = inr (render (chunk_cidrs cidrs size 0))).
Proof.
  intros Hsize Hdir. cbv zeta. unfold main, path_exists.
  rewrite Hdir, orb_false_r.
  destruct (is_file fs input) eqn:Hfile; simpl.
  2:{ assert (¬ ∃ cidrs, read_cidrs fs input = inr cidrs ∧ cidrs ≠ [])
        as Hnone.
      { intros (cidrs & Hread & _).
        apply read_cidrs_inr in Hread as (text & Htext & _).
        apply read_text_inr in Htext as (loc & Hres & Hnode).
        unfold is_file, stat in Hfile. by rewrite Hres, Hnode in Hfile. }
      split; [done|]. split; [done|]. split; [done|]. by split. }
  apply is_file_read_text in Hfile as [text Htext].
  assert (read_cidrs fs input = inr (cidrs_of_lines (readlines text))) as Hread.
  { unfold read_cidrs, open_r. by rewrite Htext. }
  set (cidrs := cidrs_of_lines (readlines text)) in *.
  destruct (decide (cidrs = [])) as [Hempty|Hne].
  { unfold chunk_file. rewrite Hread, bool_decide_eq_true_2 by done. simpl.
    assert (¬ ∃ cidrs0, (inr cidrs : exn + list string) = inr cidrs0
                        ∧ cidrs0 ≠ []) as Hnone.
    { by intros (? & [= <-] & ?). }
    split; [done|]. split; [done|]. split; [done|]. by split. }
  rewrite (chunk_file_loop _ _ _ _ _ _ cidrs) by (done || lia).
  set (prefix' := default (pathlib.stem input) prefix).
  destruct (chunk_cidrs_concat cidrs size Hne Hsize) as (Hk & _ & _).
  cbv zeta in Hk.
  set (k := Z.to_nat ((Z.of_nat (length cidrs) + size - 1) / size)) in *.
  assert (∃ cidrs0, read_cidrs fs input = inr cidrs0 ∧ cidrs0 ≠ [])
    as Hsome by by exists cidrs.
  destruct dry_run.
  - rewrite chunk_loop_dry. simpl.
    destruct k as [|k']; [lia|]. simpl seq. rewrite fmap_cons.
    rewrite bool_decide_eq_false_2 by done. simpl.
    split; [split; [done|by intros []]|].
    split; [by left|]. by repeat split.
  - destruct (chunk_loop cidrs output_dir size prefix' false (seq 0 k) [] fs)
      as [[e|output_files] fs'] eqn:Hloop; simpl.
    + split; [split; [done|by intros []]|].
      split; [right; split; [done|by exists e]|]. by repeat split.
    + destruct (chunk_loop_real _ _ _ _ _ _ _ _ _ Hloop)
        as (-> & _ & _ & Hfiles).
      destruct k as [|k']; [lia|]. simpl seq. rewrite fmap_cons.
      rewrite bool_decide_eq_false_2 by done. simpl.
      split; [split; [done|by intros []]|].
      split; [by left|]. split; [done|]. split; [done|].
      intros _ _. exists cidrs. split; [done|].
      apply Hfiles; [apply NoDup_seq|]. apply elem_of_seq. lia.
Qed.

(** X10, on the sample source cut by two. *)
Lemma chunk_main_single_file_witness :
  let run :=
    main "lists/providers/tor.txt" "lists/chunks/tor" 2 None false false
      five_entries_fs in
  run.1 = inr 0 ∧
  read_text run.2 "lists/chunks/tor/tor-part-001.txt"
    = inr ("1.1.1.1/32" ++ nl ++ "2.2.2.2/32" ++ nl).
Proof.
  cbv zeta.
  destruct (chunk_main_single_file "lists/providers/tor.txt"
              "lists/chunks/tor" 2 None false five_entries_fs
              ltac:(lia) eq_refl)
    as (_ & _ & _ & _ & Hfirst).
  assert ((main "lists/providers/tor.txt" "lists/chunks/tor" 2 None false
             false five_entries_fs).1 = inr 0) as Hcode by by vm_compute.
  split; [done|].
  destruct (Hfirst eq_refl Hcode) as (cidrs & Hread & Htext).
  vm_compute in Hread. injection Hread as <-. exact Htext.
Defined.

End chunker_main.

(** ** The fetcher: dry runs, failures and the files touched *)

Section fetcher_effects.
Import ipaddress fetch.
Variable ip_network : ip_network_t.
Variable findall_cidr_pattern : string → list string.
Variable json_loads : string → exn + json.
Variable sorted_set_other : list json → exn + list json.
Variable str_other : json → string.
Variable urlopen : list string → string → exn + string.

Local Abbreviation format_value := (fetch.format_value str_other).
Local Abbreviation fetch_provider :=
  (fetch_provider ip_network findall_cidr_pattern json_loads sorted_set_other
     str_other urlopen).
Local Abbreviation run_all :=
  (run_all ip_network findall_cidr_pattern json_loads sorted_set_other
     str_other urlopen).
Local Abbreviation main :=
  (main ip_network findall_cidr_pattern json_loads sorted_set_other
     str_other urlopen).
Local Abbreviation parsed_of :=
  (parsed ip_network findall_cidr_pattern json_loads urlopen).
Local Abbreviation to_write_of :=
  (to_write ip_network findall_cidr_pattern json_loads sorted_set_other
     urlopen).

(** The outcome of a real fetch, given the outcome of the dry one: the
    same, or a failure where the dry fetch succeeded. *)
Definition predicted (dry real : bool * nat) : Prop :=
  real = dry ∨ (dry.1 = true ∧ real = (false, 0%nat)).

(** A dry fetch and a real fetch that start after the same requests leave
    the same requests; the dry one leaves the files alone, and predicts
    the real one up to the failure of the write. *)
Lemma fetch_provider_dry name w1 w2 :
  w_requests w1 = w_requests w2 →
  (∃ dry real,
     (fetch_provider name true w1).1 = inr dry ∧
     (fetch_provider name false w2).1 = inr real ∧
     predicted dry real) ∧
  w_requests (fetch_provider name true w1).2
    = w_requests (fetch_provider name false w2).2 ∧
  w_fs (fetch_provider name true w1).2 = w_fs w1.
Proof.
  intros Hreq. rewrite !fetch_provider_run.
  destruct (dict_get PROVIDERS name) as [config|].
  2:{ split; [|done]. eexists _, _. split; [done|]. split; [done|]. by left. }
  rewrite (to_write_requests _ _ _ _ _ config w1 w2 Hreq).
  destruct (to_write_of config w2) as [sorted|]; simpl.
  2:{ rewrite Hreq. split; [|done]. eexists _, _.
      split; [done|]. split; [done|]. by left. }
  rewrite Hreq. split; [|done]. eexists _, _. split; [done|]. split; [done|].
  destruct (write_lines _ _ _).1 as [e|[]]; [by right|by left].
Qed.

Lemma run_all_dry names w1 w2 :
  w_requests w1 = w_requests w2 →
  Forall2 predicted (run_all names true w1).1 (run_all names false w2).1 ∧
  w_requests (run_all names true w1).2
    = w_requests (run_all names false w2).2 ∧
  w_fs (run_all names true w1).2 = w_fs w1.
Proof.
  revert w1 w2. induction names as [|name rest IH]; intros w1 w2 Hreq.
  { by repeat split. }
  simpl.
  destruct (fetch_provider_dry name w1 w2 Hreq)
    as ((dry & real & Hdry & Hreal & Hpredicted) & Hreq' & Hfs).
  destruct (IH _ _ Hreq') as (Houts & Hreqs & Hfss).
  rewrite Hdry, Hreal, Hreqs, Hfss. split; [|done]. by constructor.
Qed.

Lemma predicted_success outcomes outcomes' :
  Forall2 predicted outcomes outcomes' →
  Forall (λ o, o.1 = true) outcomes' → Forall (λ o, o.1 = true) outcomes.
Proof.
  induction 1 as [|dry real ds rs Hp _ IH]; [done|].
  intros [Hreal Hrs]%Forall_cons. constructor; [|by apply IH].
  by destruct Hp as [->|[? ->]].
Qed.

(** X11. A dry batch against the real one, started in the same world: it
    makes the same requests and leaves every file as it was; provider by
    provider its outcome is that of the real batch, except that the real
    one fails with count 0 where the directory cannot be made or the file
    cannot be written; so the dry batch exits with 0 whenever the real one
    does. *)
Theorem fetch_main_dry_run (providers : list string) (w : world) :
  let names := providers_to_fetch providers in
  w_requests (main providers true false w).2
    = w_requests (main providers false false w).2 ∧
  w_fs (main providers true false w).2 = w_fs w ∧
  Forall2 predicted (run_all names true w).1 (run_all names false w).1 ∧
  ((main providers false false w).1 = inr 0 →
   (main providers true false w).1 = inr 0).
Proof.
  cbv zeta. unfold fetch.main, bind, ret. rewrite !fetch_loop_run. simpl.
  destruct (run_all_dry (providers_to_fetch providers) w w eq_refl)
    as (Houts & Hreqs & Hfs).
  split; [done|]. split; [done|]. split; [done|].
  set (names := providers_to_fetch providers) in *.
  pose proof (run_all_length ip_network findall_cidr_pattern json_loads
                sorted_set_other str_other urlopen names true w) as Hdry.
  pose proof (run_all_length ip_network findall_cidr_pattern json_loads
                sorted_set_other str_other urlopen names false w) as Hreal.
  destruct (_ =? _)%nat eqn:Hall; [|done]. intros _.
  apply Nat.eqb_eq in Hall. rewrite <-Hreal in Hall.
  apply (proj1 (filter_length_all _ _)) in Hall.
  apply (predicted_success _ _ Houts) in Hall.
  apply (proj2 (filter_length_all _ _)) in Hall. rewrite Hdry in Hall.
  apply Nat.eqb_eq in Hall. by rewrite Hall.
Qed.

(** X12. A fetch never raises, and a fetch that fails reports the count 0.
    An unknown name leaves the world as it was, requests included; a dry
    run, and a fetch with nothing to write (the transport failed, the
    parser raised or found nothing), leave every file as it was.  A fetch
    that succeeds had entries to write and reports their number; when they
    are strings that is the number of distinct parsed entries, at least
    one and at most the number of parsed entries; and when the run is not
    dry the output file holds them, one per line. *)
Theorem fetch_provider_outcome (name : string) (dry_run : bool) (w : world)
    (success : bool) (count : nat) :
  (fetch_provider name dry_run w).1 = inr (success, count) →
  (success = false → count = 0%nat) ∧
  (dict_get PROVIDERS name = None →
     success = false ∧ (fetch_provider name dry_run w).2 = w) ∧
  (dry_run = true → w_fs (fetch_provider name dry_run w).2 = w_fs w) ∧
  (∀ config,
     dict_get PROVIDERS name = Some config → to_write_of config w = None →
     success = false ∧ w_fs (fetch_provider name dry_run w).2 = w_fs w) ∧
  (success = true →
     ∃ config sorted,
       dict_get PROVIDERS name = Some config ∧
       to_write_of config w = Some sorted ∧
       count = length sorted ∧
       (∀ cidrs : list string,
          parsed_of config w = inr (JString <$> cidrs) →
          count = size (list_to_set cidrs : gset string) ∧
          (1 ≤ count ∧ count ≤ length cidrs)%nat) ∧
       (dry_run = false →
        read_text (w_fs (fetch_provider name dry_run w).2) (output config)
        = inr (render (format_value <$> sorted)))).
Proof.
  rewrite fetch_provider_run.
  destruct (dict_get PROVIDERS name) as [config|] eqn:Hname.
  2:{ intros [= <- <-]. by repeat split. }
  destruct (to_write_of config w) as [sorted|] eqn:Hsome.
  2:{ intros [= <- <-]. by repeat split. }
  assert (∀ cidrs : list string,
            parsed_of config w = inr (JString <$> cidrs) →
            length sorted = size (list_to_set cidrs : gset string) ∧
            (1 ≤ length sorted ∧ length sorted ≤ length cidrs)%nat)
    as Hstrings.
  { intros cidrs Hparsed.
    assert (cidrs ≠ []) as Hne.
    { intros ->. unfold to_write in Hsome. by rewrite Hparsed in Hsome. }
    rewrite (to_write_strings _ _ _ _ _ _ _ cidrs Hparsed Hne) in Hsome.
    injection Hsome as <-. rewrite length_fmap, sorted_set_length.
    split; [done|]. split.
    - destruct cidrs as [|entry cidrs]; [done|]. simpl.
      rewrite size_union_alt, size_singleton. lia.
    - apply size_list_to_set_le. }
  assert (∀ (P : Prop) config0,
            Some config = Some config0 → to_write_of config0 w = None → P)
    as Hwrites.
  { intros P config0 [= <-] Hnone. congruence. }
  destruct dry_run.
  { intros [= <- <-]. split; [done|]. split; [done|]. split; [done|].
    split; [apply Hwrites|]. intros _. exists config, sorted.
    split; [done|]. split; [done|]. split; [done|]. by split. }
  cbv zeta.
  destruct (write_lines (output config) (render (format_value <$> sorted))
              (w_fs w)) as [[e|[]] fs'] eqn:Hwrite; simpl.
  { intros [= <- <-]. split; [done|]. split; [done|]. split; [done|].
    split; [apply Hwrites|done]. }
  intros [= <- <-]. split; [done|]. split; [done|]. split; [done|].
  split; [apply Hwrites|]. intros _. exists config, sorted.
  split; [done|]. split; [done|]. split; [done|]. split; [done|].
  intros _. by eapply write_lines_read.
Qed.

(** *** The places a fetch may change *)

(** The directories [lists] and [lists/providers] and the six output
    files, by their location from the working directory [cwd]. *)
Definition output_places (cwd : list string) : list (list string) :=
  ("lists" :: cwd) :: ("providers" :: "lists" :: cwd)
  :: ((λ kv, pathlib.name (output kv.2) :: "providers" :: "lists" :: cwd)
        <$> PROVIDERS).

Lemma output_touched name config fs loc :
  dict_get PROVIDERS name = Some config →
  touched fs (pathlib.Path (output config)) loc →
  loc ∈ output_places (fs_cwd fs).
Proof.
  intros Hin%dict_get_elem_of (k & Hk & ->). unfold PROVIDERS in Hin.
  repeat (apply elem_of_cons in Hin as [[= -> ->]|Hin];
          [simpl in Hk;
           destruct k as [|[|[|[|k]]]]; simpl in Hk; try lia;
           unfold output_places; simpl;
           repeat ((by left) || right)|]).
  by apply elem_of_nil in Hin.
Qed.

Lemma fetch_provider_places name dry_run w loc :
  loc ∉ output_places (fs_cwd (w_fs w)) →
  node_at (w_fs (fetch_provider name dry_run w).2) loc = node_at (w_fs w) loc
  ∧ keeps_dirs (w_fs w) (w_fs (fetch_provider name dry_run w).2).
Proof.
  intros Hloc. rewrite fetch_provider_run.
  destruct (dict_get PROVIDERS name) as [config|] eqn:Hname;
    [|split; [done|apply keeps_dirs_refl]].
  destruct (to_write_of config w) as [sorted|];
    [|split; [done|apply keeps_dirs_refl]].
  destruct dry_run; [split; [done|apply keeps_dirs_refl]|].
  cbv zeta.
  destruct (write_lines (output config) (render (format_value <$> sorted))
              (w_fs w)) as [r fs'] eqn:Hwrite; simpl.
  split; [|by eapply write_lines_keeps].
  destruct (decide (node_at fs' loc = node_at (w_fs w) loc)) as [|Hdiff];
    [done|].
  destruct Hloc. eapply output_touched; [done|].
  by eapply write_lines_touched.
Qed.

Lemma run_all_places names dry_run w loc :
  loc ∉ output_places (fs_cwd (w_fs w)) →
  node_at (w_fs (run_all names dry_run w).2) loc = node_at (w_fs w) loc
  ∧ keeps_dirs (w_fs w) (w_fs (run_all names dry_run w).2).
Proof.
  revert w. induction names as [|name rest IH]; intros w Hloc.
  { split; [done|apply keeps_dirs_refl]. }
  simpl.
  destruct (fetch_provider_places name dry_run w loc Hloc) as [Hnode Hkeeps].
  destruct (IH (fetch_provider name dry_run w).2) as [Hnode' Hkeeps'].
  { by rewrite (kd_cwd _ _ Hkeeps). }
  split; [by rewrite Hnode'|]. by eapply keeps_dirs_trans.
Qed.

(** X13. A batch changes nothing but the directories [lists] and
    [lists/providers], which it makes when they are missing, and the six
    output files of the table in [lists/providers]: every other place
    holds after the run what it held before, whatever was requested and
    whatever the network answered; and no directory is removed or
    replaced. *)
Theorem fetch_main_frame (providers : list string) (dry_run list_flag : bool)
    (w : world) (loc : list string) :
  let cwd := fs_cwd (w_fs w) in
  let w' := (main providers dry_run list_flag w).2 in
  loc ∉ (("lists" :: cwd) :: ("providers" :: "lists" :: cwd)
         :: ((λ file, file :: "providers" :: "lists" :: cwd)
               <$> ["aws.txt"; "digitalocean.txt"; "linode.txt"; "ovh.txt";
                    "tor-exit-nodes.txt"; "vultr.txt"])) →
  node_at (w_fs w') loc = node_at (w_fs w) loc ∧
  keeps_dirs (w_fs w) (w_fs w').
Proof.
  intros cwd w' Hloc. unfold w', fetch.main.
  destruct list_flag; [split; [done|apply keeps_dirs_refl]|].
  unfold bind, ret. rewrite fetch_loop_run. simpl.
  by apply run_all_places.
Qed.

End fetcher_effects.

(** X11, on the sample batch: the dry run and the real one agree on every
    provider. *)
Lemma fetch_main_dry_run_witness :
  (fetch.main ipaddress.example_ip_network example_findall example_json_loads
     example_sorted_set_other example_str_other example_urlopen
     ["tor"; "ovh"] true false example_world).1 = inr 0.
Proof.
  apply (fetch_main_dry_run ipaddress.example_ip_network example_findall
           example_json_loads example_sorted_set_other example_str_other
           example_urlopen ["tor"; "ovh"] example_world).
  by vm_compute.
Defined.

(** X12, on the sample Tor endpoint: the fetch succeeds with two distinct
    entries out of three parsed ones, and they are in the file. *)
Lemma fetch_provider_outcome_witness :
  let run :=
    fetch.fetch_provider ipaddress.example_ip_network example_findall
      example_json_loads example_sorted_set_other example_str_other
      example_urlopen "tor" false example_world in
  run.1 = inr (true, 2%nat) ∧
  read_text (fetch.w_fs run.2) "lists/providers/tor-exit-nodes.txt"
    = inr ("192.0.2.1/32" ++ Py.nl ++ "198.51.100.7/32" ++ Py.nl).
Proof.
  cbv zeta.
  assert ((fetch.fetch_provider ipaddress.example_ip_network example_findall
             example_json_loads example_sorted_set_other example_str_other
             example_urlopen "tor" false example_world).1
          = inr (true, 2%nat)) as Hrun by (vm_compute; reflexivity).
  split; [exact Hrun|].
  destruct (fetch_provider_outcome ipaddress.example_ip_network
              example_findall example_json_loads example_sorted_set_other
              example_str_other example_urlopen "tor" false example_world
              true 2%nat Hrun) as (_ & _ & _ & _ & Hsuccess).
  destruct (Hsuccess eq_refl)
    as (config & sorted & Hconfig & Hsorted & _ & _ & Hfile).
  injection Hconfig as <-. vm_compute in Hsorted. injection Hsorted as <-.
  exact (Hfile eq_refl).
Defined.

(** X13, on the sample batch of all providers: a place outside the table
    holds no file afterwards, as before. *)
Lemma fetch_main_frame_witness :
  node_at
    (fetch.w_fs
       (fetch.main ipaddress.example_ip_network example_findall
          example_json_loads example_sorted_set_other example_str_other
          example_urlopen ["all"] false false example_world).2)
    ["README.md"] = None.
Proof.
  pose proof (fetch_main_frame ipaddress.example_ip_network example_findall
                example_json_loads example_sorted_set_other example_str_other
                example_urlopen ["all"] false false example_world
                ["README.md"]) as Hframe.
  destruct Hframe as [Hnode _].
  - intros Hin. repeat (apply elem_of_cons in Hin as [Hin|Hin];
                        [discriminate Hin|]).
    by apply elem_of_nil in Hin.
  - rewrite Hnode. reflexivity.
Defined.

(** ** The parsers: what their entries look like *)

Section parser_entries.
Import Py ipaddress fetch.

Lemma omap_length_le {A B} (f : A → option B) (l : list A) :
  (length (omap f l) ≤ length l)%nat.
Proof.
  induction l as [|x l IH]; csimpl; [lia|]. destruct (f x); csimpl; lia.
Qed.

Lemma all_chars_app (p : ascii → bool) s t :
  all_chars p (s ++ t) = all_chars p s && all_chars p t.
Proof.
  induction s as [|c r IH]; [done|].
  rewrite append_cons. simpl. by rewrite IH, andb_assoc.
Qed.

Lemma all_chars_true s : all_chars (λ _, true) s = true.
Proof. induction s as [|c r IH]; [done|]. simpl. exact IH. Qed.

Lemma all_chars_lstrip (p : ascii → bool) s :
  all_chars p s = true → all_chars p (lstrip s) = true.
Proof.
  induction s as [|c r IH]; [done|]. simpl.
  intros [Hc Hr]%andb_prop. destruct (isspace c); [by apply IH|].
  simpl. by rewrite Hc, Hr.
Qed.

Lemma all_chars_rstrip (p : ascii → bool) s :
  all_chars p s = true → all_chars p (rstrip s) = true.
Proof.
  induction s as [|c r IH]; [done|]. simpl.
  intros [Hc Hr]%andb_prop.
  destruct (isspace c && eqs (rstrip r) ""); [done|].
  simpl. by rewrite Hc, (IH Hr).
Qed.

Lemma all_chars_strip (p : ascii → bool) s :
  all_chars p s = true → all_chars p (strip s) = true.
Proof. intros Hs. by apply all_chars_rstrip, all_chars_lstrip. Qed.

(** The parts of a split hold the characters of the whole, the separator
    apart. *)
Lemma split_parts (p : ascii → bool) sep s :
  all_chars p s = true →
  Forall (λ part, all_chars p part = true ∧ contains sep part = false)
    (split sep s).
Proof.
  induction s as [|c r IH]; [by repeat constructor|]. simpl.
  intros [Hc Hr]%andb_prop. specialize (IH Hr).
  destruct (Ascii.eqb c sep) eqn:Hsep; [by constructor|].
  destruct (split sep r) as [|w ws]; simpl.
  - repeat constructor; simpl; [by rewrite Hc|by rewrite Hsep].
  - apply Forall_cons in IH as [[Hw Hnot] Hws]. constructor; [|done].
    simpl. by rewrite Hc, Hw, Hsep, Hnot.
Qed.

Lemma contains_all_chars c s :
  contains c s = negb (all_chars (λ d, negb (Ascii.eqb d c)) s).
Proof.
  induction s as [|d r IH]; [done|]. simpl. rewrite IH.
  by destruct (Ascii.eqb d c), (all_chars _ r).
Qed.

Lemma contains_strip c s : contains c s = false → contains c (strip s) = false.
Proof.
  rewrite !contains_all_chars, !negb_false_iff. apply all_chars_strip.
Qed.

(** A stripped text that is not empty starts with a character that is no
    white space. *)
Lemma lstrip_head s :
  lstrip s = "" ∨ ∃ c r, lstrip s = String c r ∧ isspace c = false.
Proof.
  induction s as [|c r IH]; [by left|]. simpl.
  destruct (isspace c) eqn:Hc; [done|]. right. by exists c, r.
Qed.

Lemma rstrip_head c r :
  isspace c = false → rstrip (String c r) = String c (rstrip r).
Proof. intros Hc. simpl. by rewrite Hc. Qed.

Lemma strip_head s :
  strip s = "" ∨ ∃ c r, strip s = String c r ∧ isspace c = false.
Proof.
  unfold strip. destruct (lstrip_head s) as [-> | (c & r & -> & Hc)];
    [by left|].
  right. exists c, (rstrip r). by rewrite rstrip_head.
Qed.

(** The first field of a row that is neither blank nor a comment, once
    stripped, is empty or no comment either. *)
Lemma first_field line part0 parts :
  blank_or_comment (strip line) = false →
  split "," (strip line) = part0 :: parts →
  strip part0 = "" ∨ blank_or_comment (strip part0) = false.
Proof.
  intros Hrow Hsplit.
  destruct (strip_head line) as [Hempty | (c & r & Hline & Hc)].
  { by rewrite Hempty in Hrow. }
  rewrite Hline in Hrow, Hsplit. simpl in Hsplit.
  destruct (Ascii.eqb c ",") eqn:Hcomma.
  { injection Hsplit as <- _. by left. }
  assert (∃ w, part0 = String c w) as [w ->].
  { destruct (split "," r) as [|w ws]; injection Hsplit as <- _; by eexists. }
  right. unfold strip. simpl. rewrite Hc, rstrip_head by done.
  unfold blank_or_comment in *. apply orb_false_iff in Hrow as [_ Hrow].
  apply orb_false_iff. split; [by apply eqs_false|].
  revert Hrow. unfold startswith. cbn [String.prefix].
  destruct (ascii_dec "#" c); [|done]. by destruct r.
Qed.

Lemma split_ws_cons c r :
  split_ws (String c r) =
    if isspace c then split_ws r
    else match r with
         | String c' _ =>
             if isspace c' then String c "" :: split_ws r
             else match split_ws r with
                  | w :: ws => String c w :: ws
                  | [] => [String c ""]
                  end
         | EmptyString => [String c ""]
         end.
Proof. by destruct r. Qed.

(** The words of [s.split()] are not empty and hold no white space. *)
Lemma split_ws_words s :
  Forall (λ word, word ≠ "" ∧ all_chars (λ c, negb (isspace c)) word = true)
    (split_ws s).
Proof.
  induction s as [|c r IH]; [constructor|].
  rewrite split_ws_cons. destruct (isspace c) eqn:Hc; [done|].
  destruct r as [|c' r'].
  { repeat constructor; [done|]. simpl. by rewrite Hc. }
  destruct (isspace c').
  { constructor; [|done]. split; [done|]. simpl. by rewrite Hc. }
  destruct (split_ws (String c' r')) as [|w ws].
  { repeat constructor; [done|]. simpl. by rewrite Hc. }
  apply Forall_cons in IH as [[_ Hw] Hws]. constructor; [|done].
  split; [done|]. simpl. by rewrite Hc, Hw.
Qed.

Lemma no_space_no_line_break s :
  all_chars (λ c, negb (isspace c)) s = true → no_line_break s = true.
Proof.
  induction s as [|c r IH]; [done|]. simpl.
  intros [Hc Hr]%andb_prop. rewrite (IH Hr), andb_true_r.
  destruct (Ascii.eqb c LF) eqn:Hlf.
  { apply Ascii.eqb_eq in Hlf as ->. done. }
  destruct (Ascii.eqb c CR) eqn:Hcr; [|done].
  apply Ascii.eqb_eq in Hcr as ->. done.
Qed.

(** X14. Every entry the Tor parser returns is the second word of a line
    that starts with "ExitAddress ", followed by "/32"; the word is not
    empty and the entry holds no white space, so it is stripped and on one
    line.  The file written from the entries therefore reads back as the
    distinct entries in order, one per line, whatever the endpoint
    sent. *)
Theorem parse_tor_exit_entries (content : string) :
  Forall (λ entry,
            (∃ line word,
               line ∈ split LF content ∧
               startswith "ExitAddress " line = true ∧
               split_ws line !! 1%nat = Some word ∧
               word ≠ "" ∧ entry = word ++ "/32") ∧
            all_chars (λ c, negb (isspace c)) entry = true ∧
            strip entry = entry ∧ no_line_break entry = true)
    (parse_tor_exit content) ∧
  (length (parse_tor_exit content) ≤ length (split LF content))%nat ∧
  let sorted := Py.sorted_set (list_to_set (parse_tor_exit content)) in
  readlines (render sorted) = (λ entry, entry ++ nl) <$> sorted.
Proof.
  assert (Forall (λ entry,
            (∃ line word,
               line ∈ split LF content ∧
               startswith "ExitAddress " line = true ∧
               split_ws line !! 1%nat = Some word ∧
               word ≠ "" ∧ entry = word ++ "/32") ∧
            all_chars (λ c, negb (isspace c)) entry = true ∧
            strip entry = entry ∧ no_line_break entry = true)
          (parse_tor_exit content)) as Hentries.
  { apply Forall_forall. intros entry Hentry. unfold parse_tor_exit in Hentry.
    apply list_elem_of_omap in Hentry as (line & Hline & Hkeep).
    destruct (startswith "ExitAddress " line) eqn:Hstart; [|done].
    destruct (2 <=? length (split_ws line))%nat; [|done].
    destruct (split_ws line !! 1%nat) as [word|] eqn:Hword; [|done].
    injection Hkeep as <-.
    pose proof (split_ws_words line) as Hwords.
    rewrite Forall_lookup in Hwords.
    destruct (Hwords _ _ Hword) as [Hne Hfree].
    assert (all_chars (λ c, negb (isspace c)) (word ++ "/32") = true) as Hall.
    { by rewrite all_chars_app, Hfree. }
    split; [by exists line, word|]. split; [done|].
    split; [by apply strip_no_space|by apply no_space_no_line_break]. }
  split; [done|]. split.
  { unfold parse_tor_exit. apply omap_length_le. }
  cbv zeta. apply readlines_render. apply Forall_forall. intros entry Hentry.
  apply elem_of_sorted_set, elem_of_list_to_set in Hentry.
  rewrite Forall_forall in Hentries. by apply Hentries.
Qed.

(** X15. Every entry the DigitalOcean parser returns holds a slash, is
    stripped, holds neither a comma nor a line feed, and is neither blank
    nor a comment; there are at most as many entries as rows. *)
Theorem parse_digitalocean_csv_entries (content : string) :
  Forall (λ entry,
            contains "/" entry = true ∧ strip entry = entry ∧
            contains "," entry = false ∧ contains LF entry = false ∧
            blank_or_comment entry = false)
    (parse_digitalocean_csv content) ∧
  (length (parse_digitalocean_csv content)
   ≤ length (split LF (strip content)))%nat.
Proof.
  split; [|apply omap_length_le].
  apply Forall_forall. intros entry Hentry.
  unfold parse_digitalocean_csv in Hentry.
  apply list_elem_of_omap in Hentry as (line & Hline & Hkeep).
  cbv zeta in Hkeep.
  destruct (blank_or_comment (strip line)) eqn:Hrow; [done|].
  destruct (split "," (strip line)) as [|part0 parts] eqn:Hsplit; [done|].
  destruct (contains "/" (strip part0)) eqn:Hslash; [|done].
  injection Hkeep as <-.
  split; [done|]. split; [apply strip_idem|].
  pose proof (split_parts (λ _, true) LF (strip content)
                (all_chars_true _)) as Hrows.
  rewrite Forall_forall in Hrows. destruct (Hrows _ Hline) as [_ Hlf].
  apply contains_strip in Hlf.
  rewrite contains_all_chars, negb_false_iff in Hlf.
  pose proof (split_parts _ "," _ Hlf) as Hfields. rewrite Hsplit in Hfields.
  apply Forall_cons in Hfields as [[Hpart Hcomma] _].
  split; [by apply contains_strip|]. split.
  - rewrite contains_all_chars, negb_false_iff. by apply all_chars_strip.
  - destruct (first_field line part0 parts Hrow Hsplit) as [Hempty|Hok];
      [|done].
    by rewrite Hempty in Hslash.
Qed.

(** The Linode parser's entries: stripped, accepted as IPv4 networks, and
    empty or no comment. *)
Lemma parse_linode_text_entries ip_network content :
  Forall (λ entry,
            strip entry = entry ∧
            (entry = "" ∨ blank_or_comment entry = false) ∧
            ∃ network, ip_network entry = inr network ∧ version network = 4)
    (parse_linode_text ip_network content).
Proof.
  apply Forall_forall. intros entry Hentry.
  split; [|split; [|by eapply parse_linode_text_valid]].
  - unfold parse_linode_text in Hentry.
    apply list_elem_of_omap in Hentry as (line & _ & Hkeep).
    cbv zeta in Hkeep.
    destruct (blank_or_comment (strip line)); [done|].
    destruct (split "," (strip line)) as [|part0 parts]; [done|].
    destruct (ip_network (strip part0)) as [e|network]; [done|].
    destruct (version network =? 4); [|done].
    injection Hkeep as <-. apply strip_idem.
  - unfold parse_linode_text in Hentry.
    apply list_elem_of_omap in Hentry as (line & _ & Hkeep).
    cbv zeta in Hkeep.
    destruct (blank_or_comment (strip line)) eqn:Hrow; [done|].
    destruct (split "," (strip line)) as [|part0 parts] eqn:Hsplit; [done|].
    destruct (ip_network (strip part0)) as [e|network]; [done|].
    destruct (version network =? 4); [|done].
    injection Hkeep as <-. by eapply first_field.
Qed.

End parser_entries.

(** ** The fetcher and the validator: the Linode list *)

Section fetched_lists.
Import Py ipaddress fetch.
Variable ip_network : ip_network_t.
Variable findall_cidr_pattern : string → list string.
Variable json_loads : string → exn + json.
Variable sorted_set_other : list json → exn + list json.
Variable str_other : json → string.
Variable urlopen : list string → string → exn + string.

Local Abbreviation fetch_provider :=
  (fetch_provider ip_network findall_cidr_pattern json_loads sorted_set_other
     str_other urlopen).

(** No line of [ls] is rejected: the error list stays empty. *)
Lemma errors_of_accepted ls :
  Forall (λ l, ∃ normalized, kind_of ip_network l = Entry normalized) ls →
  errors_of ip_network ls = [] ∧
  length (validate.entries ip_network ls) = length ls.
Proof.
  induction ls as [|x ls IH] using rev_ind; [done|].
  intros [Hls [[normalized Hx] _]%Forall_cons]%Forall_app.
  destruct (IH Hls) as [Herrors Hentries].
  rewrite errors_of_snoc, error_of_kind, Hx, Herrors.
  split; [done|].
  rewrite entries_snoc, normalized_of_kind, Hx. rewrite !length_app.
  simpl. by rewrite Hentries.
Qed.

(** X16. The Linode list the fetcher writes passes the validator: when
    [ip_network] accepts as IPv4 networks only texts that are not empty
    and on one line, a successful fetch of "linode" leaves a file in
    which the validator counts one line per fetched entry and rejects
    none, each line being valid or the duplicate of an earlier one. *)
Theorem fetch_linode_validates (w : world) (count : nat) :
  (∀ address network,
     ip_network address = inr network → version network = 4 →
     address ≠ "" ∧ no_line_break address = true) →
  (fetch_provider "linode" false w).1 = inr (true, count) →
  ∃ r,
    validate.validate_file ip_network
      (w_fs (fetch_provider "linode" false w).2) "lists/providers/linode.txt"
      = inr r ∧
    validate.total_lines r = count ∧
    validate.invalid_cidrs r = 0%nat ∧
    validate.errors r = [] ∧
    (validate.valid_cidrs r + validate.duplicates r)%nat = count.
Proof.
  intros Htext. rewrite fetch_provider_run.
  assert (dict_get PROVIDERS "linode"
          = Some {| url := "https://geoip.linode.com/";
                    parser := "linode_text";
                    output := "lists/providers/linode.txt" |}) as ->
    by reflexivity.
  set (config := {| url := "https://geoip.linode.com/";
                    parser := "linode_text";
                    output := "lists/providers/linode.txt" |}).
  destruct (to_write ip_network findall_cidr_pattern json_loads
              sorted_set_other urlopen config w) as [entries|] eqn:Hsome;
    [|done].
  assert (∃ content,
            entries = JString <$> Py.sorted_set
                        (list_to_set (parse_linode_text ip_network content)))
    as [content ->].
  { revert Hsome. unfold to_write, parsed. cbn [url parser config].
    destruct (urlopen (w_requests w) "https://geoip.linode.com/")
      as [e|content]; [done|].
    assert (dict_get (PARSERS ip_network findall_cidr_pattern json_loads)
              "linode_text"
            = Some (strings (λ c, inr (parse_linode_text ip_network c))))
      as -> by reflexivity.
    unfold strings. case_bool_decide; [done|].
    rewrite sorted_set_strings. intros [= <-]. by exists content. }
  cbv zeta. rewrite format_value_fmap, length_fmap. cbn [output config].
  set (sorted := Py.sorted_set
                   (list_to_set (parse_linode_text ip_network content))).
  destruct (write_lines "lists/providers/linode.txt" (render sorted) (w_fs w))
    as [[e|[]] fs'] eqn:Hwrite; [done|].
  cbn [fst snd w_fs]. intros [= <-].
  apply write_lines_read in Hwrite.
  assert (Forall (λ entry,
            strip entry = entry ∧ blank_or_comment entry = false ∧
            no_line_break entry = true ∧
            ∃ network, ip_network entry = inr network ∧ version network = 4)
          sorted) as Hsorted.
  { apply Forall_forall. intros entry Hentry.
    apply elem_of_sorted_set, elem_of_list_to_set in Hentry.
    pose proof (parse_linode_text_entries ip_network content) as Hentries.
    rewrite Forall_forall in Hentries.
    destruct (Hentries _ Hentry) as (Hstrip & Hcomment & network & Hnet & Hv).
    destruct (Htext _ _ Hnet Hv) as [Hne Hline].
    split; [done|]. split; [by destruct Hcomment|]. split; [done|].
    by exists network. }
  assert (readlines (render sorted) = (λ entry, entry ++ nl) <$> sorted)
    as Hlines.
  { apply readlines_render. eapply Forall_impl; [exact Hsorted|].
    by intros entry (_ & _ & ? & _). }
  assert (Forall (λ l, ∃ normalized, kind_of ip_network l = Entry normalized)
            ((λ entry, entry ++ nl) <$> sorted)) as Hkinds.
  { apply Forall_fmap. eapply Forall_impl; [exact Hsorted|].
    intros entry (Hstrip & Hcomment & _ & network & Hnet & Hv). simpl.
    unfold kind_of. rewrite strip_append_nl, Hstrip, Hcomment, Hnet.
    apply Z.eqb_eq in Hv. rewrite Hv. by eexists. }
  destruct (errors_of_accepted _ Hkinds) as [Herrors Hentries].
  unfold validate.validate_file, open_r. rewrite Hwrite, Hlines.
  eexists. split; [done|].
  unfold validate.validate_lines, validate.finish.
  fold (scanned ip_network "lists/providers/linode.txt"
          ((λ entry, entry ++ nl) <$> sorted)).
  cbn [validate.total_lines validate.invalid_cidrs validate.errors
       validate.valid_cidrs validate.duplicates].
  destruct (scan_errors ip_network "lists/providers/linode.txt"
              ((λ entry, entry ++ nl) <$> sorted)) as (Herr & Hlen & _).
  destruct (scan_inv_scanned ip_network "lists/providers/linode.txt"
              ((λ entry, entry ++ nl) <$> sorted))
    as [Htotal _ _ Hdups _ _].
  cbv zeta in Herr, Hlen.
  rewrite Htotal, Hdups, Hentries, <-Hlen, Herr, Herrors, length_fmap.
  done.
Qed.

End fetched_lists.

(** A Linode sheet: a comment, two prefixes with their location, one of
    them twice, and an IPv6 prefix. *)
Definition linode_document : string :=
  "# prefix,country" ++ Py.nl
  ++ "198.51.100.0/24,US,US-NJ,Cedar Knolls," ++ Py.nl
  ++ "192.0.2.0/24,DE,DE-HE,Frankfurt," ++ Py.nl
  ++ "198.51.100.0/24,US,US-NJ,Cedar Knolls," ++ Py.nl
  ++ "2001:db8::/32,US,US-NJ,Cedar Knolls," ++ Py.nl.

(** A network where every endpoint answers with the Linode sheet. *)
Definition linode_urlopen (requests : list string) (url : string)
  : exn + string := inr linode_document.

(** The IPv4 side of the sample [ip_network] accepts only texts written
    with digits, dots and a slash. *)
Lemma example_ip_network_text address network :
  ipaddress.example_ip_network address = inr network →
  ipaddress.version network = 4 →
  address ≠ "" ∧ fetch.no_line_break address = true.
Proof.
  unfold ipaddress.example_ip_network, ipaddress.ip_network.
  destruct (ipaddress.IPv4Network address) as [n|] eqn:Hv4.
  - intros _ _. apply IPv4Network_chars in Hv4 as (Hne & Hchars & _).
    split; [done|]. apply no_space_no_line_break.
    revert Hchars. apply all_chars_impl. intros c Hc.
    by rewrite (ipv4_char_not_space c Hc).
  - unfold ipaddress.example_IPv6Network.
    destruct (Py.eqs address "2001:db8::/32"); [|done].
    by intros [= <-].
Qed.

(** X16, on the sample sheet: two entries are written, and the validator
    finds two lines and nothing to reject. *)
Lemma fetch_linode_validates_witness :
  ∃ r,
    validate.validate_file ipaddress.example_ip_network
      (fetch.w_fs
         (fetch.fetch_provider ipaddress.example_ip_network example_findall
            example_json_loads example_sorted_set_other example_str_other
            linode_urlopen "linode" false example_world).2)
      "lists/providers/linode.txt" = inr r ∧
    validate.total_lines r = 2%nat ∧
    validate.invalid_cidrs r = 0%nat ∧
    validate.errors r = [] ∧
    (validate.valid_cidrs r + validate.duplicates r)%nat = 2%nat.
Proof.
  apply (fetch_linode_validates ipaddress.example_ip_network example_findall
           example_json_loads example_sorted_set_other example_str_other
           linode_urlopen example_world 2%nat example_ip_network_text).
  vm_compute. reflexivity.
Defined.

(** ** The chunker and the validator: what chunking leaves of the verdict *)

Section chunk_validation.
Import Py ipaddress validate.
Variable ip_network : ip_network_t.

Local Abbreviation validate_cidr := (validate_cidr ip_network).
Local Abbreviation validate_lines := (validate_lines ip_network).
Local Abbreviation validate_file := (validate_file ip_network).

(** The lines of [ls] the validator rejects. *)
Definition rejected (ls : list string) : list string :=
  filter (λ l, (validate_cidr l).1 = false) ls.

Lemma validate_cidr_strip a b :
  strip a = strip b → validate_cidr a = validate_cidr b.
Proof. unfold validate.validate_cidr. by intros ->. Qed.

Lemma rejected_app ls ls' : rejected (ls ++ ls') = (rejected ls ++ rejected ls')%list.
Proof. apply filter_app. Qed.

(** The invalid count of a file is the number of lines [validate_cidr]
    rejects, and the line count the number of lines. *)
Lemma validate_lines_counts filepath ls :
  let r := validate_lines filepath ls in
  invalid_cidrs r = length (rejected ls) ∧
  total_lines r = length ls ∧
  (valid_cidrs r + invalid_cidrs r + duplicates r)%nat
    = length (counted ls).
Proof.
  cbv zeta. unfold validate.validate_lines, finish.
  fold (scanned ip_network filepath ls).
  cbn [invalid_cidrs total_lines valid_cidrs duplicates].
  destruct (scan_errors ip_network filepath ls) as (Herr & Hlen & _).
  destruct (scan_inv_scanned ip_network filepath ls) as [Htotal _ _ _ Hsum _].
  cbv zeta in Herr, Hlen. split; [|by split].
  rewrite <-Hlen, Herr. clear.
  induction ls as [|x ls IH] using rev_ind; [done|].
  rewrite errors_of_snoc, rejected_app, !length_app, IH. f_equal.
  unfold rejected, error_of. rewrite filter_cons, filter_nil.
  destruct (validate.validate_cidr ip_network x) as [[] err]; by case_decide.
Qed.

(** Blank lines and comments are not rejected, and a line is rejected
    exactly when its stripped text is: the entries the chunker reads hold
    as many rejected ones as the lines of the file. *)
Lemma rejected_cidrs_of_lines ls :
  length (rejected (chunk.cidrs_of_lines ls)) = length (rejected ls) ∧
  length (chunk.cidrs_of_lines ls) = length (counted ls).
Proof.
  unfold chunk.cidrs_of_lines, rejected, counted.
  induction ls as [|l ls [IH1 IH2]]; [done|].
  rewrite fmap_cons, !(filter_cons _ l), (filter_cons _ (strip l)).
  destruct (blank_or_comment (strip l)) eqn:Hskip.
  - rewrite decide_False by done.
    assert (validate_cidr l = (true, None)) as Hl.
    { unfold validate.validate_cidr. by rewrite Hskip. }
    rewrite Hl. rewrite (decide_False (P := (true = false))) by done.
    rewrite (decide_False (P := (true = false))) by done. done.
  - rewrite !(decide_True (P := (false = false))) by done.
    rewrite filter_cons.
    rewrite (validate_cidr_strip (strip l) l) by apply strip_idem.
    case_decide; simpl; by rewrite ?IH1, ?IH2.
Qed.

(** The lines of a chunk file are rejected as its entries are. *)
Lemma rejected_render entries :
  Forall clean_entry entries →
  length (rejected (readlines (render entries))) = length (rejected entries) ∧
  length (readlines (render entries)) = length entries.
Proof.
  intros Hclean. rewrite readlines_render.
  2:{ eapply Forall_impl; [exact Hclean|]. by intros entry (_ & _ & ?). }
  rewrite length_fmap. split; [|done].
  unfold rejected. clear Hclean.
  induction entries as [|entry entries IH]; [done|].
  rewrite fmap_cons, !filter_cons.
  rewrite (validate_cidr_strip (entry ++ nl) entry) by apply strip_append_nl.
  case_decide; simpl; by rewrite IH.
Qed.

Lemma sum_list_length_concat {A} (f : list A → list A) (chunks : list (list A)) :
  (∀ l l', f (l ++ l') = f l ++ f l')%list →
  f [] = [] →
  sum_list ((λ chunk, length (f chunk)) <$> chunks) = length (f (concat chunks)).
Proof.
  intros Happ Hnil. induction chunks as [|chunk chunks IH].
  - csimpl. by rewrite Hnil.
  - csimpl. by rewrite Happ, length_app, IH.
Qed.

(** X17. Chunking neither hides nor adds an invalid entry: for a source
    with at least one entry and a chunk size of at least one, after a real
    run that returned, every chunk file can be validated, the invalid
    counts of the chunk files add up to the invalid count of the source,
    and their line counts add up to the number of source lines that are
    neither blank nor comments. *)
Theorem chunk_file_validation (fs fs' : filesystem)
    (input_path output_dir : string) (chunk_size : Z)
    (prefix : option string) (cidrs output_files : list string) :
  chunk.read_cidrs fs input_path = inr cidrs →
  cidrs ≠ [] →
  1 ≤ chunk_size →
  chunk.chunk_file input_path output_dir chunk_size prefix false fs
    = (inr output_files, fs') →
  ∃ r rs,
    validate_file fs input_path = inr r ∧
    Forall2 (λ path r_i, validate_file fs' path = inr r_i) output_files rs ∧
    sum_list (invalid_cidrs <$> rs) = invalid_cidrs r ∧
    sum_list (total_lines <$> rs)
      = (valid_cidrs r + invalid_cidrs r + duplicates r)%nat.
Proof.
  intros Hread Hne HN.
  destruct (read_cidrs_inr _ _ _ Hread) as (text & Htext & Hcidrs & Hclean).
  rewrite (chunk_file_loop _ _ _ _ _ _ cidrs) by (done || lia).
  destruct (chunk_cidrs_concat cidrs chunk_size Hne HN) as (_ & _ & Hconcat).
  set (pfx := default (pathlib.stem input_path) prefix) in *.
  set (k := Z.to_nat ((Z.of_nat (length cidrs) + chunk_size - 1) / chunk_size))
    in *.
  set (chunks := chunk.chunk_cidrs cidrs chunk_size <$> seq 0 k) in *.
  intros (-> & _ & _ & Hfiles)%chunk_loop_real.
  specialize (Hfiles (NoDup_seq _ _)).
  assert (length (rejected cidrs)
          = sum_list ((λ chunk, length (rejected chunk)) <$> chunks))
    as Hrejected.
  { rewrite (sum_list_length_concat rejected) by (done || apply rejected_app).
    by rewrite Hconcat. }
  assert (length cidrs = sum_list (length <$> chunks)) as Hlength.
  { rewrite (sum_list_length_concat id) by done. by rewrite Hconcat. }
  exists (validate_lines input_path (readlines text)),
         ((λ i, validate_lines (output_path output_dir pfx i)
                  (readlines (render (chunk.chunk_cidrs cidrs chunk_size i))))
            <$> seq 0 k).
  split; [|split; [|split]].
  - unfold validate.validate_file, open_r. by rewrite Htext.
  - simpl. apply Forall2_fmap, Forall_Forall2_diag, Forall_forall.
    intros i Hi. unfold validate.validate_file, open_r.
    by rewrite (Hfiles i Hi).
  - destruct (validate_lines_counts input_path (readlines text))
      as (-> & _ & _).
    destruct (rejected_cidrs_of_lines (readlines text)) as [<- _].
    rewrite <-Hcidrs, Hrejected.
    unfold chunks. rewrite <-!list_fmap_compose. f_equal.
    apply list_fmap_ext. intros _ i _. unfold compose.
    destruct (validate_lines_counts (output_path output_dir pfx i)
                (readlines (render (chunk.chunk_cidrs cidrs chunk_size i))))
      as (-> & _ & _).
    apply rejected_render. by apply chunk_cidrs_clean.
  - destruct (validate_lines_counts input_path (readlines text))
      as (_ & _ & ->).
    destruct (rejected_cidrs_of_lines (readlines text)) as [_ <-].
    rewrite <-Hcidrs, Hlength.
    unfold chunks. rewrite <-!list_fmap_compose. f_equal.
    apply list_fmap_ext. intros _ i _. unfold compose.
    destruct (validate_lines_counts (output_path output_dir pfx i)
                (readlines (render (chunk.chunk_cidrs cidrs chunk_size i))))
      as (_ & -> & _).
    apply rejected_render. by apply chunk_cidrs_clean.
Qed.

End chunk_validation.

(** X17, on the sample source cut by two, with the sample [ip_network]:
    three chunk files, five lines in all, none invalid. *)
Lemma chunk_file_validation_witness :
  ∃ r rs,
    validate.validate_file ipaddress.example_ip_network five_entries_fs
      "lists/providers/tor.txt" = inr r ∧
    Forall2 (λ path r_i,
               validate.validate_file ipaddress.example_ip_network
                 (chunk.chunk_file "lists/providers/tor.txt"
                    "lists/chunks/tor" 2 None false five_entries_fs).2 path
               = inr r_i)
      ["lists/chunks/tor/tor-part-001.txt";
       "lists/chunks/tor/tor-part-002.txt";
       "lists/chunks/tor/tor-part-003.txt"] rs ∧
    sum_list (validate.invalid_cidrs <$> rs) = validate.invalid_cidrs r ∧
    sum_list (validate.total_lines <$> rs)
      = (validate.valid_cidrs r + validate.invalid_cidrs r
         + validate.duplicates r)%nat.
Proof.
  apply (chunk_file_validation ipaddress.example_ip_network five_entries_fs _
           "lists/providers/tor.txt" "lists/chunks/tor" 2 None
           ["1.1.1.1/32"; "2.2.2.2/32"; "3.3.3.3/32"; "4.4.4.4/32";
            "5.5.5.5/32"]);
    [reflexivity|discriminate|lia|reflexivity].
Defined.

